(** * The mailbox store of temp-email-server

    A shallow embedding of class [EmailManager] (the server script) and of
    the configuration it reads, followed by the properties of the store:
    deposit, listing, read marks, deletion, the retention sweep and the
    snapshot written to and read from [emails.json].

    Conventions of the embedding.
    - A JavaScript number that holds a timestamp, a counter or a
      configured bound is an integer of [Z]; all of them stay far below
      2^53, where doubles are exact.
    - The [Map] [this.emails] is a [gmap string mailbox]; the [Set]
      [this.domains] is the list of its elements in insertion order.
    - A method that mutates [this] takes the state and returns the new one.
    - The clock and [Math.random] are inputs: every place of the source
      that reads one of them has a parameter (or a field of an environment
      record) of its own.
    - [receiveEmail] is declared [async] but awaits nothing: it runs to its
      end in one piece, like the other methods. Log lines are left out. *)

From Stdlib Require Import ZArith Ascii String Lia.
From stdpp Require Import base tactics option list strings pretty gmap fin_maps.

Set Warnings "-register-all".

Open Scope Z_scope.

(** ** Values of the host language *)

(** A point in time as the store holds it: a [Date] object, or the ISO-8601
    string that [toISOString] / [JSON.stringify] make of one. Both carry
    the milliseconds since the epoch; [new Date(x).getTime()] reads them
    back from either form. *)
Inductive jsdate :=
  | DateObj (ms : Z)
  | IsoString (ms : Z).

Definition getTime (d : jsdate) : Z :=
  match d with DateObj ms | IsoString ms => ms end.

Definition toISOString (d : jsdate) : jsdate := IsoString (getTime d).

(** Data as a parsed mail hands it over (header values): JSON-like trees
    in which [Date] objects may occur. *)
Inductive jsval :=
  | VNull
  | VBool (b : bool)
  | VNum (n : Z)
  | VStr (s : string)
  | VDate (d : jsdate)
  | VArr (l : list jsval)
  | VObj (l : list (string * jsval)).

(** [JSON.parse (JSON.stringify v)] on such a tree: a [Date] comes back as
    its ISO string, everything else as it was. *)
Fixpoint json_roundtrip (v : jsval) : jsval :=
  match v with
  | VDate d => VDate (toISOString d)
  | VArr l => VArr (map json_roundtrip l)
  | VObj l => VObj (map (fun kv => match kv with (k, x) => (k, json_roundtrip x) end) l)
  | _ => v
  end.

(** [x || d] on an optional string: [undefined] and the empty string are
    falsy. *)
Definition or_string (x : option string) (d : string) : string :=
  match x with
  | Some s => if decide (s = ""%string) then d else s
  | None => d
  end.

(** [parseInt(env) || d]: [None] is [NaN]; [NaN] and [0] are falsy. *)
Definition or_number (x : option Z) (d : Z) : Z :=
  match x with
  | Some n => if decide (n = 0) then d else n
  | None => d
  end.

(** [arr.slice(0, n)]: a negative [n] counts from the end of the array. *)
Definition slice0 {A} (l : list A) (n : Z) : list A :=
  if decide (n < 0)
  then take (Z.to_nat (Z.of_nat (length l) + n)) l
  else take (Z.to_nat n) l.

(** [Math.floor(Math.random() * n)]: the oracle value [r] stands for the
    draw; the result is some index below [n]. *)
Definition floor_random (r n : nat) : nat := (r mod n)%nat.

(** [String.prototype.toLowerCase] on the ASCII letters. *)
Definition lower_ascii (c : ascii) : ascii :=
  let n := nat_of_ascii c in
  if decide (65 ≤ n ≤ 90)%nat then ascii_of_nat (n + 32) else c.

Fixpoint toLowerCase (s : string) : string :=
  match s with
  | EmptyString => EmptyString
  | String c s' => String (lower_ascii c) (toLowerCase s')
  end.

(** ** Configuration *)

Record Env := {
  env_SMTP_PORT : option Z;
  env_HTTP_PORT : option Z;
  env_EMAIL_EXPIRY_HOURS : option Z;
  env_MAX_EMAILS_PER_ADDRESS : option Z;
  env_SAVE_EMAILS : option string
}.

Record Config := {
  SMTP_PORT : Z;
  HTTP_PORT : Z;
  EMAIL_EXPIRY_HOURS : Z;
  MAX_EMAILS_PER_ADDRESS : Z;
  SAVE_EMAILS : bool
}.

(** The object [config]; each numeric entry is [parseInt(process.env.X) || d]
    and [SAVE_EMAILS] is [process.env.SAVE_EMAILS === 'true']. *)
Definition config (e : Env) : Config := {|
  SMTP_PORT := or_number (env_SMTP_PORT e) 1025;
  HTTP_PORT := or_number (env_HTTP_PORT e) 3000;
  EMAIL_EXPIRY_HOURS := or_number (env_EMAIL_EXPIRY_HOURS e) 24;
  MAX_EMAILS_PER_ADDRESS := or_number (env_MAX_EMAILS_PER_ADDRESS e) 100;
  SAVE_EMAILS := bool_decide (env_SAVE_EMAILS e = Some "true"%string)
|}.

(** The configuration of an empty environment. *)
Definition default_config : Config :=
  config {| env_SMTP_PORT := None; env_HTTP_PORT := None;
            env_EMAIL_EXPIRY_HOURS := None; env_MAX_EMAILS_PER_ADDRESS := None;
            env_SAVE_EMAILS := None |}.

(** ** Data model *)

(** A stored message: the object [savedEmail] of [receiveEmail]. Its
    [date] is always written by [toISOString]. *)
Record message := {
  msg_id : string;
  msg_from : string;
  msg_to : string;
  msg_subject : string;
  msg_text : string;
  msg_html : string;
  msg_headers : jsval;
  msg_date : jsdate;
  msg_read : bool;
  msg_attachments : Z
}.

Record mailbox_stats := {
  received : Z;
  read : Z
}.

(** The value kept under an address in [this.emails]. *)
Record mailbox := {
  address : string;
  created : jsdate;
  messages : list message;
  stats : mailbox_stats
}.

(** [this.stats]. *)
Record manager_stats := {
  totalEmails : Z;
  totalAddresses : Z;
  startTime : jsdate
}.

(** An entry of [this.domainHistory]. *)
Record history_entry := {
  h_email : string;
  h_domain : string;
  h_timestamp : jsdate;
  h_type : string
}.

Record EmailManager := {
  emails : gmap string mailbox;
  domains : list string;
  publicIP : option string;
  localIPs : list string;
  domainHistory : list history_entry;
  mgr_stats : manager_stats
}.

(** What [JSON.stringify (data, null, 2)] writes: the properties of the
    object [data] of [saveToFile]. An object read back from a file may lack
    [emails] or [stats]. *)
Record file_data := {
  fd_emails : option (list (string * mailbox));
  fd_stats : option manager_stats;
  fd_savedAt : jsdate
}.

(** The file [config.EMAIL_STORAGE]. *)
Inductive storage :=
  | NoFile
  | Malformed
  | Snapshot (data : file_data).

(** The manager together with what it acts on: the storage file, whether
    the file system accepts a write, and the number of times [saveToFile]
    has been entered (a counter of the embedding, not of the program). *)
Record World := {
  mgr : EmailManager;
  file : storage;
  writable : bool;
  saveCalls : nat
}.

(** *** Field updates *)

Definition set_read (b : bool) (m : message) : message :=
  {| msg_id := msg_id m; msg_from := msg_from m; msg_to := msg_to m;
     msg_subject := msg_subject m; msg_text := msg_text m;
     msg_html := msg_html m; msg_headers := msg_headers m;
     msg_date := msg_date m; msg_read := b;
     msg_attachments := msg_attachments m |}.

Definition set_messages (l : list message) (e : mailbox) : mailbox :=
  {| address := address e; created := created e; messages := l;
     stats := stats e |}.

Definition set_emails (em : gmap string mailbox) (m : EmailManager) : EmailManager :=
  {| emails := em; domains := domains m; publicIP := publicIP m;
     localIPs := localIPs m; domainHistory := domainHistory m;
     mgr_stats := mgr_stats m |}.

Definition set_mgr_stats (s : manager_stats) (m : EmailManager) : EmailManager :=
  {| emails := emails m; domains := domains m; publicIP := publicIP m;
     localIPs := localIPs m; domainHistory := domainHistory m;
     mgr_stats := s |}.

Definition set_mgr (m : EmailManager) (w : World) : World :=
  {| mgr := m; file := file w; writable := writable w;
     saveCalls := saveCalls w |}.

(** [new EmailManager()], constructed at time [now]. *)
Definition new_EmailManager (now : Z) : EmailManager := {|
  emails := ∅;
  domains := ["localhost"%string];
  publicIP := None;
  localIPs := [];
  domainHistory := [];
  mgr_stats := {| totalEmails := 0; totalAddresses := 0; startTime := DateObj now |}
|}.

(** The empty mailbox that [generateEmailAddress] and [receiveEmail] create. *)
Definition new_mailbox (email : string) (now : Z) : mailbox := {|
  address := email;
  created := DateObj now;
  messages := [];
  stats := {| received := 0; read := 0 |}
|}.

(** ** Persistence *)

(** The storage file is held as the object that was written to it, the way
    [JSON.parse] gives it back: the text between [JSON.stringify] and
    [JSON.parse] is the platform's business and is not modelled. What the
    pair does to the values of the store is: a [Date] comes back as its ISO
    string, and strings, numbers, booleans, arrays and the properties of
    objects come back as they were. *)

Definition message_toJSON (m : message) : message :=
  {| msg_id := msg_id m; msg_from := msg_from m; msg_to := msg_to m;
     msg_subject := msg_subject m; msg_text := msg_text m;
     msg_html := msg_html m; msg_headers := json_roundtrip (msg_headers m);
     msg_date := toISOString (msg_date m); msg_read := msg_read m;
     msg_attachments := msg_attachments m |}.

(** A mailbox as it is after [JSON.stringify] and [JSON.parse]: property
    by property, [Date]s as ISO strings. *)
Definition mailbox_toJSON (e : mailbox) : mailbox :=
  {| address := address e; created := toISOString (created e);
     messages := map message_toJSON (messages e); stats := stats e |}.

Definition stats_toJSON (s : manager_stats) : manager_stats :=
  {| totalEmails := totalEmails s; totalAddresses := totalAddresses s;
     startTime := toISOString (startTime s) |}.

(** [Object.fromEntries (this.emails)]: one property per key of the map. *)
Definition Object_fromEntries (em : gmap string mailbox) : list (string * mailbox) :=
  map_to_list em.

(** [new Map (Object.entries (o))]: entries are set one after the other. *)
Definition Map_of_entries (o : list (string * mailbox)) : gmap string mailbox :=
  foldl (fun m kv => <[kv.1 := kv.2]> m) ∅ o.

Definition file_data_of (now : Z) (m : EmailManager) : file_data := {|
  fd_emails := Some (map (fun kv => (kv.1, mailbox_toJSON kv.2))
                         (Object_fromEntries (emails m)));
  fd_stats := Some (stats_toJSON (mgr_stats m));
  fd_savedAt := IsoString now
|}.

(** [saveToFile]: nothing is written unless [SAVE_EMAILS] is set; a write
    the file system refuses is caught and logged. *)
Definition saveToFile (cfg : Config) (now : Z) (w : World) : World :=
  let w := {| mgr := mgr w; file := file w; writable := writable w;
              saveCalls := S (saveCalls w) |} in
  if negb (SAVE_EMAILS cfg) then w
  else if writable w
       then {| mgr := mgr w; file := Snapshot (file_data_of now (mgr w));
               writable := writable w; saveCalls := saveCalls w |}
       else w.

(** [loadFromFile]: a missing or unparsable file is caught and logged, and
    the manager stays as it is. *)
Definition loadFromFile (w : World) : World :=
  match file w with
  | Snapshot data =>
      let m := set_emails (Map_of_entries (default [] (fd_emails data))) (mgr w) in
      let m := set_mgr_stats (default (mgr_stats m) (fd_stats data)) m in
      set_mgr m w
  | NoFile | Malformed => w
  end.

(** [fs.existsSync (config.EMAIL_STORAGE)]. *)
Definition existsSync (f : storage) : bool :=
  match f with NoFile => false | Malformed | Snapshot _ => true end.

(** [this.domains.add (d)]. *)
Definition Set_add (d : string) (ds : list string) : list string :=
  if decide (d ∈ ds) then ds else ds ++ [d].

(** [initialize], given what the address detection found: the public
    address and the local ones. *)
Definition initialize (cfg : Config) (detectedPublic : option string)
    (detectedLocal : list string) (w : World) : World :=
  let m := mgr w in
  let ds := match detectedPublic with
            | Some ip => if decide (ip = ""%string) then domains m else Set_add ip (domains m)
            | None => domains m
            end in
  let ls := localIPs m ++ detectedLocal in
  let ds := foldl (fun acc ip => Set_add ip acc) ds ls in
  let m := {| emails := emails m; domains := ds; publicIP := detectedPublic;
              localIPs := ls; domainHistory := domainHistory m;
              mgr_stats := mgr_stats m |} in
  let w := set_mgr m w in
  if SAVE_EMAILS cfg && existsSync (file w) then loadFromFile w else w.

(** ** Address allocation *)

(** A character class of a regular expression: inclusive ranges. *)
Definition char_class := list (ascii * ascii).

Definition in_class (cls : char_class) (c : ascii) : bool :=
  existsb (fun r => (nat_of_ascii r.1 <=? nat_of_ascii c)%nat
                    && (nat_of_ascii c <=? nat_of_ascii r.2)%nat) cls.

(** [/^[cls]{lo,hi}$/.test (s)]: between [lo] and [hi] characters of the
    class, and nothing else. *)
Fixpoint test_class_repeat (cls : char_class) (lo hi : nat) (s : string)
    {struct s} : bool :=
  match s with
  | EmptyString => bool_decide (lo = 0%nat)
  | String c s' =>
      match hi with
      | O => false
      | S hi' => in_class cls c && test_class_repeat cls (Nat.pred lo) hi' s'
      end
  end.

(** The class [[a-z0-9_.-]]. *)
Definition username_class : char_class :=
  [("a", "z"); ("0", "9"); ("_", "_"); (".", "."); ("-", "-")]%char.

(** [isValidUsername]: [/^[a-z0-9_.-]{3,20}$/.test (username)]. *)
Definition isValidUsername (username : string) : bool :=
  test_class_repeat username_class 3 20 username.

Definition adjectives : list string :=
  ["quick"; "clever"; "happy"; "brave"; "calm"; "eager"; "gentle"; "jolly";
   "smart"; "wise"]%string.

Definition nouns : list string :=
  ["fox"; "bear"; "wolf"; "eagle"; "lion"; "tiger"; "panda"; "hawk"; "owl";
   "deer"]%string.

(** An array element read at an index: [undefined] outside the array,
    which a template literal prints as such. *)
Definition element (l : list string) (i : nat) : string :=
  default "undefined"%string (l !! i).

(** What one call of [generateEmailAddress] reads from [Math.random] and
    from the clock, in the order of the source. *)
Record AllocEnv := {
  random_num : nat;
  random_adj : nat;
  random_noun : nat;
  random_domain : nat;
  now_created : Z;
  now_history : Z
}.

Definition generateRandomUsername (g : AllocEnv) : string :=
  let num := floor_random (random_num g) 999 in
  let adj := element adjectives (floor_random (random_adj g) (length adjectives)) in
  let noun := element nouns (floor_random (random_noun g) (length nouns)) in
  toLowerCase (adj +:+ "_" +:+ noun +:+ "_" +:+ pretty num).

(** The argument [options] of [generateEmailAddress]; an absent [type]
    defaults to ['public']. *)
Record AllocOptions := {
  opt_username : option string;
  opt_domain : option string;
  opt_type : option string
}.

(** The fields of the returned object that identify the address (the
    object also carries [instructions], fixed help texts for the domain). *)
Record AddressInfo := {
  ai_email : string;
  ai_domain : string;
  ai_isPublic : bool;
  ai_isLocal : bool;
  ai_smtpServer : string;
  ai_webInterface : string
}.

(** Truthiness of an optional string. *)
Definition truthy (x : option string) : bool :=
  match x with
  | Some s => bool_decide (s ≠ ""%string)
  | None => false
  end.

(** The username part of [generateEmailAddress]. *)
Definition chooseUsername (g : AllocEnv) (customUsername : option string) : string :=
  match customUsername with
  | Some u =>
      if truthy customUsername && isValidUsername u then u
      else generateRandomUsername g
  | None => generateRandomUsername g
  end.

(** The domain part of [generateEmailAddress]. *)
Definition chooseDomain (g : AllocEnv) (preferredDomain : option string)
    (type : string) (m : EmailManager) : string :=
  let ds := domains m in
  let preferred := default ""%string preferredDomain in
  if truthy preferredDomain && bool_decide (preferred ∈ ds) then preferred
  else if bool_decide (type = "public"%string) && truthy (publicIP m)
  then default ""%string (publicIP m)
  else if bool_decide (type = "local"%string)
  then let localDomains :=
         filter (fun d => Some d ≠ publicIP m ∧ d ≠ "localhost"%string) ds in
       match localDomains with d0 :: _ => d0 | [] => "localhost"%string end
  else element ds (floor_random (random_domain g) (length ds)).

Definition generateEmailAddress (cfg : Config) (g : AllocEnv)
    (options : AllocOptions) (m : EmailManager) : AddressInfo * EmailManager :=
  let type := default "public"%string (opt_type options) in
  let username := chooseUsername g (opt_username options) in
  let domain := chooseDomain g (opt_domain options) type m in
  let email := username +:+ "@" +:+ domain in
  let m1 :=
    match emails m !! email with
    | Some _ => m
    | None =>
        let s := mgr_stats m in
        set_mgr_stats {| totalEmails := totalEmails s;
                         totalAddresses := totalAddresses s + 1;
                         startTime := startTime s |}
          (set_emails (<[email := new_mailbox email (now_created g)]> (emails m)) m)
    end in
  let isLocalIP := bool_decide (domain ∈ localIPs m) in
  let entry := {|
    h_email := email; h_domain := domain;
    h_timestamp := DateObj (now_history g);
    h_type := if bool_decide (domain = "localhost"%string)
                 || (isLocalIP && bool_decide (Some domain ≠ publicIP m))
              then "local"%string else "public"%string |} in
  let m2 := {| emails := emails m1; domains := domains m1;
               publicIP := publicIP m1; localIPs := localIPs m1;
               domainHistory := domainHistory m1 ++ [entry];
               mgr_stats := mgr_stats m1 |} in
  ({| ai_email := email;
      ai_domain := domain;
      ai_isPublic := bool_decide (Some domain = publicIP m);
      ai_isLocal := bool_decide (domain = "localhost"%string) || isLocalIP;
      ai_smtpServer := domain +:+ ":" +:+ pretty (SMTP_PORT cfg);
      ai_webInterface :=
        if bool_decide (domain = "localhost"%string)
        then "http://localhost:" +:+ pretty (HTTP_PORT cfg)
        else "http://" +:+ domain +:+ ":" +:+ pretty (HTTP_PORT cfg) |}, m2).

(** ** The mailbox store *)

(** The argument [emailData] of [receiveEmail]: the fields the parser
    filled in; an absent field is [None]. *)
Record EmailData := {
  ed_from : string;
  ed_subject : option string;
  ed_text : option string;
  ed_html : option string;
  ed_headers : option jsval;
  ed_attachments : option Z
}.

(** What one call of [receiveEmail] reads from the clock and from
    [Math.random]: [random_id] is [Math.random().toString(36)]. *)
Record ReceiveEnv := {
  at_created : Z;
  at_id : Z;
  random_id : string;
  at_date : Z;
  at_saved : Z
}.

(** Truthiness of a value. *)
Definition truthy_val (v : jsval) : bool :=
  match v with
  | VNull => false
  | VBool b => b
  | VNum n => bool_decide (n ≠ 0)
  | VStr s => bool_decide (s ≠ ""%string)
  | VDate _ | VArr _ | VObj _ => true
  end.

(** [Date.now().toString() + Math.random().toString(36).substr(2, 9)]. *)
Definition emailId (e : ReceiveEnv) : string :=
  pretty (at_id e) +:+ substring 2 9 (random_id e).

(** The object [savedEmail]. *)
Definition savedEmail (e : ReceiveEnv) (toAddress : string) (emailData : EmailData) : message := {|
  msg_id := emailId e;
  msg_from := ed_from emailData;
  msg_to := toAddress;
  msg_subject := or_string (ed_subject emailData) "No Subject";
  msg_text := or_string (ed_text emailData) "";
  msg_html := or_string (ed_html emailData) "";
  msg_headers := match ed_headers emailData with
                 | Some h => if truthy_val h then h else VObj []
                 | None => VObj []
                 end;
  msg_date := IsoString (at_date e);
  msg_read := false;
  msg_attachments := or_number (ed_attachments emailData) 0
|}.

(** The object [receiveEmail] resolves to. *)
Record ReceiveResult := {
  r_id : string;
  r_address : string;
  r_email : message;
  r_totalMessages : nat
}.

(** The first part of [receiveEmail]: the mailbox of [toAddress], created
    if the map has none. *)
Definition ensureMailbox (now : Z) (toAddress : string) (m : EmailManager)
    : mailbox * EmailManager :=
  match emails m !! toAddress with
  | Some emailEntry => (emailEntry, m)
  | None =>
      let emailEntry := new_mailbox toAddress now in
      let s := mgr_stats m in
      (emailEntry,
       set_mgr_stats {| totalEmails := totalEmails s;
                        totalAddresses := totalAddresses s + 1;
                        startTime := startTime s |}
         (set_emails (<[toAddress := emailEntry]> (emails m)) m))
  end.

(** [unshift], the counter, and the limit on the messages of one address. *)
Definition deposit (cfg : Config) (msg : message) (emailEntry : mailbox) : mailbox :=
  let msgs := msg :: messages emailEntry in
  let st := {| received := received (stats emailEntry) + 1;
               read := read (stats emailEntry) |} in
  let msgs := if decide (Z.of_nat (length msgs) > MAX_EMAILS_PER_ADDRESS cfg)
              then slice0 msgs (MAX_EMAILS_PER_ADDRESS cfg)
              else msgs in
  {| address := address emailEntry; created := created emailEntry;
     messages := msgs; stats := st |}.

Definition receiveEmail (cfg : Config) (e : ReceiveEnv) (toAddress : string)
    (emailData : EmailData) (w : World) : ReceiveResult * World :=
  let '(emailEntry, m) := ensureMailbox (at_created e) toAddress (mgr w) in
  let saved := savedEmail e toAddress emailData in
  let emailEntry := deposit cfg saved emailEntry in
  let s := mgr_stats m in
  let m := set_mgr_stats {| totalEmails := totalEmails s + 1;
                            totalAddresses := totalAddresses s;
                            startTime := startTime s |}
             (set_emails (<[toAddress := emailEntry]> (emails m)) m) in
  let w := saveToFile cfg (at_saved e) (set_mgr m w) in
  ({| r_id := emailId e; r_address := toAddress; r_email := saved;
      r_totalMessages := length (messages emailEntry) |}, w).

(** [getEmailsForAddress]: the messages of the mailbox, or the empty
    array when the map has no such key. *)
Definition getEmailsForAddress (emailAddress : string) (w : World) : list message :=
  match emails (mgr w) !! emailAddress with
  | Some emailEntry => messages emailEntry
  | None => []
  end.

Definition markAsRead (cfg : Config) (now : Z) (emailAddress emailId : string)
    (w : World) : bool * World :=
  match emails (mgr w) !! emailAddress with
  | Some emailEntry =>
      match list_find (fun msg => msg_id msg = emailId) (messages emailEntry) with
      | Some (i, email) =>
          if negb (msg_read email) then
            let emailEntry :=
              {| address := address emailEntry; created := created emailEntry;
                 messages := <[i := set_read true email]> (messages emailEntry);
                 stats := {| received := received (stats emailEntry);
                             read := read (stats emailEntry) + 1 |} |} in
            let m := set_emails (<[emailAddress := emailEntry]> (emails (mgr w))) (mgr w) in
            (true, saveToFile cfg now (set_mgr m w))
          else (false, w)
      | None => (false, w)
      end
  | None => (false, w)
  end.

Definition deleteEmail (cfg : Config) (now : Z) (emailAddress emailId : string)
    (w : World) : bool * World :=
  match emails (mgr w) !! emailAddress with
  | Some emailEntry =>
      let initialLength := length (messages emailEntry) in
      let emailEntry :=
        set_messages (filter (fun msg => msg_id msg ≠ emailId) (messages emailEntry))
                     emailEntry in
      let w := set_mgr (set_emails (<[emailAddress := emailEntry]> (emails (mgr w))) (mgr w)) w in
      if decide (length (messages emailEntry) < initialLength)%nat
      then (true, saveToFile cfg now w)
      else (false, w)
  | None => (false, w)
  end.

Definition deleteAllEmails (cfg : Config) (now : Z) (emailAddress : string)
    (w : World) : bool * World :=
  match emails (mgr w) !! emailAddress with
  | Some emailEntry =>
      let m := set_emails (<[emailAddress := set_messages [] emailEntry]> (emails (mgr w)))
                          (mgr w) in
      (true, saveToFile cfg now (set_mgr m w))
  | None => (false, w)
  end.

(** The object [getStats] returns. [uptime] is [Date.now() - startTime]:
    a number while [startTime] is a [Date], [NaN] (here [None]) once it is
    the string read back from a snapshot. *)
Record Stats := {
  st_totalEmails : Z;
  st_totalAddresses : Z;
  st_startTime : jsdate;
  st_uptime : option Z;
  st_activeAddresses : nat;
  st_domains : list string;
  st_publicIP : option string;
  st_localIPs : list string
}.

Definition getStats (now : Z) (w : World) : Stats :=
  let m := mgr w in {|
  st_totalEmails := totalEmails (mgr_stats m);
  st_totalAddresses := totalAddresses (mgr_stats m);
  st_startTime := startTime (mgr_stats m);
  st_uptime := match startTime (mgr_stats m) with
               | DateObj t => Some (now - t)
               | IsoString _ => None
               end;
  st_activeAddresses := size (emails m);
  st_domains := domains m;
  st_publicIP := publicIP m;
  st_localIPs := localIPs m
|}.

(** ** The retention sweep *)

(** The body of the loop of [cleanupOldEmails] for one entry of the map:
    [acc] is the map and [deletedCount] so far. *)
Definition sweepEntry (expiryTime now : Z) (acc : gmap string mailbox * nat)
    (entry : string * mailbox) : gmap string mailbox * nat :=
  let '(em, deletedCount) := acc in
  let '(addr, data) := entry in
  let initialCount := length (messages data) in
  let data :=
    set_messages
      (filter (fun msg => now - getTime (msg_date msg) < expiryTime) (messages data))
      data in
  let deletedCount := (deletedCount + (initialCount - length (messages data)))%nat in
  let em := <[addr := data]> em in
  if decide (length (messages data) = 0%nat) then
    let addressAge := now - getTime (created data) in
    if decide (addressAge > expiryTime) then (delete addr em, deletedCount)
    else (em, deletedCount)
  else (em, deletedCount).

Definition cleanupOldEmails (cfg : Config) (now now_saved : Z) (w : World) : World :=
  let expiryTime := EMAIL_EXPIRY_HOURS cfg * 60 * 60 * 1000 in
  let '(em, deletedCount) :=
    foldl (sweepEntry expiryTime now) (emails (mgr w), 0%nat)
          (map_to_list (emails (mgr w))) in
  let w := set_mgr (set_emails em (mgr w)) w in
  if decide (0 < deletedCount)%nat then saveToFile cfg now_saved w else w.

(** A run of deposits to one address, each with its own readings of the
    clock and of [Math.random]. *)
Definition receiveAll (cfg : Config) (toAddress : string)
    (ds : list (ReceiveEnv * EmailData)) (w : World) : World :=
  foldl (fun w d => (receiveEmail cfg d.1 toAddress d.2 w).2) w ds.

(** ** Sample inputs *)

Definition sample_world : World := {|
  mgr := new_EmailManager 1700000000000;
  file := NoFile;
  writable := true;
  saveCalls := 0
|}.

Definition sample_env (t : Z) : ReceiveEnv := {|
  at_created := t;
  at_id := t + 1;
  random_id := "0.k3f9x2m1qz7w";
  at_date := t + 2;
  at_saved := t + 3
|}.

Definition sample_data (subject : string) : EmailData := {|
  ed_from := "alice@example.org";
  ed_subject := Some subject;
  ed_text := Some "hello"%string;
  ed_html := None;
  ed_headers := Some (VObj [("subject"%string, VStr subject);
                            ("date"%string, VDate (DateObj 1700000000500))]);
  ed_attachments := None
|}.

(** The configuration with persistence switched on and at most two
    messages per address. *)
Definition small_config : Config :=
  config {| env_SMTP_PORT := None; env_HTTP_PORT := None;
            env_EMAIL_EXPIRY_HOURS := None;
            env_MAX_EMAILS_PER_ADDRESS := Some 2;
            env_SAVE_EMAILS := Some "true"%string |}.

(** ** The sweep, mailbox by mailbox *)

(** The messages the filter of [cleanupOldEmails] keeps. *)
Definition liveMessages (expiryTime now : Z) (data : mailbox) : list message :=
  filter (fun msg => now - getTime (msg_date msg) < expiryTime) (messages data).

(** What the loop body makes of one mailbox: [None] when it deletes the
    key, otherwise the mailbox with the messages it keeps. *)
Definition sweepMailbox (expiryTime now : Z) (data : mailbox) : option mailbox :=
  let kept := liveMessages expiryTime now data in
  if decide (length kept = 0%nat) then
    if decide (now - getTime (created data) > expiryTime) then None
    else Some (set_messages kept data)
  else Some (set_messages kept data).

(** What the loop body adds to [deletedCount] for one mailbox. *)
Definition removedCount (expiryTime now : Z) (data : mailbox) : nat :=
  (length (messages data) - length (liveMessages expiryTime now data))%nat.

(** [config.EMAIL_EXPIRY_HOURS * 60 * 60 * 1000]. *)
Definition expiryTime (cfg : Config) : Z := EMAIL_EXPIRY_HOURS cfg * 60 * 60 * 1000.

(** [deletedCount] at the end of the loop of [cleanupOldEmails]. *)
Definition deletedCount (cfg : Config) (now : Z) (w : World) : nat :=
  (foldl (sweepEntry (expiryTime cfg) now) (emails (mgr w), 0%nat)
         (map_to_list (emails (mgr w)))).2.

(** ** Sample states for the sweep *)

Definition hour : Z := 60 * 60 * 1000.

(** A stored message received at time [t]. *)
Definition sample_message (id : string) (t : Z) : message := {|
  msg_id := id; msg_from := "alice@example.org"; msg_to := "bob@localhost";
  msg_subject := "Hi"; msg_text := "hello"; msg_html := "";
  msg_headers := VObj []; msg_date := IsoString t; msg_read := false;
  msg_attachments := 0
|}.

Definition sample_mailbox (a : string) (t : Z) (msgs : list message) : mailbox := {|
  address := a; created := DateObj t; messages := msgs;
  stats := {| received := Z.of_nat (length msgs); read := 0 |}
|}.

Definition world_of (em : gmap string mailbox) : World := {|
  mgr := set_emails em (new_EmailManager 0);
  file := NoFile;
  writable := true;
  saveCalls := 0
|}.

(** The time of the sample sweeps: 100 hours after the epoch. *)
Definition sweep_now : Z := 100 * hour.

(** One mailbox, an hour old, whose only message was received exactly
    one expiry window (24 hours) before the sweep. *)
Definition boundary_world : World :=
  world_of {[ "bob@localhost"%string :=
              sample_mailbox "bob@localhost" (sweep_now - hour)
                [sample_message "m1" (sweep_now - 24 * hour)] ]}.

(** One mailbox without messages, created 48 hours before the sweep. *)
Definition stale_world : World :=
  world_of {[ "bob@localhost"%string :=
              sample_mailbox "bob@localhost" (sweep_now - 48 * hour) [] ]}.

(** The sweep scenario: a mailbox created 48 hours ago with one message
    of 30 hours ago, and one whose message is an hour old. *)
Definition scenario_world : World :=
  world_of (<[ "old@localhost"%string :=
               sample_mailbox "old@localhost" (sweep_now - 48 * hour)
                 [sample_message "m1" (sweep_now - 30 * hour)] ]>
            {[ "new@localhost"%string :=
               sample_mailbox "new@localhost" (sweep_now - 48 * hour)
                 [sample_message "m2" (sweep_now - hour)] ]}).

(** ** The local-part pattern, as the specification words it *)

(** A character of [[a-z0-9_.-]]. *)
Definition local_part_char (c : ascii) : Prop :=
  (nat_of_ascii "a" ≤ nat_of_ascii c ≤ nat_of_ascii "z")%nat
  ∨ (nat_of_ascii "0" ≤ nat_of_ascii c ≤ nat_of_ascii "9")%nat
  ∨ c = "_"%char ∨ c = "."%char ∨ c = "-"%char.

(** A string of 3 to 20 such characters. *)
Definition local_part_pattern (u : string) : Prop :=
  (3 ≤ String.length u ≤ 20)%nat
  ∧ Forall local_part_char (list_ascii_of_string u).

(** The shape [adjective_noun_number] of a generated username. *)
Definition adjective_noun_number (adj noun : string) (num : nat) : string :=
  adj +:+ "_" +:+ noun +:+ "_" +:+ pretty num.

Definition sample_alloc : AllocEnv := {|
  random_num := 1041; random_adj := 13; random_noun := 27; random_domain := 2;
  now_created := 5; now_history := 6
|}.

(** A manager that has seen a delivery attempt for the domain
    [Mail.Example.COM]: [onRcptTo] adds the domain of every recipient to
    [domains] as it is written. *)
Definition mixed_case_manager : EmailManager := {|
  emails := ∅;
  domains := ["localhost"; "Mail.Example.COM"]%string;
  publicIP := None;
  localIPs := [];
  domainHistory := [];
  mgr_stats := {| totalEmails := 0; totalAddresses := 0; startTime := DateObj 0 |}
|}.

(** A process that starts on the storage another one left: a new manager,
    the same file. *)
Definition restart (now : Z) (w : World) : World :=
  set_mgr (new_EmailManager now) w.

(** The state of the sample world after two deposits, one of them read. *)
Definition busy_world : World :=
  (markAsRead small_config 70 "bob@localhost" (emailId (sample_env 50))
     (receiveAll small_config "bob@localhost"
        [(sample_env 50, sample_data "one"); (sample_env 60, sample_data "two")]
        (set_mgr (new_EmailManager 1) sample_world))).2.

(** The same two deposits under the default configuration. *)
Definition unsaved_world : World :=
  receiveAll default_config "bob@localhost"
    [(sample_env 50, sample_data "one"); (sample_env 60, sample_data "two")]
    sample_world.

(** ** Reading the counters of an address *)

(** The [stats] of the mailbox of an address; an address without mailbox
    has received and read nothing. *)
Definition statsOf (a : string) (w : World) : mailbox_stats :=
  match emails (mgr w) !! a with
  | Some entry => stats entry
  | None => {| received := 0; read := 0 |}
  end.

(** ** The file and the manager *)

(** The storage file holds the snapshot of the manager as it is now. *)
Definition checkpointed (w : World) : Prop :=
  ∃ now, file w = Snapshot (file_data_of now (mgr w)).

(** ** The SMTP and HTTP handlers around the manager *)

(** [s.split (sep)] for a separator of one character. *)
Fixpoint split_on (sep : ascii) (s : string) : list string :=
  match s with
  | EmptyString => [EmptyString]
  | String c s' =>
      if decide (c = sep) then EmptyString :: split_on sep s'
      else match split_on sep s' with
           | part :: parts => String c part :: parts
           | [] => [String c EmptyString]
           end
  end.

(** [onRcptTo]: the domain of the recipient, [address.split('@')[1]], is
    added to [domains] and the recipient is accepted. For an address
    without [@] that element is [undefined]; [domains] here holds strings
    only, and such a call has no image ([None]). The SMTP library hands
    over addresses of the form [local@domain]. *)
Definition onRcptTo (address : string) (m : EmailManager) : option EmailManager :=
  match split_on "@" address !! 1%nat with
  | Some domain =>
      Some {| emails := emails m; domains := Set_add domain (domains m);
              publicIP := publicIP m; localIPs := localIPs m;
              domainHistory := domainHistory m; mgr_stats := mgr_stats m |}
  | None => None
  end.

(** The query of [GET /api/email/generate]. *)
Record GenerateQuery := {
  q_type : option string;
  q_username : option string;
  q_domain : option string
}.

(** The handler of [GET /api/email/generate]: [type] defaults to
    ['public'], and everything but ['public'] is passed on as ['local']. *)
Definition api_generate (cfg : Config) (g : AllocEnv) (q : GenerateQuery)
    (m : EmailManager) : AddressInfo * EmailManager :=
  let type := default "public"%string (q_type q) in
  generateEmailAddress cfg g
    {| opt_username := q_username q;
       opt_domain := q_domain q;
       opt_type := Some (if decide (type = "public"%string)
                         then "public"%string else "local"%string) |} m.

(** The domains a manager can hand out: [localhost] is one of them, and
    so is the public address if there is one. *)
Definition knows_its_domains (m : EmailManager) : Prop :=
  "localhost"%string ∈ domains m
  ∧ ∀ ip, publicIP m = Some ip → ip ≠ ""%string → ip ∈ domains m.

(** ** The server as a transition system *)

(** What can happen to a running server: a recipient is offered and a
    mail delivered over SMTP, the HTTP routes are called, the hourly timer
    fires, the process is started anew, the file system stops or starts to
    take writes. *)
Inductive request :=
  | ReqRcptTo (address : string)
  | ReqDeliver (e : ReceiveEnv) (toAddress : string) (emailData : EmailData)
  | ReqGenerate (g : AllocEnv) (q : GenerateQuery)
  | ReqMarkAsRead (now : Z) (address id : string)
  | ReqDeleteEmail (now : Z) (address id : string)
  | ReqDeleteAll (now : Z) (address : string)
  | ReqSweep (now now_saved : Z)
  | ReqRestart (now : Z) (detectedPublic : option string) (detectedLocal : list string)
  | ReqDisk (ok : bool).

(** The state after a request; [None] where [onRcptTo] has no image. *)
Definition serve (cfg : Config) (r : request) (w : World) : option World :=
  match r with
  | ReqRcptTo address => m ← onRcptTo address (mgr w); Some (set_mgr m w)
  | ReqDeliver e toAddress emailData => Some (receiveEmail cfg e toAddress emailData w).2
  | ReqGenerate g q => Some (set_mgr (api_generate cfg g q (mgr w)).2 w)
  | ReqMarkAsRead now address id => Some (markAsRead cfg now address id w).2
  | ReqDeleteEmail now address id => Some (deleteEmail cfg now address id w).2
  | ReqDeleteAll now address => Some (deleteAllEmails cfg now address w).2
  | ReqSweep now now_saved => Some (cleanupOldEmails cfg now now_saved w)
  | ReqRestart now detectedPublic detectedLocal =>
      Some (initialize cfg detectedPublic detectedLocal (restart now w))
  | ReqDisk ok =>
      Some {| mgr := mgr w; file := file w; writable := ok; saveCalls := saveCalls w |}
  end.

(** A first start: a new manager and no storage file yet. *)
Definition boot (now : Z) (ok : bool) : World :=
  {| mgr := new_EmailManager now; file := NoFile; writable := ok; saveCalls := 0 |}.

(** The states a server under configuration [cfg] can be in. *)
Inductive reachable (cfg : Config) : World → Prop :=
  | reach_boot now ok : reachable cfg (boot now ok)
  | reach_serve w r w' : reachable cfg w → serve cfg r w = Some w' → reachable cfg w'.

(** The state after a list of requests, one after the other (a request
    without image is skipped). *)
Definition serve_all (cfg : Config) (rs : list request) (w : World) : World :=
  foldl (fun w r => default w (serve cfg r w)) w rs.

(** Messages of a list by their read flag. *)
Definition unreadCount (l : list message) : nat :=
  length (filter (fun m => msg_read m = false) l).

Definition readCount (l : list message) : nat :=
  length (filter (fun m => msg_read m = true) l).

(** What holds of every mailbox [mb] kept under key [a]. *)
Definition mailbox_sound (cfg : Config) (a : string) (mb : mailbox) : Prop :=
  address mb = a
  ∧ Forall (fun m => msg_to m = a) (messages mb)
  ∧ (Z.of_nat (readCount (messages mb)) ≤ read (stats mb))
  ∧ (read (stats mb) + Z.of_nat (unreadCount (messages mb)) ≤ received (stats mb))
  ∧ (0 < MAX_EMAILS_PER_ADDRESS cfg →
     (length (messages mb) ≤ Z.to_nat (MAX_EMAILS_PER_ADDRESS cfg))%nat).

(** What holds of the mailboxes and of [this.stats] together. *)
Definition store_sound (cfg : Config) (em : gmap string mailbox) (st : manager_stats) : Prop :=
  (∀ a mb, em !! a = Some mb → mailbox_sound cfg a mb)
  ∧ Z.of_nat (size em) ≤ totalAddresses st.

(** What holds of a server state: of its store, of its domains, and of
    the store that its storage file is a snapshot of. *)
Definition world_sound (cfg : Config) (w : World) : Prop :=
  store_sound cfg (emails (mgr w)) (mgr_stats (mgr w))
  ∧ (knows_its_domains (mgr w) ∧ NoDup (domains (mgr w)))
  ∧ (∀ data, file w = Snapshot data →
       ∃ now m, data = file_data_of now m
                ∧ store_sound cfg (emails m) (mgr_stats m)).

(** A sample run: start, a recipient and three deliveries, a read mark,
    an allocation, a deletion that finds nothing, a sweep and a new start. *)
Definition sample_requests : list request :=
  [ ReqRestart 5 (Some "203.0.113.7"%string) ["192.168.1.20"%string];
    ReqRcptTo "bob@Mail.Example.COM";
    ReqDeliver (sample_env (1 * hour)) "bob@Mail.Example.COM" (sample_data "one");
    ReqDeliver (sample_env (20 * hour)) "bob@Mail.Example.COM" (sample_data "two");
    ReqDeliver (sample_env (25 * hour)) "bob@Mail.Example.COM" (sample_data "three");
    ReqMarkAsRead (26 * hour) "bob@Mail.Example.COM" (emailId (sample_env (25 * hour)));
    ReqGenerate sample_alloc {| q_type := Some "local"%string;
                                q_username := Some "carol"%string;
                                q_domain := None |};
    ReqDeleteEmail (27 * hour) "bob@Mail.Example.COM" "no-such-id";
    ReqSweep (45 * hour) (45 * hour + 1);
    ReqRestart (46 * hour) None [] ].

Definition sample_state : World := serve_all small_config sample_requests (boot 0 true).

(** ** Regular expressions *)

(** The regular expressions of the source, as far as it uses them:
    character classes, single characters, sequences and bounded
    repetition. *)
Inductive regex :=
  | Class (cls : char_class)
  | Chr (c : ascii)
  | Seq (r1 r2 : regex)
  | Rep (lo hi : nat) (r : regex).

(** A backtracking matcher: [matches r s k] tries every way in which a
    prefix of [s] matches [r], and hands the rest of [s] over to [k]. *)
Fixpoint matches (r : regex) : string → (string → bool) → bool :=
  match r with
  | Class cls => fun s k =>
      match s with
      | String c s' => in_class cls c && k s'
      | EmptyString => false
      end
  | Chr c0 => fun s k =>
      match s with
      | String c s' => bool_decide (c = c0) && k s'
      | EmptyString => false
      end
  | Seq r1 r2 => fun s k => matches r1 s (fun s' => matches r2 s' k)
  | Rep lo hi r0 =>
      (fix rep (lo hi : nat) (s : string) (k : string → bool) {struct hi} : bool :=
         match hi with
         | O => bool_decide (lo = 0%nat) && k s
         | S hi' =>
             matches r0 s (fun s' => rep (Nat.pred lo) hi' s' k)
             || (bool_decide (lo = 0%nat) && k s)
         end) lo hi
  end.

(** [/^r$/.test (s)]. *)
Definition regex_test (r : regex) (s : string) : bool :=
  matches r s (fun rest => bool_decide (rest = ""%string)).

(** [\d]. *)
Definition digit : regex := Class [("0", "9")]%char.

(** [/^(\d{1,3}\.){3}\d{1,3}$/]. *)
Definition ipPattern : regex :=
  Seq (Rep 3 3 (Seq (Rep 1 3 digit) (Chr "."))) (Rep 1 3 digit).

(** ** Validating an IP address *)

Definition is_digit (c : ascii) : bool := in_class [("0", "9")]%char c.

(** The value of a run of decimal digits read after [acc]. *)
Fixpoint digits_value (acc : Z) (s : string) : Z :=
  match s with
  | String c s' =>
      if is_digit c then digits_value (10 * acc + (Z.of_nat (nat_of_ascii c) - 48)) s'
      else acc
  | EmptyString => acc
  end.

(** [parseInt (s, 10)] for a string that does not start with white space:
    an optional sign, then the longest run of decimal digits; [NaN]
    ([None]) if no digit comes first. *)
Definition parseInt10 (s : string) : option Z :=
  match s with
  | String "-" (String c s') =>
      if is_digit c then Some (- digits_value 0 (String c s')) else None
  | String "+" (String c s') =>
      if is_digit c then Some (digits_value 0 (String c s')) else None
  | String c _ => if is_digit c then Some (digits_value 0 s) else None
  | EmptyString => None
  end.

(** [s.startsWith (p)]. *)
Definition startsWith (p s : string) : bool := String.prefix p s.

(** The body of the loop of [isValidIP] for one part: [false] where the
    loop returns [false]. *)
Definition octet_ok (part : string) : bool :=
  match parseInt10 part with
  | Some num =>
      if bool_decide (num < 0) || bool_decide (num > 255) then false
      else if bool_decide (1 < String.length part)%nat && startsWith "0" part then false
      else true
  | None => false
  end.

(** The reserved-address checks at the end of [isValidIP]: [true] where
    one of them returns [false]. *)
Definition reserved_text (ip : string) : bool :=
  bool_decide (ip = "127.0.0.1"%string)
  || bool_decide (ip = "0.0.0.0"%string)
  || startsWith "169.254." ip
  || startsWith "192.168." ip
  || startsWith "10." ip
  || existsb (fun p => startsWith p ip)
       ["172.16."; "172.17."; "172.18."; "172.19."; "172.20."; "172.21.";
        "172.22."; "172.23."; "172.24."; "172.25."; "172.26."; "172.27.";
        "172.28."; "172.29."; "172.30."; "172.31."]%string.

(** [EmailManager.isValidIP]. The argument is [None] when it is not a
    string; [trim] is [String.prototype.trim] of the platform. *)
Definition isValidIP (trim : string → string) (ip : option string) : bool :=
  match ip with
  | None => false
  | Some ip =>
      if decide (ip = ""%string) then false
      else
        let ip := trim ip in
        if negb (regex_test ipPattern ip) then false
        else
          let parts := split_on "." ip in
          if negb (bool_decide (length parts = 4%nat)) then false
          else if negb (forallb octet_ok parts) then false
          else negb (reserved_text ip)
  end.

(** [isValidIP] of the script that writes [MANUAL_PUBLIC_IP]: the pattern
    and the range of the parts, nothing else. *)
Definition isValidIP_script (ip : option string) : bool :=
  match ip with
  | None => false
  | Some ip =>
      if decide (ip = ""%string) then false
      else if negb (regex_test ipPattern ip) then false
      else forallb (fun part =>
                      match parseInt10 part with
                      | Some num => negb (bool_decide (num < 0) || bool_decide (num > 255))
                      | None => true
                      end) (split_on "." ip)
  end.

(** *** Addresses in numbers *)

(** The text of the address [a.b.c.d]. *)
Definition dotted (a b c d : nat) : string :=
  pretty a +:+ "." +:+ pretty b +:+ "." +:+ pretty c +:+ "." +:+ pretty d.

(** The addresses that [isValidIP] turns down although they are well
    formed: the loopback address 127.0.0.1, 0.0.0.0, the link-local range
    169.254/16 and the private ranges 192.168/16, 10/8 and 172.16/12. *)
Definition reserved_quad (a b c d : nat) : Prop :=
  (a = 127 ∧ b = 0 ∧ c = 0 ∧ d = 1)%nat
  ∨ (a = 0 ∧ b = 0 ∧ c = 0 ∧ d = 0)%nat
  ∨ (a = 169 ∧ b = 254)%nat
  ∨ (a = 192 ∧ b = 168)%nat
  ∨ a = 10%nat
  ∨ (a = 172 ∧ 16 ≤ b ≤ 31)%nat.

(** Trimming of ASCII blanks at both ends, for the sample inputs. *)
Fixpoint trimStart_ascii (s : string) : string :=
  match s with
  | String c s' =>
      if decide (nat_of_ascii c = 32 ∨ 9 ≤ nat_of_ascii c ≤ 13)%nat
      then trimStart_ascii s' else s
  | EmptyString => EmptyString
  end.

Definition trim_ascii (s : string) : string :=
  String.rev (trimStart_ascii (String.rev (trimStart_ascii s))).

(** A part of a dotted address as the pattern admits it: one to three
    decimal digits. *)
Definition octet_text (p : string) : Prop :=
  (1 ≤ String.length p ≤ 3)%nat
  ∧ Forall (fun c => is_digit c = true) (list_ascii_of_string p).

(** The decimal digits, and the texts of [n] of them. *)
Definition digit_chars : list ascii :=
  ["0"; "1"; "2"; "3"; "4"; "5"; "6"; "7"; "8"; "9"]%char.

Fixpoint digit_strings (n : nat) : list string :=
  match n with
  | O => [EmptyString]
  | S n' => c ← digit_chars; s ← digit_strings n'; [String c s]
  end.

(** Every text that the pattern admits as a part. *)
Definition octet_texts : list string :=
  digit_strings 1 ++ digit_strings 2 ++ digit_strings 3.

(** The number that a part stands for. *)
Definition octet_value (p : string) : nat := Z.to_nat (digits_value 0 p).

(** ** Delivery to the recipients of an envelope *)

(** What [io.emit ('new-email', ...)] sends. *)
Record NewEmailEvent := {
  ev_recipient : string;
  ev_email : message;
  ev_total : nat
}.

(** The [end] handler of [onData]: one [receiveEmail] for each recipient
    of the envelope, in order, with the same [emailData], each followed by
    its event. Every recipient comes with what its call reads from the
    clock and from [Math.random]. *)
Definition onData_end (cfg : Config) (emailData : EmailData)
    (recipients : list (ReceiveEnv * string)) (w : World)
    : list NewEmailEvent * World :=
  foldl (fun acc r =>
           let result := receiveEmail cfg r.1 r.2 emailData acc.2 in
           (acc.1 ++ [{| ev_recipient := r.2;
                         ev_email := r_email result.1;
                         ev_total := r_totalMessages result.1 |}],
            result.2))
        ([], w) recipients.

(** An envelope with a recipient named twice. *)
Definition sample_recipients : list (ReceiveEnv * string) :=
  [(sample_env 10, "ann@localhost"); (sample_env 20, "bob@localhost");
   (sample_env 30, "ann@localhost")]%string.

(** ** Detecting the addresses of the host *)

(** What the outside world answers to [getPublicIP]: the variable
    [MANUAL_PUBLIC_IP], the answer of the package [public-ip], what each web
    service sends and what each command prints. [None] is a variable that is
    not set, a request that fails or times out, a command that throws. *)
Record PublicAnswers := {
  manual : option string;
  package : option string;
  services : list (option string);
  commands : list (option string)
}.

(** The first answer that passes [isValidIP] once trimmed, as the loops
    over the services and over the commands return it. *)
Fixpoint firstValid (trim : string → string) (answers : list (option string))
    : option string :=
  match answers with
  | [] => None
  | Some data :: rest =>
      let ip := trim data in
      if isValidIP trim (Some ip) then Some ip else firstValid trim rest
  | None :: rest => firstValid trim rest
  end.

(** Method 1 of [getPublicIP]: the variable [MANUAL_PUBLIC_IP]. *)
Definition manualIP (trim : string → string) (o : PublicAnswers) : option string :=
  match manual o with
  | Some m =>
      if decide (m = ""%string) then None
      else let manualIP := trim m in
           if isValidIP trim (Some manualIP) then Some manualIP else None
  | None => None
  end.

(** Method 2: the package [public-ip]. *)
Definition packageIP (trim : string → string) (o : PublicAnswers) : option string :=
  match package o with
  | Some ip => if isValidIP trim (Some ip) then Some ip else None
  | None => None
  end.

(** [getPublicIP]: the four methods in turn, each one only if those before
    it have not returned; [None] is [null]. *)
Definition getPublicIP (trim : string → string) (o : PublicAnswers) : option string :=
  match manualIP trim o with
  | Some ip => Some ip
  | None =>
      match packageIP trim o with
      | Some ip => Some ip
      | None =>
          match firstValid trim (services o) with
          | Some ip => Some ip
          | None => firstValid trim (commands o)
          end
      end
  end.



(** Sample answers. *)
Definition sample_answers : PublicAnswers := {|
  manual := Some " 192.168.1.20 "%string;
  package := None;
  services := [None; Some "<html>busy</html>"; Some "203.0.113.7 "]%string;
  commands := [Some "198.51.100.4"%string]
|}.


(** ** A limit below zero *)

(** The configuration of an environment with
    [MAX_EMAILS_PER_ADDRESS=-1]. *)
Definition negative_config : Config :=
  config {| env_SMTP_PORT := None; env_HTTP_PORT := None;
            env_EMAIL_EXPIRY_HOURS := None;
            env_MAX_EMAILS_PER_ADDRESS := Some (-1);
            env_SAVE_EMAILS := None |}.


(** ** Within one process, and from one start to the next *)

(** Requests that the running process serves: everything but a new
    start. *)
Definition keeps_process (r : request) : Prop :=
  match r with
  | ReqRestart _ _ _ => False
  | _ => True
  end.

(** No mailbox of the map holds more than [L] messages. *)
Definition capped (L : Z) (em : gmap string mailbox) : Prop :=
  ∀ a mb, em !! a = Some mb → (length (messages mb) ≤ Z.to_nat L)%nat.

(** The same of a server state and of the store its file is a snapshot
    of. *)
Definition world_capped (L : Z) (w : World) : Prop :=
  capped L (emails (mgr w))
  ∧ ∀ data, file w = Snapshot data →
      ∃ now m, data = file_data_of now m ∧ capped L (emails m).

(** The states a server can be in when the configuration is not the same
    throughout: the process reads the environment when it starts, so each
    start may bring another configuration. Here every request is served
    under a configuration of its own, whose limit on the messages of an
    address is positive and at most [L]; this covers every history in which
    the configuration changes from one start to the next. *)
Inductive reachable_within (L : Z) : World → Prop :=
  | within_boot now ok : reachable_within L (boot now ok)
  | within_serve cfg w r w' :
      reachable_within L w →
      0 < MAX_EMAILS_PER_ADDRESS cfg ≤ L →
      serve cfg r w = Some w' →
      reachable_within L w'.

(** The configuration of an environment with [SAVE_EMAILS=true] and no
    limit of its own: the limit is 100. *)
Definition roomy_config : Config :=
  config {| env_SMTP_PORT := None; env_HTTP_PORT := None;
            env_EMAIL_EXPIRY_HOURS := None;
            env_MAX_EMAILS_PER_ADDRESS := None;
            env_SAVE_EMAILS := Some "true"%string |}.

(** Three deliveries to one address under the limit of 100, then a new
    start under the limit of 2. *)
Definition relimited_world : World :=
  serve_all small_config [ReqRestart 40 None []]
    (serve_all roomy_config
       [ReqDeliver (sample_env 10) "bob@localhost" (sample_data "one");
        ReqDeliver (sample_env 20) "bob@localhost" (sample_data "two");
        ReqDeliver (sample_env 30) "bob@localhost" (sample_data "three")]
       (boot 0 true)).


(** * Properties *)

(** ** Persistence leaves the manager alone *)

Lemma mgr_saveToFile cfg now w : mgr (saveToFile cfg now w) = mgr w.
Proof. unfold saveToFile. by repeat case_match. Qed.

Lemma saveCalls_saveToFile cfg now w :
  saveCalls (saveToFile cfg now w) = S (saveCalls w).
Proof. unfold saveToFile. by repeat case_match. Qed.

Lemma writable_saveToFile cfg now w :
  writable (saveToFile cfg now w) = writable w.
Proof. unfold saveToFile. by repeat case_match. Qed.

Lemma file_saveToFile_enabled cfg now w :
  SAVE_EMAILS cfg = true → writable w = true →
  file (saveToFile cfg now w) = Snapshot (file_data_of now (mgr w)).
Proof. unfold saveToFile. intros -> ->. done. Qed.

Lemma file_saveToFile_disabled cfg now w :
  SAVE_EMAILS cfg = false → file (saveToFile cfg now w) = file w.
Proof. unfold saveToFile. intros ->. done. Qed.

(** ** Deposit *)

Lemma slice0_nonneg {A} (l : list A) (n : Z) :
  0 ≤ n → slice0 l n = take (Z.to_nat n) l.
Proof. intros Hn. unfold slice0. case_decide; [lia | done]. Qed.

Lemma take_cons_take {A} (n : nat) (x : A) (l : list A) :
  (0 < n)%nat → take n (x :: take n l) = take n (x :: l).
Proof.
  destruct n as [|n]; [lia|]. intros _. cbn [take]. f_equal.
  rewrite take_take. f_equal. lia.
Qed.

Lemma getEmailsForAddress_ensureMailbox now a m w :
  messages (ensureMailbox now a m).1 = getEmailsForAddress a (set_mgr m w).
Proof.
  unfold ensureMailbox, getEmailsForAddress. cbn.
  by destruct (emails m !! a).
Qed.

Lemma totalMessages_receiveEmail cfg e a d w :
  r_totalMessages (receiveEmail cfg e a d w).1
  = length (getEmailsForAddress a (receiveEmail cfg e a d w).2).
Proof.
  unfold receiveEmail.
  destruct (ensureMailbox (at_created e) a (mgr w)) as [emailEntry m].
  cbn [fst snd r_totalMessages].
  unfold getEmailsForAddress. rewrite mgr_saveToFile. cbn.
  by rewrite lookup_insert_eq.
Qed.

Lemma result_receiveEmail cfg e a d w :
  r_id (receiveEmail cfg e a d w).1 = emailId e
  ∧ r_address (receiveEmail cfg e a d w).1 = a
  ∧ r_email (receiveEmail cfg e a d w).1 = savedEmail e a d.
Proof.
  unfold receiveEmail.
  by destruct (ensureMailbox (at_created e) a (mgr w)).
Qed.

Lemma receiveAll_snoc cfg a ds d w :
  receiveAll cfg a (ds ++ [d]) w
  = (receiveEmail cfg d.1 a d.2 (receiveAll cfg a ds w)).2.
Proof. unfold receiveAll. by rewrite foldl_snoc. Qed.

(** The limit on messages per address is meant as a count. [config]
    admits every integer but zero, and [slice] reads a negative one from
    the end of the array; what follows is about a positive limit. *)
Section PositiveLimit.

Context (cfg : Config).
Hypothesis Hcap : 0 < MAX_EMAILS_PER_ADDRESS cfg.

Local Abbreviation cap := (Z.to_nat (MAX_EMAILS_PER_ADDRESS cfg)).

(** The messages after [unshift] and the cut are the first [cap] of the
    new array. *)
Lemma messages_deposit msg emailEntry :
  messages (deposit cfg msg emailEntry) = take cap (msg :: messages emailEntry).
Proof.
  unfold deposit. cbn [messages].
  case_decide as Hlen.
  - apply slice0_nonneg. lia.
  - symmetry. apply take_ge. lia.
Qed.

(** One deposit, seen through [getEmailsForAddress]. *)
Lemma getEmailsForAddress_receiveEmail e a d w :
  getEmailsForAddress a (receiveEmail cfg e a d w).2
  = take cap (savedEmail e a d :: getEmailsForAddress a w).
Proof.
  unfold receiveEmail.
  pose proof (getEmailsForAddress_ensureMailbox (at_created e) a (mgr w) w) as Hen.
  destruct (ensureMailbox (at_created e) a (mgr w)) as [emailEntry m].
  cbn [fst snd] in *.
  unfold getEmailsForAddress at 1. rewrite mgr_saveToFile. cbn.
  rewrite lookup_insert_eq, messages_deposit.
  rewrite Hen. unfold getEmailsForAddress. by destruct w.
Qed.

(** C1. After [receiveEmail] for address [a] and message data [d],
    [getEmailsForAddress a] is a non-empty array whose first element is the
    stored form of [d]: it carries the generated id (the clock reading
    followed by nine characters of the random draw), [read = false], the
    recipient [a] as [to], the sender of [d] as [from], the subject, text,
    html, headers and attachment count of [d] or, where [d] has none,
    ['No Subject'], the empty string, the empty object and zero, and the
    time of the deposit as [date]; after it come the former messages, as
    many as the limit leaves room for. The call returns that id, the stored
    message, and as [totalMessages] the length of the mailbox's array after
    the deposit. The limit on messages per address is a positive number. *)
Theorem C1_deposit_is_first_listed e a d w :
  ∃ first rest,
    getEmailsForAddress a (receiveEmail cfg e a d w).2 = first :: rest
    ∧ first = savedEmail e a d
    ∧ msg_id first = emailId e
    ∧ msg_read first = false
    ∧ msg_to first = a
    ∧ r_id (receiveEmail cfg e a d w).1 = msg_id first
    ∧ r_email (receiveEmail cfg e a d w).1 = first
    ∧ r_totalMessages (receiveEmail cfg e a d w).1 = length (first :: rest)
    ∧ msg_id first = pretty (at_id e) +:+ substring 2 9 (random_id e)
    ∧ msg_from first = ed_from d
    ∧ msg_subject first = match ed_subject d with
                          | Some s => if decide (s = ""%string)
                                      then "No Subject"%string else s
                          | None => "No Subject"%string
                          end
    ∧ msg_text first = default ""%string (ed_text d)
    ∧ msg_html first = default ""%string (ed_html d)
    ∧ msg_headers first = match ed_headers d with
                          | Some h => if truthy_val h then h else VObj []
                          | None => VObj []
                          end
    ∧ msg_attachments first = default 0 (ed_attachments d)
    ∧ msg_date first = IsoString (at_date e)
    ∧ rest = take (cap - 1) (getEmailsForAddress a w).
Proof.
  pose proof (getEmailsForAddress_receiveEmail e a d w) as Hlist.
  pose proof (totalMessages_receiveEmail cfg e a d w) as Htotal.
  destruct (result_receiveEmail cfg e a d w) as (Hid & _ & Hemail).
  destruct cap as [|n] eqn:Hn; [lia|].
  cbn [take] in Hlist.
  exists (savedEmail e a d), (take n (getEmailsForAddress a w)).
  rewrite Htotal, Hlist, Hid, Hemail.
  replace (S n - 1)%nat with n by lia.
  cbn [savedEmail msg_id msg_read msg_to msg_from msg_subject msg_text msg_html
       msg_headers msg_attachments msg_date].
  split_and!; try done.
  - unfold or_string. by destruct (ed_text d) as [t|]; [case_decide; subst|].
  - unfold or_string. by destruct (ed_html d) as [t|]; [case_decide; subst|].
  - unfold or_number. by destruct (ed_attachments d) as [n'|]; [case_decide; subst|].
Qed.



End PositiveLimit.

(** C1 at a sample deposit into the empty store, default configuration. *)
Lemma C1_deposit_is_first_listed_witness :
  ∃ first rest,
    getEmailsForAddress "bob@localhost"
      (receiveEmail default_config (sample_env 1700000001000) "bob@localhost"
         (sample_data "Hi") sample_world).2 = first :: rest
    ∧ msg_id first = "1700000001001k3f9x2m1q"%string
    ∧ msg_read first = false
    ∧ msg_to first = "bob@localhost"%string
    ∧ msg_from first = "alice@example.org"%string
    ∧ msg_subject first = "Hi"%string
    ∧ msg_text first = "hello"%string
    ∧ msg_html first = ""%string
    ∧ msg_attachments first = 0
    ∧ rest = [].
Proof.
  destruct (C1_deposit_is_first_listed default_config eq_refl
              (sample_env 1700000001000) "bob@localhost" (sample_data "Hi") sample_world)
    as (first & rest & Hlist & _ & _ & Hread & Hto & _ & _ & _ & Hid & Hfrom & Hsubject
        & Htext & Hhtml & _ & Hatt & _ & Hrest).
  exists first, rest. split_and!; done.
Defined.


(** C1, the claim as stated fails. [config] takes any integer but zero
    from the environment. Under a limit of -1 the deposit into a store
    without mailbox for the recipient is cut away at once by
    [slice (0, -1)]: nothing is listed for the address, although the call
    returns the id of the message, counts it as received, and reports zero
    messages. *)
Lemma C1_negative_limit_loses_the_deposit :
  let r := receiveEmail negative_config (sample_env 50) "bob@localhost"
             (sample_data "Hi") sample_world in
  MAX_EMAILS_PER_ADDRESS negative_config = -1
  ∧ getEmailsForAddress "bob@localhost" r.2 = []
  ∧ r_id r.1 = emailId (sample_env 50)
  ∧ r_totalMessages r.1 = 0%nat
  ∧ received (statsOf "bob@localhost" r.2) = 1
  ∧ totalEmails (mgr_stats (mgr r.2)) = 1.
Proof. vm_compute. split_and!; reflexivity. Qed.


Example emailId_sample :
  emailId (sample_env 1700000001000) = "1700000001001k3f9x2m1q"%string.
Proof. vm_compute. reflexivity. Qed.

Example receiveEmail_sample :
  map msg_subject
    (getEmailsForAddress "bob@localhost"
       (receiveAll small_config "bob@localhost"
          [(sample_env 10, sample_data "one"); (sample_env 20, sample_data "two");
           (sample_env 30, sample_data "three")] sample_world))
  = ["three"; "two"]%string.
Proof. vm_compute. reflexivity. Qed.

(** ** Read marks *)

Lemma list_find_replace_found {A} (P : A → Prop) `{!∀ x, Decision (P x)}
    (l : list A) (i : nat) (x y : A) :
  list_find P l = Some (i, x) → P y →
  list_find P (<[i := y]> l) = Some (i, y).
Proof.
  intros (Hi & _ & Hleast)%list_find_Some Hy.
  apply list_find_insert_Some. right. left.
  split_and!; [done | done | by eapply lookup_lt_Some | done | done].
Qed.

(** The three tests of [markAsRead], in the order of the source: the
    mailbox, the message found by its id, its read flag. The cases in which
    a test fails are closed when they are trivial. *)
Ltac markAsRead_cases w a entry i msg :=
  unfold markAsRead;
  destruct (emails (mgr w) !! a) as [entry|] eqn:?; [|try done];
  destruct (list_find _ (messages entry)) as [[i msg]|] eqn:?; [|try done];
  destruct (msg_read msg) eqn:?; cbn [negb fst snd].

(** A call that returns [false] has changed nothing. *)
Lemma markAsRead_false cfg now a id w :
  (markAsRead cfg now a id w).1 = false → (markAsRead cfg now a id w).2 = w.
Proof. markAsRead_cases w a entry i msg; done. Qed.

(** A second call with the same id finds the message read. *)
Lemma markAsRead_again cfg now now' a id w :
  markAsRead cfg now' a id (markAsRead cfg now a id w).2
  = (false, (markAsRead cfg now a id w).2).
Proof.
  destruct (markAsRead cfg now a id w).1 eqn:Hfirst.
  - revert Hfirst. unfold markAsRead at 1 3 4.
    destruct (emails (mgr w) !! a) as [entry|]; [|done].
    destruct (list_find _ (messages entry)) as [[i msg]|] eqn:Hfind; [|done].
    destruct (msg_read msg) eqn:Hread; [done|]. intros _. cbn [negb snd].
    pose proof Hfind as (_ & Hid & _)%list_find_Some.
    unfold markAsRead. rewrite mgr_saveToFile. cbn.
    rewrite lookup_insert_eq. cbn.
    rewrite (list_find_replace_found _ _ i msg (set_read true msg) Hfind) by done.
    done.
  - rewrite (markAsRead_false _ _ _ _ _ Hfirst).
    pose proof (markAsRead_false cfg now' a id w) as Hsame.
    revert Hfirst Hsame. unfold markAsRead.
    destruct (emails (mgr w) !! a) as [entry|]; [|done].
    destruct (list_find _ (messages entry)) as [[i msg]|]; [|done].
    by destruct (msg_read msg).
Qed.

(** C3. [markAsRead] returns [true] exactly when the mailbox exists, [find]
    reaches a message with the given id, and that message is unread. Then
    the message, at its place in the array, has [read = true], the mailbox's
    [stats.read] is one more than before and nothing else of the mailbox or
    of the other mailboxes has changed. Whatever the first call returned, a
    second call with the same id returns [false] and leaves the manager, so
    also [stats.read], as the first call left it. *)
Theorem C3_markAsRead_once cfg now now' a id w :
  let r := markAsRead cfg now a id w in
  let found entry i msg :=
    emails (mgr w) !! a = Some entry
    ∧ list_find (fun m => msg_id m = id) (messages entry) = Some (i, msg) in
  (r.1 = true ↔ ∃ entry i msg, found entry i msg ∧ msg_read msg = false)
  ∧ (∀ entry i msg, found entry i msg → msg_read msg = false →
       ∃ entry',
         emails (mgr r.2) !! a = Some entry'
         ∧ messages entry' = <[i := set_read true msg]> (messages entry)
         ∧ read (stats entry') = read (stats entry) + 1
         ∧ received (stats entry') = received (stats entry)
         ∧ created entry' = created entry
         ∧ address entry' = address entry
         ∧ (∀ a', a' ≠ a → emails (mgr r.2) !! a' = emails (mgr w) !! a')
         ∧ mgr_stats (mgr r.2) = mgr_stats (mgr w))
  ∧ (r.1 = false → r.2 = w)
  ∧ (markAsRead cfg now' a id r.2).1 = false
  ∧ mgr (markAsRead cfg now' a id r.2).2 = mgr r.2.
Proof.
  intros r found. subst r found. split_and!.
  - split.
    + markAsRead_cases w a entry i msg; [done|]. intros _.
      by exists entry, i, msg.
    + unfold markAsRead. intros (entry & i & msg & [-> ->] & ->). done.
  - intros entry i msg [Hentry Hfind] Hread.
    unfold markAsRead. rewrite Hentry, Hfind, Hread. cbn [negb snd].
    rewrite mgr_saveToFile. cbn.
    eexists. rewrite lookup_insert_eq. split; [done|]. cbn.
    split_and!; try done.
    intros a' Hne. by rewrite lookup_insert_ne.
  - apply markAsRead_false.
  - by rewrite markAsRead_again.
  - by rewrite markAsRead_again.
Qed.

Example markAsRead_sample :
  let w := (receiveEmail default_config (sample_env 50) "bob@localhost"
              (sample_data "Hi") sample_world).2 in
  let id := emailId (sample_env 50) in
  (markAsRead default_config 60 "bob@localhost" id w).1 = true
  ∧ map msg_read (getEmailsForAddress "bob@localhost"
                    (markAsRead default_config 60 "bob@localhost" id w).2) = [true]
  ∧ (markAsRead default_config 70 "bob@localhost" id
       (markAsRead default_config 60 "bob@localhost" id w).2).1 = false
  ∧ (markAsRead default_config 60 "bob@localhost" "nope" w).1 = false
  ∧ (markAsRead default_config 60 "carol@localhost" id w).1 = false.
Proof. vm_compute. done. Qed.

(** ** Deleting all messages of an address *)

Lemma deleteAllEmails_known cfg now a entry w :
  emails (mgr w) !! a = Some entry →
  (deleteAllEmails cfg now a w).1 = true
  ∧ emails (mgr (deleteAllEmails cfg now a w).2)
    = <[a := set_messages [] entry]> (emails (mgr w))
  ∧ mgr_stats (mgr (deleteAllEmails cfg now a w).2) = mgr_stats (mgr w).
Proof.
  intros Hentry. unfold deleteAllEmails. rewrite Hentry. cbn [fst snd].
  by rewrite mgr_saveToFile.
Qed.

Lemma deleteAllEmails_unknown cfg now a w :
  emails (mgr w) !! a = None → deleteAllEmails cfg now a w = (false, w).
Proof. intros Hnone. unfold deleteAllEmails. by rewrite Hnone. Qed.

(** C7. [deleteAllEmails] returns [true] exactly when the map has the
    address, also when its mailbox holds no message; and after a call that
    returned [true] the mailbox of the address is there with an empty
    array, so that [getEmailsForAddress] returns the empty array. *)
Theorem C7_deleteAll_true_iff_known cfg now a w :
  let r := deleteAllEmails cfg now a w in
  (r.1 = true ↔ is_Some (emails (mgr w) !! a))
  ∧ (∀ entry, emails (mgr w) !! a = Some entry → messages entry = [] → r.1 = true)
  ∧ (r.1 = true →
       (∃ entry', emails (mgr r.2) !! a = Some entry' ∧ messages entry' = [])
       ∧ getEmailsForAddress a r.2 = []).
Proof.
  intros r. subst r.
  destruct (emails (mgr w) !! a) as [entry|] eqn:Hentry.
  - destruct (deleteAllEmails_known cfg now a entry w Hentry) as (Htrue & Hmap & _).
    split_and!.
    + split; [by eauto | done].
    + done.
    + intros _. unfold getEmailsForAddress. rewrite Hmap, lookup_insert_eq.
      split; [by eexists|done].
  - rewrite (deleteAllEmails_unknown cfg now a w Hentry). cbn [fst snd].
    split_and!.
    + split; [done | by intros [? ?]].
    + done.
    + done.
Qed.

(** C10. On an address the map has, [deleteAllEmails] replaces the
    mailbox by the same record with an empty array and touches nothing
    else: the address, its [created] and its [stats] (received and read)
    are as before, every other mailbox and [this.stats] are as before, and
    the map has as many keys as before, which is what [getStats] reports as
    [activeAddresses]. Right after it, [getEmailsForAddress] returns the
    empty array and a further [deleteAllEmails] returns [true] again. *)
Theorem C10_deleteAll_keeps_mailbox cfg now now' t a entry w :
  emails (mgr w) !! a = Some entry →
  let w' := (deleteAllEmails cfg now a w).2 in
  emails (mgr w') !! a
  = Some {| address := address entry; created := created entry;
            messages := []; stats := stats entry |}
  ∧ (∀ a', a' ≠ a → emails (mgr w') !! a' = emails (mgr w) !! a')
  ∧ dom (emails (mgr w')) = dom (emails (mgr w))
  ∧ st_activeAddresses (getStats t w') = st_activeAddresses (getStats t w)
  ∧ mgr_stats (mgr w') = mgr_stats (mgr w)
  ∧ getEmailsForAddress a w' = []
  ∧ (deleteAllEmails cfg now' a w').1 = true.
Proof.
  intros Hentry w'. subst w'.
  destruct (deleteAllEmails_known cfg now a entry w Hentry) as (_ & Hmap & Hstats).
  assert (Hlookup : emails (mgr (deleteAllEmails cfg now a w).2) !! a
                    = Some (set_messages [] entry)).
  { by rewrite Hmap, lookup_insert_eq. }
  split_and!.
  - done.
  - intros a' Hne. by rewrite Hmap, lookup_insert_ne.
  - rewrite Hmap. apply dom_insert_lookup_L. eauto.
  - unfold getStats. cbn [st_activeAddresses]. rewrite Hmap.
    by erewrite map_size_insert_Some.
  - done.
  - unfold getEmailsForAddress. by rewrite Hlookup.
  - by destruct (deleteAllEmails_known cfg now' a _ _ Hlookup) as (-> & _).
Qed.

(** C10 at a mailbox that holds one message. *)
Lemma C10_deleteAll_keeps_mailbox_witness :
  let w := (receiveEmail default_config (sample_env 50) "bob@localhost"
              (sample_data "Hi") sample_world).2 in
  let entry := deposit default_config
                 (savedEmail (sample_env 50) "bob@localhost" (sample_data "Hi"))
                 (new_mailbox "bob@localhost" 50) in
  let w' := (deleteAllEmails default_config 60 "bob@localhost" w).2 in
  emails (mgr w') !! "bob@localhost"%string
  = Some {| address := address entry; created := created entry;
            messages := []; stats := stats entry |}
  ∧ (∀ a', a' ≠ "bob@localhost"%string →
       emails (mgr w') !! a' = emails (mgr w) !! a')
  ∧ dom (emails (mgr w')) = dom (emails (mgr w))
  ∧ st_activeAddresses (getStats 80 w') = st_activeAddresses (getStats 80 w)
  ∧ mgr_stats (mgr w') = mgr_stats (mgr w)
  ∧ getEmailsForAddress "bob@localhost" w' = []
  ∧ (deleteAllEmails default_config 70 "bob@localhost" w').1 = true.
Proof.
  intros w entry.
  apply (C10_deleteAll_keeps_mailbox default_config 60 70 80 "bob@localhost" entry w).
  vm_compute. reflexivity.
Defined.

Example deleteAllEmails_sample :
  (deleteAllEmails default_config 60 "bob@localhost" sample_world).1 = false
  ∧ let w := (generateEmailAddress default_config
                {| random_num := 7; random_adj := 3; random_noun := 12;
                   random_domain := 0; now_created := 5; now_history := 6 |}
                {| opt_username := Some "bob"%string; opt_domain := None;
                   opt_type := Some "local"%string |} (mgr sample_world)).2 in
    (deleteAllEmails default_config 60 "bob@localhost" (set_mgr w sample_world)).1
    = true.
Proof. vm_compute. done. Qed.

(** ** The retention sweep *)

Lemma sweepEntry_eq ex now em n k data :
  sweepEntry ex now (em, n) (k, data)
  = (match sweepMailbox ex now data with
     | Some data' => <[k := data']> em
     | None => delete k em
     end, (n + removedCount ex now data)%nat).
Proof.
  unfold sweepEntry, sweepMailbox, removedCount, liveMessages. cbn [messages set_messages created].
  repeat case_decide; try done.
  by rewrite delete_insert_eq.
Qed.

(** The loop over the entries of a map without repeated keys. *)
Lemma foldl_sweepEntry ex now (l : list (string * mailbox)) em n :
  NoDup l.*1 →
  let res := foldl (sweepEntry ex now) (em, n) l in
  (∀ k, res.1 !! k
        = match (list_to_map l : gmap string mailbox) !! k with
          | Some data => sweepMailbox ex now data
          | None => em !! k
          end)
  ∧ res.2 = (n + sum_list_with (fun kv => removedCount ex now kv.2) l)%nat.
Proof.
  revert em n. induction l as [|[k data] l IH]; intros em n Hnodup res.
  - subst res. cbn. split; [done | lia].
  - apply NoDup_cons in Hnodup as [Hk Hnodup]. subst res.
    cbn [foldl]. rewrite sweepEntry_eq.
    destruct (IH (match sweepMailbox ex now data with
                  | Some data' => <[k := data']> em
                  | None => delete k em
                  end) (n + removedCount ex now data)%nat Hnodup) as [Hmap Hcount].
    split.
    + intros k'. rewrite Hmap.
      change (list_to_map ((k, data) :: l) : gmap string mailbox)
        with (<[k := data]> (list_to_map l : gmap string mailbox)).
      destruct (decide (k = k')) as [<-|Hne].
      * rewrite (lookup_insert_eq (list_to_map l)).
        rewrite (not_elem_of_list_to_map_1 _ k) by done.
        destruct (sweepMailbox ex now data).
        -- by rewrite lookup_insert_eq.
        -- by rewrite lookup_delete_eq.
      * rewrite (lookup_insert_ne (list_to_map l)) by done.
        destruct (list_to_map l !! k'); [done|].
        destruct (sweepMailbox ex now data).
        -- by rewrite lookup_insert_ne.
        -- by rewrite lookup_delete_ne.
    + rewrite Hcount. cbn. lia.
Qed.

Lemma mgr_cleanupOldEmails cfg now now_saved w :
  mgr (cleanupOldEmails cfg now now_saved w)
  = set_emails (foldl (sweepEntry (expiryTime cfg) now) (emails (mgr w), 0%nat)
                      (map_to_list (emails (mgr w)))).1 (mgr w).
Proof.
  unfold cleanupOldEmails, expiryTime.
  destruct (foldl _ _ _) as [em n]. cbn [fst].
  case_decide; [by rewrite mgr_saveToFile | done].
Qed.

(** The sweep acts on every mailbox on its own. *)
Lemma lookup_cleanupOldEmails cfg now now_saved w a :
  emails (mgr (cleanupOldEmails cfg now now_saved w)) !! a
  = emails (mgr w) !! a ≫= sweepMailbox (expiryTime cfg) now.
Proof.
  rewrite mgr_cleanupOldEmails. cbn [emails set_emails].
  destruct (foldl_sweepEntry (expiryTime cfg) now (map_to_list (emails (mgr w)))
              (emails (mgr w)) 0%nat) as [Hmap _].
  { apply NoDup_fst_map_to_list. }
  rewrite Hmap, list_to_map_to_list.
  by destruct (emails (mgr w) !! a).
Qed.

Lemma deletedCount_sum cfg now w :
  deletedCount cfg now w
  = sum_list_with (fun kv => removedCount (expiryTime cfg) now kv.2)
                  (map_to_list (emails (mgr w))).
Proof.
  unfold deletedCount.
  destruct (foldl_sweepEntry (expiryTime cfg) now (map_to_list (emails (mgr w)))
              (emails (mgr w)) 0%nat) as [_ Hcount].
  { apply NoDup_fst_map_to_list. }
  by rewrite Hcount.
Qed.

(** The sweep calls [saveToFile] exactly when [deletedCount] is positive. *)
Lemma cleanupOldEmails_save cfg now now_saved w :
  cleanupOldEmails cfg now now_saved w
  = let w' := set_mgr (mgr (cleanupOldEmails cfg now now_saved w)) w in
    if decide (0 < deletedCount cfg now w)%nat then saveToFile cfg now_saved w' else w'.
Proof.
  rewrite mgr_cleanupOldEmails.
  unfold cleanupOldEmails, deletedCount, expiryTime.
  destruct (foldl _ _ _) as [em n]. cbn [fst snd]. done.
Qed.

(** After the sweep an address lists the messages the filter keeps. *)
Lemma getEmailsForAddress_cleanupOldEmails cfg now now_saved w a :
  getEmailsForAddress a (cleanupOldEmails cfg now now_saved w)
  = match emails (mgr w) !! a with
    | Some data => liveMessages (expiryTime cfg) now data
    | None => []
    end.
Proof.
  unfold getEmailsForAddress. rewrite lookup_cleanupOldEmails.
  destruct (emails (mgr w) !! a) as [data|]; [|done]. cbn.
  unfold sweepMailbox. repeat case_decide; try done.
  by destruct (liveMessages (expiryTime cfg) now data).
Qed.

(** A message stays exactly when its age is below the expiry time. *)
Lemma cleanupOldEmails_keeps_message cfg now now_saved w a data msg :
  emails (mgr w) !! a = Some data →
  msg ∈ getEmailsForAddress a (cleanupOldEmails cfg now now_saved w)
  ↔ msg ∈ messages data ∧ now - getTime (msg_date msg) < expiryTime cfg.
Proof.
  intros Hdata. rewrite getEmailsForAddress_cleanupOldEmails, Hdata.
  unfold liveMessages. rewrite list_elem_of_filter. tauto.
Qed.

(** A mailbox is deleted exactly when the filter leaves it no message and
    it was created more than the expiry time ago. *)
Lemma cleanupOldEmails_deletes_mailbox cfg now now_saved w a data :
  emails (mgr w) !! a = Some data →
  emails (mgr (cleanupOldEmails cfg now now_saved w)) !! a = None
  ↔ liveMessages (expiryTime cfg) now data = []
    ∧ getTime (created data) < now - expiryTime cfg.
Proof.
  intros Hdata. rewrite lookup_cleanupOldEmails, Hdata. cbn.
  unfold sweepMailbox.
  destruct (liveMessages (expiryTime cfg) now data) as [|m l] eqn:Hlive; cbn.
  - case_decide; [|done]. case_decide as Hage.
    + split; [intros _; split; [done | lia] | done].
    + split; [done | intros [_ ?]; lia].
  - case_decide; [done|]. split; [done | by intros [? _]].
Qed.

(** A mailbox that survives keeps its address, its creation time and its
    counters. *)
Lemma cleanupOldEmails_survivor cfg now now_saved w a data data' :
  emails (mgr w) !! a = Some data →
  emails (mgr (cleanupOldEmails cfg now now_saved w)) !! a = Some data' →
  data' = set_messages (liveMessages (expiryTime cfg) now data) data.
Proof.
  intros Hdata. rewrite lookup_cleanupOldEmails, Hdata. cbn.
  unfold sweepMailbox. repeat case_decide; congruence.
Qed.

(** A mailbox with a message younger than the expiry time is never
    deleted, however old the mailbox is. *)
Lemma cleanupOldEmails_live_mailbox_stays cfg now now_saved w a data msg :
  emails (mgr w) !! a = Some data →
  msg ∈ messages data → now - getTime (msg_date msg) < expiryTime cfg →
  is_Some (emails (mgr (cleanupOldEmails cfg now now_saved w)) !! a).
Proof.
  intros Hdata Hmsg Hlive.
  destruct (emails (mgr (cleanupOldEmails cfg now now_saved w)) !! a) eqn:Hafter;
    [by eauto|].
  apply (cleanupOldEmails_deletes_mailbox _ _ _ _ _ _ Hdata) in Hafter as [Hnil _].
  exfalso. eapply (filter_nil_not_elem_of _ _ msg); [exact Hnil | exact Hlive | exact Hmsg].
Qed.

(** The sweep creates no mailbox. *)
Lemma cleanupOldEmails_no_new_mailbox cfg now now_saved w a :
  emails (mgr w) !! a = None →
  emails (mgr (cleanupOldEmails cfg now now_saved w)) !! a = None.
Proof. intros Hnone. by rewrite lookup_cleanupOldEmails, Hnone. Qed.

(** The sweep scenario of the specification. *)
Example cleanupOldEmails_scenario :
  let w' := cleanupOldEmails default_config sweep_now (sweep_now + 1) scenario_world in
  emails (mgr w') !! "old@localhost"%string = None
  ∧ emails (mgr w') !! "new@localhost"%string
    = emails (mgr scenario_world) !! "new@localhost"%string
  ∧ saveCalls w' = 1%nat.
Proof. vm_compute. done. Qed.

(** C5. The failing input. The sweep runs at [sweep_now] with the default
    expiry of 24 hours; the mailbox holds one message received exactly 24
    hours earlier. Its [receivedAt] equals [now - expiryWindow], so it is
    not older than that bound, yet the sweep removes it: the filter keeps a
    message only while its age is strictly below the expiry time. (The
    mailbox, an hour old, stays.) *)
Theorem C5_sweep_removes_message_aged_exactly_expiry :
  let a := "bob@localhost"%string in
  let msg := sample_message "m1" (sweep_now - 24 * hour) in
  let w' := cleanupOldEmails default_config sweep_now (sweep_now + 1) boundary_world in
  getEmailsForAddress a boundary_world = [msg]
  ∧ ¬ (getTime (msg_date msg) < sweep_now - expiryTime default_config)
  ∧ getEmailsForAddress a w' = []
  ∧ is_Some (emails (mgr w') !! a).
Proof.
  vm_compute. split_and!; [done | by intros [=] | done | by eexists].
Qed.

(** ** The sweep and the snapshot *)

(** A message of a mailbox that the address no longer lists after the
    sweep has been counted in [deletedCount]. *)
Lemma deletedCount_positive cfg now now_saved w a data msg :
  emails (mgr w) !! a = Some data →
  msg ∈ messages data →
  msg ∉ getEmailsForAddress a (cleanupOldEmails cfg now now_saved w) →
  (0 < deletedCount cfg now w)%nat.
Proof.
  intros Hdata Hmsg Hgone.
  rewrite (cleanupOldEmails_keeps_message _ _ _ _ _ _ _ Hdata) in Hgone.
  assert (Hold : ¬ now - getTime (msg_date msg) < expiryTime cfg) by tauto.
  rewrite deletedCount_sum.
  apply elem_of_map_to_list in Hdata.
  pose proof (sum_list_with_in _ (fun kv => removedCount (expiryTime cfg) now kv.2)
                _ Hdata) as Hle.
  cbn [snd] in Hle. unfold removedCount at 1 in Hle. unfold liveMessages in Hle.
  pose proof (length_filter_lt (fun m => now - getTime (msg_date m) < expiryTime cfg)
                _ _ Hmsg Hold) as Hlt.
  lia.
Qed.

Lemma filter_all {A} (P : A → Prop) `{!∀ x, Decision (P x)} (l : list A) :
  Forall P l → filter P l = l.
Proof.
  induction 1 as [|x l Hx _ IH]; [done|].
  by rewrite filter_cons_True, IH.
Qed.

(** When no message is deleted the sweep does not call [saveToFile]. *)
Lemma deletedCount_zero cfg now w :
  (∀ a data msg, emails (mgr w) !! a = Some data → msg ∈ messages data →
                 now - getTime (msg_date msg) < expiryTime cfg) →
  deletedCount cfg now w = 0%nat.
Proof.
  intros Hlive. rewrite deletedCount_sum.
  assert (Hall : ∀ kv, kv ∈ map_to_list (emails (mgr w)) →
                       removedCount (expiryTime cfg) now kv.2 = 0%nat).
  { intros [a data] Hin%elem_of_map_to_list. cbn [snd].
    unfold removedCount, liveMessages.
    rewrite filter_all; [lia|].
    apply Forall_forall. intros msg Hmsg. by eapply Hlive. }
  induction (map_to_list (emails (mgr w))) as [|kv l IH]; [done|].
  cbn. rewrite (Hall kv) by left. rewrite IH; [done|].
  intros kv' Hkv'. apply Hall. by right.
Qed.

(** C8, as the code has it. A sweep that deleted one or more messages (a
    message of a mailbox is no longer listed under its address afterwards)
    has called [saveToFile] once before it returns; when persistence is
    enabled and the file system takes the write, the file then holds the
    snapshot of the manager as the sweep left it. Mailboxes that the sweep
    deletes are not counted. *)
Theorem C8_sweep_saves_after_deleting_messages cfg now now_saved w a data msg :
  emails (mgr w) !! a = Some data →
  msg ∈ messages data →
  msg ∉ getEmailsForAddress a (cleanupOldEmails cfg now now_saved w) →
  let w' := cleanupOldEmails cfg now now_saved w in
  saveCalls w' = S (saveCalls w)
  ∧ (SAVE_EMAILS cfg = true → writable w = true →
     file w' = Snapshot (file_data_of now_saved (mgr w'))).
Proof.
  intros Hdata Hmsg Hgone w'.
  pose proof (deletedCount_positive _ _ _ _ _ _ _ Hdata Hmsg Hgone) as Hpos.
  subst w'. rewrite cleanupOldEmails_save. cbn zeta.
  rewrite decide_True by done.
  rewrite saveCalls_saveToFile, mgr_saveToFile. cbn [saveCalls set_mgr mgr].
  split; [done|]. intros Hsave Hwritable.
  by rewrite file_saveToFile_enabled.
Qed.

(** C8 at the sweep scenario, with persistence enabled: the message of
    30 hours ago is deleted. *)
Lemma C8_sweep_saves_after_deleting_messages_witness :
  let cfg := small_config in
  let w := set_mgr (mgr scenario_world) sample_world in
  let w' := cleanupOldEmails cfg sweep_now (sweep_now + 1) w in
  saveCalls w' = S (saveCalls w)
  ∧ (SAVE_EMAILS cfg = true → writable w = true →
     file w' = Snapshot (file_data_of (sweep_now + 1) (mgr w'))).
Proof.
  intros cfg w.
  apply (C8_sweep_saves_after_deleting_messages cfg sweep_now (sweep_now + 1) w
           "old@localhost"
           (sample_mailbox "old@localhost" (sweep_now - 48 * hour)
              [sample_message "m1" (sweep_now - 30 * hour)])
           (sample_message "m1" (sweep_now - 30 * hour))).
  - vm_compute. reflexivity.
  - left.
  - vm_compute. inversion 1.
Defined.

(** The sweep calls [saveToFile] only for deleted messages: when every
    message is younger than the expiry time, the file and the number of
    calls are as before, whatever mailboxes were deleted. *)
Lemma cleanupOldEmails_no_save cfg now now_saved w :
  (∀ a data msg, emails (mgr w) !! a = Some data → msg ∈ messages data →
                 now - getTime (msg_date msg) < expiryTime cfg) →
  saveCalls (cleanupOldEmails cfg now now_saved w) = saveCalls w
  ∧ file (cleanupOldEmails cfg now now_saved w) = file w.
Proof.
  intros Hlive. rewrite cleanupOldEmails_save. cbn zeta.
  rewrite (deletedCount_zero _ _ _ Hlive).
  rewrite decide_False by lia. done.
Qed.

(** C8, the claim as stated fails. With persistence enabled, the sweep of
    a store whose only mailbox is empty and 48 hours old deletes that
    mailbox, and neither calls [saveToFile] nor writes the file: a later
    start would not see the deletion. *)
Lemma C8_sweep_deleting_only_a_mailbox_does_not_save :
  let cfg := small_config in
  let w := stale_world in
  let w' := cleanupOldEmails cfg sweep_now (sweep_now + 1) w in
  SAVE_EMAILS cfg = true
  ∧ writable w = true
  ∧ is_Some (emails (mgr w) !! "bob@localhost"%string)
  ∧ emails (mgr w') !! "bob@localhost"%string = None
  ∧ saveCalls w' = saveCalls w
  ∧ file w' = NoFile.
Proof. vm_compute. split_and!; try done. by eexists. Qed.

(** ** Usernames *)

Lemma in_class_username c :
  in_class username_class c = true ↔ local_part_char c.
Proof.
  unfold in_class, username_class, local_part_char. cbn [existsb fst snd].
  rewrite !orb_true_iff, !andb_true_iff, !Nat.leb_le.
  assert (Hone : ∀ x : ascii,
            (nat_of_ascii x ≤ nat_of_ascii c ∧ nat_of_ascii c ≤ nat_of_ascii x)%nat
            ↔ c = x).
  { intros x. split; [|by intros ->].
    intros [? ?]. rewrite <- (ascii_nat_embedding c), <- (ascii_nat_embedding x).
    f_equal. lia. }
  rewrite !Hone.
  assert (false = true → False) by discriminate. tauto.
Qed.

Lemma test_class_repeat_spec cls lo hi s :
  test_class_repeat cls lo hi s = true
  ↔ (lo ≤ String.length s ≤ hi)%nat
    ∧ Forall (fun c => in_class cls c = true) (list_ascii_of_string s).
Proof.
  revert lo hi. induction s as [|c s IH]; intros lo hi; simpl.
  - rewrite bool_decide_eq_true. split; [intros ->; split; [lia | constructor]|].
    intros [? _]. lia.
  - destruct hi as [|hi].
    + split; [done | intros [? _]; lia].
    + rewrite andb_true_iff, IH, Forall_cons. split.
      * intros (? & ? & ?). split_and!; [lia | lia | done | done].
      * intros ([? ?] & ? & ?). split_and!; [done | lia | lia | done].
Qed.

(** The regular expression of [isValidUsername] accepts exactly the
    strings of the local-part pattern. *)
Lemma isValidUsername_spec u :
  isValidUsername u = true ↔ local_part_pattern u.
Proof.
  unfold isValidUsername, local_part_pattern.
  rewrite test_class_repeat_spec. apply and_iff_compat_l.
  apply Forall_iff. intros c. apply in_class_username.
Qed.

Lemma append_String c s1 s2 : String c s1 +:+ s2 = String c (s1 +:+ s2).
Proof. reflexivity. Qed.

Lemma toLowerCase_app s1 s2 :
  toLowerCase (s1 +:+ s2) = toLowerCase s1 +:+ toLowerCase s2.
Proof.
  induction s1 as [|c s1 IH]; [done|].
  rewrite append_String. cbn [toLowerCase]. by rewrite append_String, IH.
Qed.

Lemma lower_ascii_local_part_char c : local_part_char c → lower_ascii c = c.
Proof.
  unfold local_part_char, lower_ascii. intros Hc.
  case_decide as Hupper; [|done]. exfalso.
  destruct Hc as [Hc | [Hc | [-> | [-> | ->]]]].
  - remember (nat_of_ascii c) as n. vm_compute in Hc. lia.
  - remember (nat_of_ascii c) as n. vm_compute in Hc. lia.
  - vm_compute in Hupper. lia.
  - vm_compute in Hupper. lia.
  - vm_compute in Hupper. lia.
Qed.

Lemma toLowerCase_local_part u :
  Forall local_part_char (list_ascii_of_string u) → toLowerCase u = u.
Proof.
  induction u as [|c u IH]; cbn; [done|].
  intros [Hc Hu]%Forall_cons. by rewrite lower_ascii_local_part_char, IH.
Qed.

(** The decimal digits of a number below 999 are of the pattern. *)
Lemma pretty_digits num :
  (num < 999)%nat → Forall local_part_char (list_ascii_of_string (pretty num)).
Proof.
  intros Hnum.
  assert (Hall : forallb (fun n => forallb (in_class username_class)
                                     (list_ascii_of_string (pretty n)))
                         (seq 0 999) = true) by (vm_compute; reflexivity).
  rewrite forallb_forall in Hall.
  specialize (Hall num). rewrite forallb_forall in Hall.
  apply Forall_forall. intros c Hc%list_elem_of_In.
  apply in_class_username, Hall; [|done].
  apply in_seq. lia.
Qed.

Lemma adjectives_nouns_local_part w :
  w ∈ adjectives ++ nouns → Forall local_part_char (list_ascii_of_string w).
Proof.
  intros Hw.
  assert (Hall : forallb (fun w => forallb (in_class username_class)
                                     (list_ascii_of_string w))
                         (adjectives ++ nouns) = true) by (vm_compute; reflexivity).
  rewrite forallb_forall in Hall.
  specialize (Hall w). rewrite forallb_forall in Hall.
  apply Forall_forall. intros c Hc%list_elem_of_In.
  apply in_class_username, Hall; [|done]. by apply list_elem_of_In.
Qed.

Lemma list_ascii_of_string_app s1 s2 :
  list_ascii_of_string (s1 +:+ s2)
  = list_ascii_of_string s1 ++ list_ascii_of_string s2.
Proof.
  induction s1 as [|c s1 IH]; [done|].
  rewrite append_String. cbn [list_ascii_of_string app]. by rewrite IH.
Qed.

Lemma adjective_noun_number_local_part adj noun num :
  adj ∈ adjectives → noun ∈ nouns → (num < 999)%nat →
  Forall local_part_char (list_ascii_of_string (adjective_noun_number adj noun num)).
Proof.
  intros Hadj Hnoun Hnum. unfold adjective_noun_number.
  rewrite !list_ascii_of_string_app, !Forall_app.
  split_and!.
  - apply adjectives_nouns_local_part, elem_of_app. by left.
  - apply Forall_cons. split; [|constructor]. right. right. by left.
  - apply adjectives_nouns_local_part, elem_of_app. by right.
  - apply Forall_cons. split; [|constructor]. right. right. by left.
  - by apply pretty_digits.
Qed.

Lemma element_in (l : list string) (r : nat) :
  l ≠ [] → element l (floor_random r (length l)) ∈ l.
Proof.
  intros Hl. unfold element, floor_random.
  destruct (l !! (r mod length l)%nat) as [x|] eqn:Hx.
  - cbn. by eapply list_elem_of_lookup_2.
  - apply lookup_ge_None in Hx.
    assert (length l ≠ 0%nat) by (by destruct l).
    pose proof (Nat.mod_upper_bound r (length l)). lia.
Qed.

(** A generated username is an adjective, a noun and a number below 999,
    joined by underscores; lower-casing leaves it as it is. *)
Lemma generateRandomUsername_shape g :
  ∃ adj noun num,
    adj ∈ adjectives ∧ noun ∈ nouns ∧ (num < 999)%nat
    ∧ generateRandomUsername g = adjective_noun_number adj noun num.
Proof.
  exists (element adjectives (floor_random (random_adj g) (length adjectives))),
         (element nouns (floor_random (random_noun g) (length nouns))),
         (floor_random (random_num g) 999).
  split_and!.
  - by apply element_in.
  - by apply element_in.
  - unfold floor_random. apply Nat.mod_upper_bound. lia.
  - unfold generateRandomUsername. cbn zeta.
    apply toLowerCase_local_part.
    apply adjective_noun_number_local_part.
    + by apply element_in.
    + by apply element_in.
    + unfold floor_random. apply Nat.mod_upper_bound. lia.
Qed.

Lemma email_generateEmailAddress cfg g options m :
  ai_email (generateEmailAddress cfg g options m).1
  = chooseUsername g (opt_username options) +:+ "@"
    +:+ ai_domain (generateEmailAddress cfg g options m).1.
Proof. done. Qed.

(** The address of the returned object has a mailbox afterwards, and no
    other key of the map has changed. *)
Lemma emails_generateEmailAddress cfg g options m :
  let r := generateEmailAddress cfg g options m in
  is_Some (emails r.2 !! ai_email r.1)
  ∧ (∀ a, a ≠ ai_email r.1 → emails r.2 !! a = emails m !! a)
  ∧ (∀ entry, emails m !! ai_email r.1 = Some entry →
              emails r.2 !! ai_email r.1 = Some entry).
Proof.
  intros r. subst r. unfold generateEmailAddress. cbn [fst snd ai_email emails].
  set (email := chooseUsername g (opt_username options) +:+ "@" +:+ _).
  destruct (emails m !! email) as [entry|] eqn:Hentry; cbn [emails set_emails set_mgr_stats].
  - split_and!; [by eauto | done | intros; congruence].
  - split_and!.
    + rewrite lookup_insert_eq. by eauto.
    + intros a Hne. by rewrite lookup_insert_ne.
    + intros entry Hsome. congruence.
Qed.

Lemma chooseUsername_valid g u :
  local_part_pattern u → chooseUsername g (Some u) = u.
Proof.
  intros Hu. pose proof Hu as Hvalid%isValidUsername_spec.
  unfold chooseUsername, truthy. rewrite Hvalid.
  rewrite bool_decide_eq_true_2; [done|].
  intros ->. destruct Hu as [[Hlen _] _]. cbn in Hlen. lia.
Qed.

Lemma chooseUsername_fallback g x :
  (x = None ∨ ∃ u, x = Some u ∧ ¬ local_part_pattern u) →
  chooseUsername g x = generateRandomUsername g.
Proof.
  intros [-> | (u & -> & Hu)]; [done|].
  unfold chooseUsername.
  destruct (isValidUsername u) eqn:Hvalid.
  - by apply isValidUsername_spec in Hvalid.
  - by rewrite andb_false_r.
Qed.

Lemma append_assoc_l (x y z : string) : (x +:+ y) +:+ z = x +:+ y +:+ z.
Proof.
  induction x as [|c x IH]; [done|]. by rewrite !append_String, IH.
Qed.

(** The generated username is read off the draws: the adjective and the
    noun at the drawn indices of the two lists and the drawn number below
    999. *)
Lemma generateRandomUsername_draws g :
  ∃ adj noun,
    adjectives !! (random_adj g mod 10)%nat = Some adj
    ∧ nouns !! (random_noun g mod 10)%nat = Some noun
    ∧ generateRandomUsername g
      = adjective_noun_number adj noun (random_num g mod 999).
Proof.
  pose proof (Nat.mod_upper_bound (random_adj g) 10) as Hadj.
  pose proof (Nat.mod_upper_bound (random_noun g) 10) as Hnoun.
  pose proof (Nat.mod_upper_bound (random_num g) 999) as Hnum.
  destruct (lookup_lt_is_Some_2 adjectives (random_adj g mod 10)) as [adj Hadj'];
    [cbn; lia|].
  destruct (lookup_lt_is_Some_2 nouns (random_noun g mod 10)) as [noun Hnoun'];
    [cbn; lia|].
  exists adj, noun. split_and!; [done..|].
  unfold generateRandomUsername, element, floor_random. cbn zeta.
  change (length adjectives) with 10%nat. change (length nouns) with 10%nat.
  rewrite Hadj', Hnoun'. cbn [default].
  apply toLowerCase_local_part, adjective_noun_number_local_part.
  - by eapply list_elem_of_lookup_2.
  - by eapply list_elem_of_lookup_2.
  - lia.
Qed.

(** C9. [generateEmailAddress] always returns an address, and registers a
    mailbox for it. If a username is given and matches the pattern
    [[a-z0-9_.-]{3,20}], the address is that username, unchanged, then [@]
    and the domain. If no username is given or the given one does not match
    the pattern, the call does not fail: the username is generated, an
    adjective, a noun and a number below 999 of the fixed lists joined by
    underscores, and it is in lower case. The three parts are the ones
    drawn: the adjective and the noun at the drawn indices of their lists
    and the drawn number, so that every adjective, noun and number below
    999 comes out for some draw, and the given username has no part in
    it. *)
Theorem C9_username_verbatim_or_generated cfg g options m :
  let r := generateEmailAddress cfg g options m in
  is_Some (emails r.2 !! ai_email r.1)
  ∧ (∀ u, opt_username options = Some u → local_part_pattern u →
       ai_email r.1 = u +:+ "@" +:+ ai_domain r.1)
  ∧ ((opt_username options = None
      ∨ ∃ u, opt_username options = Some u ∧ ¬ local_part_pattern u) →
     ∃ adj noun num,
       adj ∈ adjectives ∧ noun ∈ nouns ∧ (num < 999)%nat
       ∧ ai_email r.1 = adjective_noun_number adj noun num +:+ "@" +:+ ai_domain r.1
       ∧ toLowerCase (adjective_noun_number adj noun num)
         = adjective_noun_number adj noun num
       ∧ adjectives !! (random_adj g mod 10)%nat = Some adj
       ∧ nouns !! (random_noun g mod 10)%nat = Some noun
       ∧ num = (random_num g mod 999)%nat
       ∧ ai_email r.1
         = adj +:+ "_" +:+ noun +:+ "_" +:+ pretty num +:+ "@" +:+ ai_domain r.1
       ∧ ∀ i j n, (i < 10)%nat → (j < 10)%nat → (n < 999)%nat →
           ∃ g' adj' noun',
             adjectives !! i = Some adj' ∧ nouns !! j = Some noun'
             ∧ ai_email (generateEmailAddress cfg g' options m).1
               = adj' +:+ "_" +:+ noun' +:+ "_" +:+ pretty n +:+ "@"
                 +:+ ai_domain (generateEmailAddress cfg g' options m).1).
Proof.
  intros r. subst r. split_and!.
  - apply emails_generateEmailAddress.
  - intros u Hgiven Hu.
    by rewrite email_generateEmailAddress, Hgiven, chooseUsername_valid.
  - intros Hfallback.
    destruct (generateRandomUsername_draws g) as (adj & noun & Hadj & Hnoun & Hshape).
    pose proof (Nat.mod_upper_bound (random_num g) 999) as Hnum.
    assert (Hemail : ∀ g', ai_email (generateEmailAddress cfg g' options m).1
                           = generateRandomUsername g' +:+ "@"
                             +:+ ai_domain (generateEmailAddress cfg g' options m).1)
      by (intros g'; by rewrite email_generateEmailAddress, chooseUsername_fallback).
    assert (Hflat : ∀ a' n' k t,
              adjective_noun_number a' n' k +:+ t
              = a' +:+ "_" +:+ n' +:+ "_" +:+ pretty k +:+ t).
    { intros a' n' k t. unfold adjective_noun_number.
      by rewrite !append_assoc_l. }
    exists adj, noun, (random_num g mod 999)%nat.
    split_and!; try done.
    + by eapply list_elem_of_lookup_2.
    + by eapply list_elem_of_lookup_2.
    + lia.
    + by rewrite Hemail, Hshape.
    + apply toLowerCase_local_part, adjective_noun_number_local_part;
        [by eapply list_elem_of_lookup_2.. | lia].
    + by rewrite Hemail, Hshape, Hflat.
    + intros i j n Hi Hj Hn.
      set (g' := {| random_num := n; random_adj := i; random_noun := j;
                    random_domain := random_domain g;
                    now_created := now_created g; now_history := now_history g |}).
      destruct (generateRandomUsername_draws g') as (adj' & noun' & Hadj' & Hnoun' & Hshape').
      cbn [g' random_adj random_noun random_num] in Hadj', Hnoun', Hshape'.
      rewrite Nat.mod_small in Hadj', Hnoun', Hshape' by done.
      exists g', adj', noun'. split_and!; [done..|].
      by rewrite Hemail, Hshape', Hflat.
Qed.

Example generateEmailAddress_sample :
  ai_email (generateEmailAddress default_config sample_alloc
              {| opt_username := Some "john.doe-1"%string; opt_domain := None;
                 opt_type := None |} (mgr sample_world)).1
  = "john.doe-1@localhost"%string
  ∧ ai_email (generateEmailAddress default_config sample_alloc
                {| opt_username := Some "John"%string; opt_domain := None;
                   opt_type := None |} (mgr sample_world)).1
    = "brave_hawk_42@localhost"%string
  ∧ ai_email (generateEmailAddress default_config sample_alloc
                {| opt_username := Some "ab"%string; opt_domain := None;
                   opt_type := Some "local"%string |} (mgr sample_world)).1
    = "brave_hawk_42@localhost"%string
  ∧ ai_email (generateEmailAddress default_config sample_alloc
                {| opt_username := None; opt_domain := None;
                   opt_type := None |} (mgr sample_world)).1
    = "brave_hawk_42@localhost"%string.
Proof. vm_compute. done. Qed.

(** ** Addresses and letter case *)

Lemma toLowerCase_chooseUsername g x :
  toLowerCase (chooseUsername g x) = chooseUsername g x.
Proof.
  destruct x as [u|].
  - unfold chooseUsername.
    destruct (truthy (Some u) && isValidUsername u) eqn:Hvalid.
    + apply andb_true_iff in Hvalid as [_ [_ Hu]%isValidUsername_spec].
      by apply toLowerCase_local_part.
    + destruct (generateRandomUsername_shape g) as (adj & noun & num & ? & ? & ? & ->).
      apply toLowerCase_local_part. by apply adjective_noun_number_local_part.
  - cbn [chooseUsername].
    destruct (generateRandomUsername_shape g) as (adj & noun & num & ? & ? & ? & ->).
    apply toLowerCase_local_part. by apply adjective_noun_number_local_part.
Qed.

(** A deposit touches the one key it is given. *)
Lemma emails_receiveEmail cfg e a d w :
  (∃ entry, emails (mgr (receiveEmail cfg e a d w).2) !! a = Some entry
            ∧ address entry = match emails (mgr w) !! a with
                              | Some old => address old
                              | None => a
                              end)
  ∧ (∀ a', a' ≠ a →
       emails (mgr (receiveEmail cfg e a d w).2) !! a' = emails (mgr w) !! a').
Proof.
  unfold receiveEmail, ensureMailbox.
  destruct (emails (mgr w) !! a) as [old|] eqn:Hold; cbn [fst snd];
    rewrite mgr_saveToFile; cbn [mgr set_mgr emails set_emails set_mgr_stats].
  - split.
    + eexists. rewrite lookup_insert_eq. done.
    + intros a' Hne. by rewrite lookup_insert_ne.
  - split.
    + eexists. rewrite lookup_insert_eq. done.
    + intros a' Hne. by rewrite !lookup_insert_ne.
Qed.

(** The domain of an allocation is a string the manager holds, as it
    holds it: the requested domain if it is one of [domains], else the
    public address, a member of [domains], or the word [localhost]
    ([undefined] if [domains] is empty and the draw is from it). *)
Lemma chooseDomain_verbatim g preferredDomain type m :
  (∀ dom, preferredDomain = Some dom → dom ≠ ""%string → dom ∈ domains m →
          chooseDomain g preferredDomain type m = dom)
  ∧ (chooseDomain g preferredDomain type m ∈ domains m
     ∨ publicIP m = Some (chooseDomain g preferredDomain type m)
     ∨ chooseDomain g preferredDomain type m = "localhost"%string
     ∨ (domains m = [] ∧ chooseDomain g preferredDomain type m = "undefined"%string)).
Proof.
  unfold chooseDomain. cbn zeta. split.
  - intros dom -> Hne Hin. cbn [truthy default].
    rewrite (bool_decide_eq_true_2 (dom ≠ ""%string)) by done.
    by rewrite (bool_decide_eq_true_2 (dom ∈ domains m)) by done.
  - destruct (truthy preferredDomain && bool_decide (default ""%string preferredDomain ∈ domains m))
      eqn:Hpref.
    { left. by apply andb_true_iff in Hpref as [_ ?%bool_decide_eq_true]. }
    destruct (bool_decide (type = "public"%string) && truthy (publicIP m)) eqn:Hpub.
    { right. left. apply andb_true_iff in Hpub as [_ Hip].
      by destruct (publicIP m). }
    destruct (bool_decide (type = "local"%string)).
    { destruct (filter _ (domains m)) as [|d0 l] eqn:Hlocal.
      - right. right. by left.
      - left. assert (d0 ∈ d0 :: l) as Hin by left.
        rewrite <- Hlocal in Hin. by apply list_elem_of_filter in Hin as [_ ?]. }
    unfold element, floor_random.
    destruct (domains m) as [|d0 l] eqn:Hds.
    { right. right. right. split; [done|]. by rewrite lookup_nil. }
    left.
    destruct ((d0 :: l) !! (random_domain g mod length (d0 :: l))%nat) as [x|] eqn:Hx.
    + cbn [default]. by eapply list_elem_of_lookup_2.
    + apply lookup_ge_None in Hx.
      pose proof (Nat.mod_upper_bound (random_domain g) (length (d0 :: l))) as Hlt.
      cbn [length] in *. lia.
Qed.

(** C6, as the code has it. The store does not fold case. [receiveEmail]
    creates, fills and reports the mailbox under the recipient string
    exactly as it is passed, and changes no other key: when the recipient
    differs from its lower-case form, what [getEmailsForAddress] returns for
    the lower-case form is what it returned before the deposit.
    [generateEmailAddress] registers [username@domain], of which the
    username (a valid given one, or the generated one) is in lower case; the
    domain is taken as it stands: a requested domain that is one of the
    manager's domains is used letter for letter, and in every case the
    domain is a member of [domains], the public address, or the word
    [localhost], unchanged. *)
Theorem C6_addresses_kept_as_given cfg e a d w g options m :
  let rw := receiveEmail cfg e a d w in
  let ra := generateEmailAddress cfg g options m in
  is_Some (emails (mgr rw.2) !! a)
  ∧ r_address rw.1 = a
  ∧ msg_to (r_email rw.1) = a
  ∧ (∀ a', a' ≠ a → emails (mgr rw.2) !! a' = emails (mgr w) !! a')
  ∧ (toLowerCase a ≠ a →
     getEmailsForAddress (toLowerCase a) rw.2 = getEmailsForAddress (toLowerCase a) w)
  ∧ ai_email ra.1
    = chooseUsername g (opt_username options) +:+ "@" +:+ ai_domain ra.1
  ∧ toLowerCase (chooseUsername g (opt_username options))
    = chooseUsername g (opt_username options)
  ∧ is_Some (emails ra.2 !! ai_email ra.1)
  ∧ (∀ a', a' ≠ ai_email ra.1 → emails ra.2 !! a' = emails m !! a')
  ∧ (∀ dom, opt_domain options = Some dom → dom ≠ ""%string → dom ∈ domains m →
       ai_domain ra.1 = dom
       ∧ ∃ username, toLowerCase username = username
                     ∧ ai_email ra.1 = username +:+ "@" +:+ dom
                     ∧ is_Some (emails ra.2 !! (username +:+ "@" +:+ dom)))
  ∧ (ai_domain ra.1 ∈ domains m
     ∨ publicIP m = Some (ai_domain ra.1)
     ∨ ai_domain ra.1 = "localhost"%string
     ∨ (domains m = [] ∧ ai_domain ra.1 = "undefined"%string)).
Proof.
  intros rw ra. subst rw ra.
  destruct (emails_receiveEmail cfg e a d w) as [(entry & Hentry & _) Hframe].
  destruct (result_receiveEmail cfg e a d w) as (_ & Haddr & Hemail).
  destruct (emails_generateEmailAddress cfg g options m) as (Hnew & Hother & _).
  destruct (chooseDomain_verbatim g (opt_domain options)
              (default "public"%string (opt_type options)) m) as [Hasked Hheld].
  split_and!.
  - by exists entry.
  - exact Haddr.
  - by rewrite Hemail.
  - exact Hframe.
  - intros Hne. unfold getEmailsForAddress. by rewrite Hframe.
  - apply email_generateEmailAddress.
  - apply toLowerCase_chooseUsername.
  - exact Hnew.
  - exact Hother.
  - intros dom Hdom Hne Hin.
    assert (ai_domain (generateEmailAddress cfg g options m).1 = dom) as Hai
      by (by apply Hasked).
    split; [done|]. exists (chooseUsername g (opt_username options)).
    split_and!; [apply toLowerCase_chooseUsername | |].
    + by rewrite email_generateEmailAddress, Hai.
    + by rewrite <- Hai, <- email_generateEmailAddress.
  - exact Hheld.
Qed.

(** C6, the claim as stated fails. A deposit to [Bob@Example.COM] makes a
    mailbox under that very string; under the lower-case form there is no
    mailbox and nothing is listed, and a later deposit to the lower-case
    form makes a second mailbox. An allocation for the known domain
    [Mail.Example.COM] yields an address that is not in lower case. *)
Lemma C6_mixed_case_recipient_gets_own_mailbox :
  let a := "Bob@Example.COM"%string in
  let w1 := (receiveEmail default_config (sample_env 50) a (sample_data "Hi")
               sample_world).2 in
  let w2 := (receiveEmail default_config (sample_env 60) (toLowerCase a)
               (sample_data "Hi") w1).2 in
  let info := (generateEmailAddress default_config sample_alloc
                 {| opt_username := Some "bob"%string;
                    opt_domain := Some "Mail.Example.COM"%string;
                    opt_type := None |} mixed_case_manager).1 in
  toLowerCase a = "bob@example.com"%string
  ∧ map msg_subject (getEmailsForAddress a w1) = ["Hi"%string]
  ∧ emails (mgr w1) !! toLowerCase a = None
  ∧ getEmailsForAddress (toLowerCase a) w1 = []
  ∧ size (emails (mgr w2)) = 2%nat
  ∧ ai_email info = "bob@Mail.Example.COM"%string
  ∧ toLowerCase (ai_email info) ≠ ai_email info.
Proof. vm_compute. split_and!; done. Qed.

(** ** The snapshot *)

(** Entries set one after the other; the keys are all different. *)
Lemma lookup_foldl_insert (l : list (string * mailbox)) (m0 : gmap string mailbox) k :
  NoDup l.*1 →
  foldl (fun m kv => <[kv.1 := kv.2]> m) m0 l !! k
  = match (list_to_map l : gmap string mailbox) !! k with
    | Some v => Some v
    | None => m0 !! k
    end.
Proof.
  revert m0. induction l as [|[k0 v0] l IH]; intros m0 Hnodup; [done|].
  apply NoDup_cons in Hnodup as [Hk0 Hnodup].
  cbn [foldl fst snd]. rewrite IH by done.
  change (list_to_map ((k0, v0) :: l) : gmap string mailbox)
    with (<[k0 := v0]> (list_to_map l : gmap string mailbox)).
  destruct (decide (k0 = k)) as [<-|Hne].
  - rewrite (lookup_insert_eq (list_to_map l)).
    rewrite (not_elem_of_list_to_map_1 _ k0) by done.
    by rewrite lookup_insert_eq.
  - rewrite (lookup_insert_ne (list_to_map l)) by done.
    by rewrite lookup_insert_ne.
Qed.

Lemma Map_of_entries_list_to_map (l : list (string * mailbox)) :
  NoDup l.*1 → Map_of_entries l = list_to_map l.
Proof.
  intros Hnodup. apply map_eq. intros k. unfold Map_of_entries.
  rewrite lookup_foldl_insert by done.
  by destruct (list_to_map l !! k).
Qed.

(** The map read from the object that was written from a map. *)
Lemma Map_of_entries_fromEntries (em : gmap string mailbox) :
  Map_of_entries (map (fun kv => (kv.1, mailbox_toJSON kv.2)) (Object_fromEntries em))
  = mailbox_toJSON <$> em.
Proof.
  unfold Object_fromEntries.
  change (map (fun kv : string * mailbox => (kv.1, mailbox_toJSON kv.2)) (map_to_list em))
    with (prod_map id mailbox_toJSON <$> map_to_list em).
  rewrite Map_of_entries_list_to_map.
  - by rewrite list_to_map_fmap, list_to_map_to_list.
  - assert ((prod_map id mailbox_toJSON <$> map_to_list em).*1 = (map_to_list em).*1)
      as ->.
    { induction (map_to_list em) as [|[k v] l IH]; [done|]. cbn. by f_equal. }
    apply NoDup_fst_map_to_list.
Qed.

(** What a manager holds after it has loaded the file another state was
    saved to. *)
Lemma loadFromFile_saveToFile cfg now w m0 :
  SAVE_EMAILS cfg = true → writable w = true →
  let loaded := loadFromFile (set_mgr m0 (saveToFile cfg now w)) in
  emails (mgr loaded) = mailbox_toJSON <$> emails (mgr w)
  ∧ mgr_stats (mgr loaded) = stats_toJSON (mgr_stats (mgr w)).
Proof.
  intros Hsave Hwritable loaded. subst loaded.
  unfold loadFromFile. cbn [file set_mgr].
  rewrite file_saveToFile_enabled by done.
  cbn [fd_emails fd_stats file_data_of default mgr set_mgr set_emails
       set_mgr_stats emails mgr_stats].
  unfold id. by rewrite Map_of_entries_fromEntries.
Qed.

(** C4. With persistence enabled and a file system that takes the write,
    a manager that loads the file written by [saveToFile] holds the mapping
    that was saved: the same addresses, and under each address the same
    message ids in the same order with the same read flags, the same
    address string and the same received and read counters, and a creation
    time that denotes the same instant (now as an ISO string). The
    counters [totalEmails] and [totalAddresses] are the same, and
    [startTime] denotes the same instant. *)
Theorem C4_load_after_save cfg now w m0 :
  SAVE_EMAILS cfg = true → writable w = true →
  let loaded := loadFromFile (set_mgr m0 (saveToFile cfg now w)) in
  dom (emails (mgr loaded)) = dom (emails (mgr w))
  ∧ (∀ a entry, emails (mgr w) !! a = Some entry →
       ∃ entry',
         emails (mgr loaded) !! a = Some entry'
         ∧ map msg_id (messages entry') = map msg_id (messages entry)
         ∧ map msg_read (messages entry') = map msg_read (messages entry)
         ∧ address entry' = address entry
         ∧ stats entry' = stats entry
         ∧ getTime (created entry') = getTime (created entry))
  ∧ totalEmails (mgr_stats (mgr loaded)) = totalEmails (mgr_stats (mgr w))
  ∧ totalAddresses (mgr_stats (mgr loaded)) = totalAddresses (mgr_stats (mgr w))
  ∧ getTime (startTime (mgr_stats (mgr loaded)))
    = getTime (startTime (mgr_stats (mgr w))).
Proof.
  intros Hsave Hwritable loaded.
  destruct (loadFromFile_saveToFile cfg now w m0 Hsave Hwritable) as [Hemails Hstats].
  fold loaded in Hemails, Hstats. rewrite Hemails, Hstats.
  split_and!.
  - apply dom_fmap_L.
  - intros a entry Hentry. exists (mailbox_toJSON entry).
    rewrite lookup_fmap, Hentry. cbn [fmap option_fmap option_map mailbox_toJSON messages
                                      address stats created].
    split_and!; [done | by rewrite map_map | by rewrite map_map | done | done
                | by destruct (created entry)].
  - done.
  - done.
  - cbn. by destruct (startTime (mgr_stats (mgr w))).
Qed.

(** C4 at a sample state: two deposits, one of them read, saved and loaded
    by a manager that has just been constructed. *)
Lemma C4_load_after_save_witness :
  let loaded := loadFromFile (set_mgr (new_EmailManager 99)
                                (saveToFile small_config 80 busy_world)) in
  dom (emails (mgr loaded)) = dom (emails (mgr busy_world))
  ∧ (∀ a entry, emails (mgr busy_world) !! a = Some entry →
       ∃ entry',
         emails (mgr loaded) !! a = Some entry'
         ∧ map msg_id (messages entry') = map msg_id (messages entry)
         ∧ map msg_read (messages entry') = map msg_read (messages entry)
         ∧ address entry' = address entry
         ∧ stats entry' = stats entry
         ∧ getTime (created entry') = getTime (created entry))
  ∧ totalEmails (mgr_stats (mgr loaded)) = totalEmails (mgr_stats (mgr busy_world))
  ∧ totalAddresses (mgr_stats (mgr loaded)) = totalAddresses (mgr_stats (mgr busy_world))
  ∧ getTime (startTime (mgr_stats (mgr loaded)))
    = getTime (startTime (mgr_stats (mgr busy_world))).
Proof.
  apply (C4_load_after_save small_config 80 busy_world (new_EmailManager 99)).
  - vm_compute. reflexivity.
  - vm_compute. reflexivity.
Defined.

Example load_after_save_sample :
  let loaded := loadFromFile (restart 99 (saveToFile small_config 80 busy_world)) in
  map (fun m => (msg_id m, msg_read m)) (getEmailsForAddress "bob@localhost" busy_world)
  = [("61k3f9x2m1q", false); ("51k3f9x2m1q", true)]%string
  ∧ map (fun m => (msg_id m, msg_read m)) (getEmailsForAddress "bob@localhost" loaded)
    = [("61k3f9x2m1q", false); ("51k3f9x2m1q", true)]%string
  ∧ totalEmails (mgr_stats (mgr loaded)) = 2
  ∧ totalAddresses (mgr_stats (mgr loaded)) = 1.
Proof. vm_compute. done. Qed.

(** A start of the server on the file a former run has saved to:
    [initialize] loads it. *)
Lemma initialize_loads_snapshot cfg now t detectedPublic detectedLocal w :
  SAVE_EMAILS cfg = true → writable w = true →
  emails (mgr (initialize cfg detectedPublic detectedLocal
                 (restart t (saveToFile cfg now w))))
  = mailbox_toJSON <$> emails (mgr w).
Proof.
  intros Hsave Hwritable.
  pose proof (file_saveToFile_enabled cfg now w Hsave Hwritable) as Hfile.
  unfold initialize, restart. cbn [file set_mgr mgr].
  rewrite Hsave, Hfile. cbn [existsSync andb].
  unfold loadFromFile. cbn [file set_mgr]. rewrite Hfile.
  cbn [fd_emails fd_stats file_data_of default mgr set_mgr set_emails
       set_mgr_stats emails mgr_stats].
  unfold id. by rewrite Map_of_entries_fromEntries.
Qed.

(** With persistence switched off, as it is by default, [saveToFile]
    returns before it writes: the file is as it was. *)
Example saveToFile_default_config :
  saveCalls unsaved_world = 2%nat
  ∧ file (saveToFile default_config 80 unsaved_world) = NoFile
  ∧ size (emails (mgr unsaved_world)) = 1%nat
  ∧ emails (mgr (loadFromFile (restart 99 (saveToFile default_config 80 unsaved_world))))
    = ∅.
Proof. vm_compute. done. Qed.

(** A write that the file system refuses leaves the file as it was, and
    the manager goes on. *)
Lemma saveToFile_not_writable cfg now w :
  writable w = false →
  file (saveToFile cfg now w) = file w ∧ mgr (saveToFile cfg now w) = mgr w.
Proof. intros Hw. unfold saveToFile. rewrite Hw. by destruct (SAVE_EMAILS cfg). Qed.

(** After a load, [startTime] is a string, and the [uptime] of [getStats]
    is not a number. *)
Lemma getStats_uptime_after_load cfg now t w m0 :
  SAVE_EMAILS cfg = true → writable w = true →
  st_uptime (getStats t (loadFromFile (set_mgr m0 (saveToFile cfg now w)))) = None.
Proof.
  intros Hsave Hwritable.
  destruct (loadFromFile_saveToFile cfg now w m0 Hsave Hwritable) as [_ Hstats].
  unfold getStats. cbn [st_uptime]. by rewrite Hstats.
Qed.

(** ** The configuration *)

(** The limit on messages per address is never zero; it is the default,
    100, unless the environment gives another number. *)
Lemma MAX_EMAILS_PER_ADDRESS_nonzero e : MAX_EMAILS_PER_ADDRESS (config e) ≠ 0.
Proof.
  unfold config, or_number. cbn.
  destruct (env_MAX_EMAILS_PER_ADDRESS e) as [n|]; [|done].
  by case_decide.
Qed.

(** A negative limit makes [slice] count from the end: the deposit that
    has just been made can be cut away. *)
Example negative_limit :
  getEmailsForAddress "bob@localhost"
    (receiveEmail (config {| env_SMTP_PORT := None; env_HTTP_PORT := None;
                             env_EMAIL_EXPIRY_HOURS := None;
                             env_MAX_EMAILS_PER_ADDRESS := Some (-1);
                             env_SAVE_EMAILS := None |})
       (sample_env 50) "bob@localhost" (sample_data "Hi") sample_world).2
  = [].
Proof. vm_compute. reflexivity. Qed.

(** * Further properties of the store *)

(** ** Records and their updates *)

Lemma set_messages_same e : set_messages (messages e) e = e.
Proof. by destruct e. Qed.

Lemma set_emails_same m : set_emails (emails m) m = m.
Proof. by destruct m. Qed.

Lemma set_mgr_same w : set_mgr (mgr w) w = w.
Proof. by destruct w. Qed.

(** ** Deleting one message *)

Lemma length_filter_lt_iff {A} (P : A → Prop) `{!∀ x, Decision (P x)} (l : list A) :
  (length (filter P l) < length l)%nat ↔ ∃ x, x ∈ l ∧ ¬ P x.
Proof.
  split.
  - intros Hlt. destruct (decide (Forall P l)) as [Hall|Hnot].
    + rewrite filter_all in Hlt by done. lia.
    + apply not_Forall_Exists in Hnot; [|solve_decision].
      apply Exists_exists in Hnot as (x & Hx & HP). by exists x.
  - intros (x & Hx & HP). by eapply length_filter_lt.
Qed.

Lemma deleteEmail_known cfg now a id entry w :
  emails (mgr w) !! a = Some entry →
  let kept := filter (fun msg => msg_id msg ≠ id) (messages entry) in
  deleteEmail cfg now a id w
  = if decide (length kept < length (messages entry))%nat
    then (true, saveToFile cfg now
                  (set_mgr (set_emails (<[a := set_messages kept entry]> (emails (mgr w)))
                                       (mgr w)) w))
    else (false, w).
Proof.
  intros Hentry kept. unfold deleteEmail. rewrite Hentry. cbn [messages set_messages].
  fold kept. case_decide as Hlen; [done|].
  f_equal.
  assert (Hall : Forall (fun msg => msg_id msg ≠ id) (messages entry)).
  { apply Forall_forall. intros msg Hmsg Hid.
    apply Hlen, length_filter_lt_iff. exists msg. split; [done|]. by intros ?. }
  subst kept. rewrite filter_all by done.
  by rewrite set_messages_same, insert_id, set_emails_same, set_mgr_same.
Qed.

(** X1. [deleteEmail] returns [true] exactly when the mailbox exists and
    holds a message with the given id. The address then lists the former
    messages without any of that id (every copy goes, the others keep their
    order); the mailbox keeps its address, creation time and counters, and
    the other mailboxes and [this.stats] are as before. *)
Theorem X1_deleteEmail_removes_every_copy cfg now a id w :
  let r := deleteEmail cfg now a id w in
  (r.1 = true ↔ ∃ msg, msg ∈ getEmailsForAddress a w ∧ msg_id msg = id)
  ∧ getEmailsForAddress a r.2
    = filter (fun msg => msg_id msg ≠ id) (getEmailsForAddress a w)
  ∧ statsOf a r.2 = statsOf a w
  ∧ (∀ entry, emails (mgr w) !! a = Some entry →
       ∃ entry', emails (mgr r.2) !! a = Some entry'
                 ∧ address entry' = address entry ∧ created entry' = created entry)
  ∧ (∀ a', a' ≠ a → emails (mgr r.2) !! a' = emails (mgr w) !! a')
  ∧ mgr_stats (mgr r.2) = mgr_stats (mgr w).
Proof.
  intros r. subst r. unfold getEmailsForAddress, statsOf.
  destruct (emails (mgr w) !! a) as [entry|] eqn:Hentry.
  - rewrite (deleteEmail_known _ _ _ _ _ _ Hentry). cbn zeta.
    case_decide as Hlen; cbn [fst snd].
    + rewrite mgr_saveToFile. cbn [mgr set_mgr emails set_emails mgr_stats].
      rewrite lookup_insert_eq. cbn [messages set_messages stats].
      split_and!; try done.
      * split; [intros _|done].
        apply length_filter_lt_iff in Hlen as (msg & Hmsg & Hid).
        exists msg. split; [done|]. by destruct (decide (msg_id msg = id)).
      * intros ? [= <-]. by eexists.
      * intros a' Hne. by rewrite lookup_insert_ne.
    + rewrite Hentry.
      assert (Hall : Forall (fun msg => msg_id msg ≠ id) (messages entry)).
      { apply Forall_forall. intros msg Hmsg Hid.
        apply Hlen, length_filter_lt_iff. exists msg. split; [done|]. by intros ?. }
      split_and!; try done.
      * split; [done|]. intros (msg & Hmsg & Hid).
        rewrite Forall_forall in Hall. by destruct (Hall msg Hmsg).
      * by rewrite filter_all.
      * intros ? [= <-]. by eexists.
  - unfold deleteEmail. rewrite Hentry. cbn [fst snd]. rewrite Hentry.
    split_and!; try done.
    split; [done|]. by intros (msg & Hmsg%elem_of_nil & _).
Qed.

Example deleteEmail_sample :
  let w := receiveAll default_config "bob@localhost"
             [(sample_env 50, sample_data "one"); (sample_env 60, sample_data "two");
              (sample_env 50, sample_data "again")] sample_world in
  map msg_subject (getEmailsForAddress "bob@localhost" w) = ["again"; "two"; "one"]%string
  ∧ map msg_subject
      (getEmailsForAddress "bob@localhost"
         (deleteEmail default_config 70 "bob@localhost" (emailId (sample_env 50)) w).2)
    = ["two"]%string
  ∧ statsOf "bob@localhost"
      (deleteEmail default_config 70 "bob@localhost" (emailId (sample_env 50)) w).2
    = {| received := 3; read := 0 |}.
Proof. vm_compute. done. Qed.

(** ** Calls that report failure *)

(** X2. A call of [markAsRead], [deleteEmail] or [deleteAllEmails] that
    returns [false] has changed nothing: the manager, the storage file and
    the number of calls of [saveToFile] are as before. *)
Theorem X2_false_means_untouched cfg now a id w :
  ((markAsRead cfg now a id w).1 = false → (markAsRead cfg now a id w).2 = w)
  ∧ ((deleteEmail cfg now a id w).1 = false → (deleteEmail cfg now a id w).2 = w)
  ∧ ((deleteAllEmails cfg now a w).1 = false → (deleteAllEmails cfg now a w).2 = w).
Proof.
  split_and!.
  - apply markAsRead_false.
  - destruct (emails (mgr w) !! a) as [entry|] eqn:Hentry.
    + rewrite (deleteEmail_known _ _ _ _ _ _ Hentry). cbn zeta.
      by case_decide.
    + unfold deleteEmail. by rewrite Hentry.
  - unfold deleteAllEmails. by destruct (emails (mgr w) !! a).
Qed.

(** ** Counting deposits *)

Lemma stats_receiveEmail cfg e a d w :
  statsOf a (receiveEmail cfg e a d w).2
  = {| received := received (statsOf a w) + 1; read := read (statsOf a w) |}
  ∧ totalEmails (mgr_stats (mgr (receiveEmail cfg e a d w).2))
    = totalEmails (mgr_stats (mgr w)) + 1
  ∧ totalAddresses (mgr_stats (mgr (receiveEmail cfg e a d w).2))
    = totalAddresses (mgr_stats (mgr w))
      + (if emails (mgr w) !! a is Some _ then 0 else 1)
  ∧ startTime (mgr_stats (mgr (receiveEmail cfg e a d w).2))
    = startTime (mgr_stats (mgr w)).
Proof.
  unfold receiveEmail, ensureMailbox, statsOf.
  destruct (emails (mgr w) !! a) as [entry|] eqn:Hentry; cbn [fst snd];
    rewrite mgr_saveToFile;
    cbn [mgr set_mgr emails set_emails set_mgr_stats mgr_stats totalEmails
         totalAddresses startTime];
    rewrite lookup_insert_eq; cbn; split_and!; try done; lia.
Qed.

(** Once a deposit has been made, or if it was there before, the mailbox
    of the address is there. *)
Lemma receiveAll_mailbox cfg a ds w :
  ds ≠ [] ∨ is_Some (emails (mgr w) !! a) →
  is_Some (emails (mgr (receiveAll cfg a ds w)) !! a).
Proof.
  induction ds as [|d ds IH] using rev_ind.
  - intros [?|?]; done.
  - intros _. rewrite receiveAll_snoc.
    destruct (emails_receiveEmail cfg d.1 a d.2 (receiveAll cfg a ds w))
      as [(entry & -> & _) _]. by eexists.
Qed.

(** X3. The counters count deposits, not messages held: after a run of
    deposits to one address, its [stats.received] and [this.stats.totalEmails]
    have grown by the length of the run, whatever the limit on messages per
    address has cut away; [stats.read] is as before, and
    [this.stats.totalAddresses] has grown by one exactly when the address had
    no mailbox and the run is not empty. *)
Theorem X3_counters_count_every_deposit cfg a ds w :
  let w' := receiveAll cfg a ds w in
  received (statsOf a w') = received (statsOf a w) + Z.of_nat (length ds)
  ∧ read (statsOf a w') = read (statsOf a w)
  ∧ totalEmails (mgr_stats (mgr w'))
    = totalEmails (mgr_stats (mgr w)) + Z.of_nat (length ds)
  ∧ totalAddresses (mgr_stats (mgr w'))
    = totalAddresses (mgr_stats (mgr w))
      + (if emails (mgr w) !! a is Some _ then 0 else if ds is [] then 0 else 1).
Proof.
  intros w'. subst w'. induction ds as [|d ds IH] using rev_ind.
  - cbn. split_and!; try lia. destruct (emails (mgr w) !! a); lia.
  - rewrite receiveAll_snoc.
    destruct (stats_receiveEmail cfg d.1 a d.2 (receiveAll cfg a ds w))
      as (Hstats & Htotal & Haddr & _).
    destruct IH as (IHrec & IHread & IHtotal & IHaddr).
    rewrite Hstats, Htotal, Haddr, length_app. cbn [received read length].
    split_and!; try lia.
    rewrite IHaddr.
    pose proof (receiveAll_mailbox cfg a ds w) as Hmailbox.
    assert (Hsnoc : ds ++ [d] ≠ []) by (by destruct ds).
    destruct (ds ++ [d]) as [|? ?] eqn:Happ; [done|]. clear Happ Hsnoc.
    destruct (emails (mgr w) !! a) as [entry|] eqn:Hentry.
    + destruct Hmailbox as [? ->]; [right; by eexists|]. lia.
    + destruct ds as [|d0 ds0].
      * cbn. rewrite Hentry. lia.
      * destruct Hmailbox as [? ->]; [by left|]. lia.
Qed.

Example counters_sample :
  let w := receiveAll small_config "bob@localhost"
             [(sample_env 10, sample_data "one"); (sample_env 20, sample_data "two");
              (sample_env 30, sample_data "three")] sample_world in
  length (getEmailsForAddress "bob@localhost" w) = 2%nat
  ∧ statsOf "bob@localhost" w = {| received := 3; read := 0 |}
  ∧ totalEmails (mgr_stats (mgr w)) = 3
  ∧ totalAddresses (mgr_stats (mgr w)) = 1.
Proof. vm_compute. done. Qed.

(** ** Checkpoints *)

Lemma saveToFile_checkpointed cfg now w :
  SAVE_EMAILS cfg = true → writable w = true → checkpointed (saveToFile cfg now w).
Proof.
  intros Hsave Hwritable. exists now.
  by rewrite file_saveToFile_enabled, mgr_saveToFile.
Qed.

(** X4. With persistence enabled and a file system that takes the write,
    every deposit and every call of [markAsRead], [deleteEmail] or
    [deleteAllEmails] that returns [true] leaves in the storage file the
    snapshot of the manager as the call left it. *)
Theorem X4_mutations_are_checkpointed cfg e now a id d w :
  SAVE_EMAILS cfg = true → writable w = true →
  checkpointed (receiveEmail cfg e a d w).2
  ∧ ((markAsRead cfg now a id w).1 = true → checkpointed (markAsRead cfg now a id w).2)
  ∧ ((deleteEmail cfg now a id w).1 = true → checkpointed (deleteEmail cfg now a id w).2)
  ∧ ((deleteAllEmails cfg now a w).1 = true →
     checkpointed (deleteAllEmails cfg now a w).2).
Proof.
  intros Hsave Hwritable. split_and!.
  - unfold receiveEmail. destruct (ensureMailbox _ _ _) as [entry m]. cbn [snd].
    by apply saveToFile_checkpointed.
  - markAsRead_cases w a entry i msg; [done|]. intros _.
    by apply saveToFile_checkpointed.
  - destruct (emails (mgr w) !! a) as [entry|] eqn:Hentry.
    + rewrite (deleteEmail_known _ _ _ _ _ _ Hentry). cbn zeta.
      case_decide; [|done]. intros _. by apply saveToFile_checkpointed.
    + unfold deleteEmail. by rewrite Hentry.
  - unfold deleteAllEmails. destruct (emails (mgr w) !! a) as [entry|]; [|done].
    intros _. by apply saveToFile_checkpointed.
Qed.

Lemma X4_mutations_are_checkpointed_witness :
  let w := (receiveEmail small_config (sample_env 50) "bob@localhost"
              (sample_data "Hi") sample_world).2 in
  let id := emailId (sample_env 50) in
  checkpointed (receiveEmail small_config (sample_env 60) "bob@localhost"
                  (sample_data "Ho") w).2
  ∧ ((markAsRead small_config 70 "bob@localhost" id w).1 = true →
     checkpointed (markAsRead small_config 70 "bob@localhost" id w).2)
  ∧ ((deleteEmail small_config 70 "bob@localhost" id w).1 = true →
     checkpointed (deleteEmail small_config 70 "bob@localhost" id w).2)
  ∧ ((deleteAllEmails small_config 70 "bob@localhost" w).1 = true →
     checkpointed (deleteAllEmails small_config 70 "bob@localhost" w).2).
Proof.
  intros w id.
  apply (X4_mutations_are_checkpointed small_config (sample_env 60) 70
           "bob@localhost" id (sample_data "Ho") w).
  - vm_compute. reflexivity.
  - vm_compute. reflexivity.
Defined.

Lemma initialize_checkpointed cfg t detectedPublic detectedLocal w :
  SAVE_EMAILS cfg = true → checkpointed w →
  emails (mgr (initialize cfg detectedPublic detectedLocal (restart t w)))
  = mailbox_toJSON <$> emails (mgr w)
  ∧ mgr_stats (mgr (initialize cfg detectedPublic detectedLocal (restart t w)))
    = stats_toJSON (mgr_stats (mgr w)).
Proof.
  intros Hsave [now Hfile].
  unfold initialize, restart. cbn [file set_mgr mgr].
  rewrite Hsave, Hfile. cbn [existsSync andb].
  unfold loadFromFile. cbn [file set_mgr]. rewrite Hfile.
  cbn [fd_emails fd_stats file_data_of default mgr set_mgr set_emails
       set_mgr_stats emails mgr_stats].
  unfold id. by rewrite Map_of_entries_fromEntries.
Qed.

(** X5. After a checkpoint, a server started anew with persistence
    enabled lists under every address the messages that were there, each in
    its JSON form, and has the same counters: nothing that was in the store
    is lost, and no address is added. *)
Theorem X5_restart_recovers_checkpoint cfg t detectedPublic detectedLocal w :
  SAVE_EMAILS cfg = true → checkpointed w →
  let w' := initialize cfg detectedPublic detectedLocal (restart t w) in
  (∀ a, getEmailsForAddress a w' = map message_toJSON (getEmailsForAddress a w))
  ∧ (∀ a, statsOf a w' = statsOf a w)
  ∧ dom (emails (mgr w')) = dom (emails (mgr w))
  ∧ totalEmails (mgr_stats (mgr w')) = totalEmails (mgr_stats (mgr w))
  ∧ totalAddresses (mgr_stats (mgr w')) = totalAddresses (mgr_stats (mgr w)).
Proof.
  intros Hsave Hcheck w'.
  destruct (initialize_checkpointed cfg t detectedPublic detectedLocal w Hsave Hcheck)
    as [Hemails Hstats].
  fold w' in Hemails, Hstats.
  split_and!.
  - intros a. unfold getEmailsForAddress. rewrite Hemails, lookup_fmap.
    by destruct (emails (mgr w) !! a).
  - intros a. unfold statsOf. rewrite Hemails, lookup_fmap.
    by destruct (emails (mgr w) !! a).
  - rewrite Hemails. apply dom_fmap_L.
  - by rewrite Hstats.
  - by rewrite Hstats.
Qed.

Lemma X5_restart_recovers_checkpoint_witness :
  let w := (receiveEmail small_config (sample_env 50) "bob@localhost"
              (sample_data "Hi") sample_world).2 in
  let w' := initialize small_config (Some "203.0.113.7"%string) [] (restart 90 w) in
  (∀ a, getEmailsForAddress a w' = map message_toJSON (getEmailsForAddress a w))
  ∧ (∀ a, statsOf a w' = statsOf a w)
  ∧ dom (emails (mgr w')) = dom (emails (mgr w))
  ∧ totalEmails (mgr_stats (mgr w')) = totalEmails (mgr_stats (mgr w))
  ∧ totalAddresses (mgr_stats (mgr w')) = totalAddresses (mgr_stats (mgr w)).
Proof.
  intros w.
  apply (X5_restart_recovers_checkpoint small_config 90 (Some "203.0.113.7"%string) [] w).
  - vm_compute. reflexivity.
  - exists 53. vm_compute. reflexivity.
Defined.

(** X6. [generateEmailAddress] writes no checkpoint: after a checkpoint,
    an address that is then allocated for the first time has a mailbox in
    the running manager, and none in a server started anew from the file. *)
Theorem X6_allocation_is_not_checkpointed cfg g options t detectedPublic detectedLocal w :
  SAVE_EMAILS cfg = true → checkpointed w →
  let r := generateEmailAddress cfg g options (mgr w) in
  emails (mgr w) !! ai_email r.1 = None →
  is_Some (emails r.2 !! ai_email r.1)
  ∧ emails (mgr (initialize cfg detectedPublic detectedLocal
                   (restart t (set_mgr r.2 w)))) !! ai_email r.1 = None.
Proof.
  intros Hsave [now Hfile] r Hnew. split.
  - apply emails_generateEmailAddress.
  - unfold initialize, restart. cbn [file set_mgr mgr].
    rewrite Hsave, Hfile. cbn [existsSync andb].
    unfold loadFromFile. cbn [file set_mgr]. rewrite Hfile.
    cbn [fd_emails fd_stats file_data_of default mgr set_mgr set_emails
         set_mgr_stats emails mgr_stats].
    unfold id. rewrite Map_of_entries_fromEntries, lookup_fmap. by rewrite Hnew.
Qed.

Lemma X6_allocation_is_not_checkpointed_witness :
  let w := (receiveEmail small_config (sample_env 50) "bob@localhost"
              (sample_data "Hi") sample_world).2 in
  let options := {| opt_username := Some "carol"%string; opt_domain := None;
                    opt_type := None |} in
  let r := generateEmailAddress small_config sample_alloc options (mgr w) in
  is_Some (emails r.2 !! ai_email r.1)
  ∧ emails (mgr (initialize small_config None [] (restart 90 (set_mgr r.2 w))))
      !! ai_email r.1 = None.
Proof.
  intros w options.
  apply (X6_allocation_is_not_checkpointed small_config sample_alloc options 90 None [] w).
  - vm_compute. reflexivity.
  - exists 53. vm_compute. reflexivity.
  - vm_compute. reflexivity.
Defined.

(** ** More on the sweep *)

Lemma fields_cleanupOldEmails cfg now now_saved w :
  domains (mgr (cleanupOldEmails cfg now now_saved w)) = domains (mgr w)
  ∧ publicIP (mgr (cleanupOldEmails cfg now now_saved w)) = publicIP (mgr w)
  ∧ localIPs (mgr (cleanupOldEmails cfg now now_saved w)) = localIPs (mgr w)
  ∧ domainHistory (mgr (cleanupOldEmails cfg now now_saved w)) = domainHistory (mgr w)
  ∧ mgr_stats (mgr (cleanupOldEmails cfg now now_saved w)) = mgr_stats (mgr w).
Proof. by rewrite mgr_cleanupOldEmails. Qed.

(** The loop of the sweep is a map over the mailboxes. *)
Lemma emails_cleanupOldEmails cfg now now_saved w :
  emails (mgr (cleanupOldEmails cfg now now_saved w))
  = omap (sweepMailbox (expiryTime cfg) now) (emails (mgr w)).
Proof.
  apply map_eq. intros a. by rewrite lookup_cleanupOldEmails, lookup_omap.
Qed.

(** X7. What one sweep does, mailbox by mailbox, whatever the order in
    which the loop meets them. An address lists afterwards its messages of
    age below the expiry time, in their former order; its mailbox is
    deleted exactly when none is left and the mailbox was created more than
    the expiry time ago, and otherwise keeps its address, creation time and
    counters. No mailbox is created, and [this.stats] is as before: the
    sweep lowers no counter. *)
Theorem X7_sweep_mailbox_by_mailbox cfg now now_saved w :
  let w' := cleanupOldEmails cfg now now_saved w in
  (∀ a, getEmailsForAddress a w'
        = filter (fun msg => now - getTime (msg_date msg) < expiryTime cfg)
                 (getEmailsForAddress a w))
  ∧ (∀ a data, emails (mgr w) !! a = Some data →
       (emails (mgr w') !! a = None
        ↔ getEmailsForAddress a w' = []
          ∧ getTime (created data) < now - expiryTime cfg)
       ∧ (∀ data', emails (mgr w') !! a = Some data' →
            address data' = address data ∧ created data' = created data
            ∧ stats data' = stats data))
  ∧ (∀ a, emails (mgr w) !! a = None → emails (mgr w') !! a = None)
  ∧ mgr_stats (mgr w') = mgr_stats (mgr w).
Proof.
  intros w'. subst w'. split_and!.
  - intros a. rewrite getEmailsForAddress_cleanupOldEmails. unfold getEmailsForAddress.
    by destruct (emails (mgr w) !! a).
  - intros a data Hdata. split.
    + rewrite getEmailsForAddress_cleanupOldEmails, Hdata.
      by apply cleanupOldEmails_deletes_mailbox.
    + intros data' Hdata'.
      by rewrite (cleanupOldEmails_survivor _ _ _ _ _ _ _ Hdata Hdata').
  - apply cleanupOldEmails_no_new_mailbox.
  - apply fields_cleanupOldEmails.
Qed.

Lemma liveMessages_liveMessages ex now now' data :
  now ≤ now' →
  liveMessages ex now' (set_messages (liveMessages ex now data) data)
  = liveMessages ex now' data.
Proof.
  intros Hle. unfold liveMessages. cbn [messages set_messages].
  rewrite list_filter_filter. apply list_filter_iff. intros msg. lia.
Qed.

Lemma sweepMailbox_sweepMailbox ex now now' data :
  now ≤ now' →
  sweepMailbox ex now data ≫= sweepMailbox ex now' = sweepMailbox ex now' data.
Proof.
  intros Hle.
  assert (Hsub : liveMessages ex now data = [] → liveMessages ex now' data = []).
  { intros Hnil. rewrite <- (liveMessages_liveMessages ex now now') by done.
    unfold liveMessages at 1. cbn [messages set_messages]. by rewrite Hnil. }
  assert (Hstep : ∀ data0, sweepMailbox ex now data = Some data0 →
                           sweepMailbox ex now' data0 = sweepMailbox ex now' data).
  { intros data0 Hsome.
    assert (data0 = set_messages (liveMessages ex now data) data) as ->.
    { unfold sweepMailbox in Hsome. cbn zeta in Hsome.
      repeat case_decide; congruence. }
    unfold sweepMailbox. cbn zeta.
    rewrite liveMessages_liveMessages by done. cbn [created set_messages].
    repeat case_decide; try done; by destruct data. }
  destruct (sweepMailbox ex now data) as [data0|] eqn:Hfirst.
  - cbn. by apply Hstep.
  - cbn. unfold sweepMailbox in Hfirst. cbn zeta in Hfirst.
    case_decide as Hnil; [|done]. case_decide as Hage; [|done].
    apply nil_length_inv in Hnil.
    unfold sweepMailbox. cbn zeta. rewrite (Hsub Hnil). cbn [length].
    rewrite decide_True by done. by rewrite decide_True by lia.
Qed.

(** X8. A later sweep subsumes an earlier one: sweeping at [now] and then
    at a time [now'] not before it leaves the manager as one sweep at
    [now'] does. In particular a second sweep at the same time changes
    nothing. *)
Theorem X8_later_sweep_subsumes_earlier cfg now now' s s' w :
  now ≤ now' →
  mgr (cleanupOldEmails cfg now' s' (cleanupOldEmails cfg now s w))
  = mgr (cleanupOldEmails cfg now' s' w).
Proof.
  intros Hle.
  rewrite (mgr_cleanupOldEmails cfg now' s' (cleanupOldEmails cfg now s w)).
  rewrite (mgr_cleanupOldEmails cfg now' s' w).
  pose proof (emails_cleanupOldEmails cfg now' s' (cleanupOldEmails cfg now s w)) as H1.
  pose proof (emails_cleanupOldEmails cfg now' s' w) as H2.
  rewrite mgr_cleanupOldEmails in H1 at 1. rewrite mgr_cleanupOldEmails in H2.
  cbn [emails set_emails] in H1, H2. rewrite H1, H2.
  rewrite emails_cleanupOldEmails.
  destruct (fields_cleanupOldEmails cfg now s w) as (Hd & Hp & Hl & Hh & Hs).
  unfold set_emails. rewrite Hd, Hp, Hl, Hh, Hs. f_equal.
  apply map_eq. intros a. rewrite !lookup_omap.
  destruct (emails (mgr w) !! a) as [data|]; [|done]. cbn.
  by apply sweepMailbox_sweepMailbox.
Qed.

Lemma X8_later_sweep_subsumes_earlier_witness :
  mgr (cleanupOldEmails default_config (sweep_now + 7 * hour) 2
         (cleanupOldEmails default_config sweep_now 1 scenario_world))
  = mgr (cleanupOldEmails default_config (sweep_now + 7 * hour) 2 scenario_world).
Proof.
  apply (X8_later_sweep_subsumes_earlier default_config sweep_now
           (sweep_now + 7 * hour) 1 2 scenario_world).
  vm_compute. discriminate.
Defined.

(** ** Snapshots of snapshots *)

Lemma toISOString_toISOString d : toISOString (toISOString d) = toISOString d.
Proof. by destruct d. Qed.

Lemma json_roundtrip_json_roundtrip v :
  json_roundtrip (json_roundtrip v) = json_roundtrip v.
Proof.
  revert v. fix IH 1. intros [ | b | n | s | d | l | l]; cbn [json_roundtrip]; try done.
  - f_equal. induction l as [|x l IHl]; cbn [map]; [done|].
    f_equal; [apply IH | exact IHl].
  - f_equal. induction l as [|[k x] l IHl]; cbn [map]; [done|].
    f_equal; [f_equal; apply IH | exact IHl].
Qed.

Lemma message_toJSON_message_toJSON m :
  message_toJSON (message_toJSON m) = message_toJSON m.
Proof.
  unfold message_toJSON. cbn.
  by rewrite json_roundtrip_json_roundtrip, toISOString_toISOString.
Qed.

Lemma mailbox_toJSON_mailbox_toJSON e :
  mailbox_toJSON (mailbox_toJSON e) = mailbox_toJSON e.
Proof.
  unfold mailbox_toJSON. cbn. rewrite toISOString_toISOString. f_equal.
  rewrite map_map. apply map_ext. intros m. apply message_toJSON_message_toJSON.
Qed.

(** X9. The snapshot format is stable: what a manager holds after it has
    loaded a snapshot, it holds again, unchanged, after that state has been
    saved and loaded once more. The first load turns [Date]s into strings;
    a further save and load changes nothing at all. *)
Theorem X9_second_round_trip_is_identity cfg now now' w m0 m1 :
  SAVE_EMAILS cfg = true → writable w = true →
  let w1 := loadFromFile (set_mgr m0 (saveToFile cfg now w)) in
  let w2 := loadFromFile (set_mgr m1 (saveToFile cfg now' w1)) in
  emails (mgr w2) = emails (mgr w1) ∧ mgr_stats (mgr w2) = mgr_stats (mgr w1).
Proof.
  intros Hsave Hwritable w1 w2.
  destruct (loadFromFile_saveToFile cfg now w m0 Hsave Hwritable) as [Hemails1 Hstats1].
  fold w1 in Hemails1, Hstats1.
  assert (Hwritable1 : writable w1 = true).
  { subst w1. unfold loadFromFile. cbn [file set_mgr].
    rewrite file_saveToFile_enabled by done. cbn [writable set_mgr].
    by rewrite writable_saveToFile. }
  destruct (loadFromFile_saveToFile cfg now' w1 m1 Hsave Hwritable1) as [Hemails2 Hstats2].
  fold w2 in Hemails2, Hstats2.
  rewrite Hemails2, Hstats2, Hemails1, Hstats1. split.
  - rewrite <- map_fmap_compose. apply map_fmap_ext. intros a e _. cbn.
    apply mailbox_toJSON_mailbox_toJSON.
  - unfold stats_toJSON. cbn. by rewrite toISOString_toISOString.
Qed.

Lemma X9_second_round_trip_is_identity_witness :
  let w1 := loadFromFile (set_mgr (new_EmailManager 99)
                            (saveToFile small_config 80 busy_world)) in
  let w2 := loadFromFile (set_mgr (new_EmailManager 199)
                            (saveToFile small_config 180 w1)) in
  emails (mgr w2) = emails (mgr w1) ∧ mgr_stats (mgr w2) = mgr_stats (mgr w1).
Proof.
  apply (X9_second_round_trip_is_identity small_config 80 180 busy_world
           (new_EmailManager 99) (new_EmailManager 199)).
  - vm_compute. reflexivity.
  - vm_compute. reflexivity.
Defined.

(** X10. [getStats] computes [uptime] as [Date.now() - startTime]. On a
    manager whose [startTime] is the [Date] set by the constructor that is
    the time elapsed; on a server that has started from a checkpoint,
    [startTime] is the string of the file and [uptime] is not a number,
    while the counters reported are those of the checkpoint and
    [activeAddresses] is the number of mailboxes loaded. *)
Theorem X10_uptime_after_restart cfg t now detectedPublic detectedLocal w :
  SAVE_EMAILS cfg = true → checkpointed w →
  let w' := initialize cfg detectedPublic detectedLocal (restart t w) in
  st_uptime (getStats now (restart t w)) = Some (now - t)
  ∧ st_uptime (getStats now w') = None
  ∧ st_totalEmails (getStats now w') = totalEmails (mgr_stats (mgr w))
  ∧ st_totalAddresses (getStats now w') = totalAddresses (mgr_stats (mgr w))
  ∧ st_activeAddresses (getStats now w') = size (emails (mgr w)).
Proof.
  intros Hsave Hcheck w'.
  destruct (initialize_checkpointed cfg t detectedPublic detectedLocal w Hsave Hcheck)
    as [Hemails Hstats].
  fold w' in Hemails, Hstats. unfold getStats.
  cbn [st_uptime st_totalEmails st_totalAddresses st_activeAddresses].
  rewrite Hemails, Hstats. split_and!; try done.
  apply map_size_fmap.
Qed.

Lemma X10_uptime_after_restart_witness :
  let w := (receiveEmail small_config (sample_env 50) "bob@localhost"
              (sample_data "Hi") sample_world).2 in
  let w' := initialize small_config None [] (restart 90 w) in
  st_uptime (getStats 100 (restart 90 w)) = Some (100 - 90)
  ∧ st_uptime (getStats 100 w') = None
  ∧ st_totalEmails (getStats 100 w') = totalEmails (mgr_stats (mgr w))
  ∧ st_totalAddresses (getStats 100 w') = totalAddresses (mgr_stats (mgr w))
  ∧ st_activeAddresses (getStats 100 w') = size (emails (mgr w)).
Proof.
  intros w.
  apply (X10_uptime_after_restart small_config 90 100 None [] w).
  - vm_compute. reflexivity.
  - exists 53. vm_compute. reflexivity.
Defined.

(** ** The domain of an allocated address *)

Lemma domain_generateEmailAddress cfg g options m :
  ai_domain (generateEmailAddress cfg g options m).1
  = chooseDomain g (opt_domain options) (default "public"%string (opt_type options)) m.
Proof. done. Qed.

Lemma domains_generateEmailAddress cfg g options m :
  domains (generateEmailAddress cfg g options m).2 = domains m
  ∧ publicIP (generateEmailAddress cfg g options m).2 = publicIP m
  ∧ localIPs (generateEmailAddress cfg g options m).2 = localIPs m.
Proof.
  unfold generateEmailAddress. cbn [snd domains publicIP localIPs].
  by destruct (emails m !! _).
Qed.

Lemma chooseDomain_known g preferredDomain type m :
  knows_its_domains m → chooseDomain g preferredDomain type m ∈ domains m.
Proof.
  intros [Hlocalhost Hpublic]. unfold chooseDomain. cbn zeta.
  destruct (truthy preferredDomain && bool_decide (default ""%string preferredDomain ∈ domains m))
    eqn:Hpreferred.
  { apply andb_true_iff in Hpreferred as [_ Hin]. by apply bool_decide_eq_true in Hin. }
  destruct (bool_decide (type = "public"%string) && truthy (publicIP m)) eqn:Hpub.
  { apply andb_true_iff in Hpub as [_ Htruthy].
    destruct (publicIP m) as [ip|] eqn:Hip; [|done]. cbn in *.
    apply bool_decide_eq_true in Htruthy. by apply Hpublic. }
  destruct (bool_decide (type = "local"%string)).
  { destruct (filter _ (domains m)) as [|d0 l] eqn:Hfilter; [done|].
    assert (d0 ∈ filter (fun d => Some d ≠ publicIP m ∧ d ≠ "localhost"%string) (domains m))
      as Hd0 by (rewrite Hfilter; left).
    by apply list_elem_of_filter in Hd0 as [_ ?]. }
  apply element_in. intros Hnil. rewrite Hnil in Hlocalhost. by apply elem_of_nil in Hlocalhost.
Qed.



(** X12. Through [GET /api/email/generate], a request whose [type] is
    anything but ['public'], and whose [domain] is absent, empty or not a
    domain of the manager, is never given the public address: the domain
    is the first one of the manager that is neither the public address nor
    [localhost], and [localhost] if there is none; the answer says
    [isPublic = false]. *)
Theorem X12_local_request_never_public cfg g q ty m :
  q_type q = Some ty → ty ≠ "public"%string →
  truthy (q_domain q) && bool_decide (default ""%string (q_domain q) ∈ domains m) = false →
  publicIP m ≠ Some "localhost"%string →
  let info := (api_generate cfg g q m).1 in
  ai_domain info
  = match filter (fun d => Some d ≠ publicIP m ∧ d ≠ "localhost"%string) (domains m) with
    | d0 :: _ => d0
    | [] => "localhost"%string
    end
  ∧ Some (ai_domain info) ≠ publicIP m
  ∧ ai_isPublic info = false.
Proof.
  intros Hty Hne Hpreferred Hlocalhost info.
  assert (Hdomain : ai_domain info
    = match filter (fun d => Some d ≠ publicIP m ∧ d ≠ "localhost"%string) (domains m) with
      | d0 :: _ => d0
      | [] => "localhost"%string
      end).
  { subst info. unfold api_generate. rewrite Hty. cbn [default].
    rewrite decide_False by done.
    rewrite domain_generateEmailAddress. cbn [opt_domain opt_type default].
    unfold chooseDomain. cbn zeta. rewrite Hpreferred. done. }
  assert (Hnotpublic : Some (ai_domain info) ≠ publicIP m).
  { rewrite Hdomain.
    destruct (filter _ (domains m)) as [|d0 l] eqn:Hfilter; [congruence|].
    assert (d0 ∈ filter (fun d => Some d ≠ publicIP m ∧ d ≠ "localhost"%string) (domains m))
      as Hd0 by (rewrite Hfilter; left).
    by apply list_elem_of_filter in Hd0 as [[? _] _]. }
  split_and!; [done | done |].
  subst info. unfold api_generate, generateEmailAddress in *. cbn [fst ai_isPublic ai_domain] in *.
  by apply bool_decide_eq_false.
Qed.

Lemma X12_local_request_never_public_witness :
  let m := (initialize default_config (Some "203.0.113.7"%string)
              ["192.168.1.20"%string] sample_world) in
  let info := (api_generate default_config sample_alloc
                 {| q_type := Some "anything"%string; q_username := None;
                    q_domain := Some ""%string |} (mgr m)).1 in
  ai_domain info
  = match filter (fun d => Some d ≠ publicIP (mgr m) ∧ d ≠ "localhost"%string)
                 (domains (mgr m)) with
    | d0 :: _ => d0
    | [] => "localhost"%string
    end
  ∧ Some (ai_domain info) ≠ publicIP (mgr m)
  ∧ ai_isPublic info = false.
Proof.
  intros m.
  apply (X12_local_request_never_public default_config sample_alloc _ "anything" (mgr m)).
  - reflexivity.
  - discriminate.
  - vm_compute. reflexivity.
  - vm_compute. discriminate.
Defined.

Example api_generate_sample :
  let m := mgr (initialize default_config (Some "203.0.113.7"%string)
                  ["192.168.1.20"%string] sample_world) in
  domains m = ["localhost"; "203.0.113.7"; "192.168.1.20"]%string
  ∧ ai_email (api_generate default_config sample_alloc
                {| q_type := None; q_username := Some "bob"%string;
                   q_domain := Some ""%string |} m).1 = "bob@203.0.113.7"%string
  ∧ ai_email (api_generate default_config sample_alloc
                {| q_type := Some "local"%string; q_username := Some "bob"%string;
                   q_domain := Some ""%string |} m).1 = "bob@192.168.1.20"%string
  ∧ ai_email (api_generate default_config sample_alloc
                {| q_type := Some "local"%string; q_username := Some "bob"%string;
                   q_domain := Some "203.0.113.7"%string |} m).1
    = "bob@203.0.113.7"%string.
Proof. vm_compute. done. Qed.

(** ** Domains seen in a delivery attempt *)

Lemma split_on_no_sep sep s :
  sep ∉ list_ascii_of_string s → split_on sep s = [s].
Proof.
  induction s as [|c s IH]; [done|]. cbn [list_ascii_of_string split_on].
  intros [Hc Hs]%not_elem_of_cons.
  rewrite decide_False by done. by rewrite IH.
Qed.

Lemma split_on_app sep l r :
  sep ∉ list_ascii_of_string l →
  split_on sep (l +:+ String sep r) = l :: split_on sep r.
Proof.
  induction l as [|c l IH].
  - intros _. cbn [split_on String.append]. change (""%string +:+ String sep r) with (String sep r).
    cbn [split_on]. by rewrite decide_True.
  - cbn [list_ascii_of_string]. intros [Hc Hl]%not_elem_of_cons.
    rewrite append_String. cbn [split_on]. rewrite decide_False by done.
    by rewrite IH.
Qed.

Lemma Set_add_spec d ds :
  d ∈ Set_add d ds
  ∧ (∀ x, x ∈ ds → x ∈ Set_add d ds)
  ∧ (∀ x, x ∈ Set_add d ds → x = d ∨ x ∈ ds)
  ∧ (NoDup ds → NoDup (Set_add d ds)).
Proof.
  unfold Set_add. case_decide as Hin.
  - split_and!; auto.
  - split_and!.
    + apply elem_of_app. right. left.
    + intros x Hx. apply elem_of_app. by left.
    + intros x [Hx|Hx%list_elem_of_singleton]%elem_of_app; auto.
    + intros Hnodup. apply NoDup_app. split_and!; [done | | apply NoDup_singleton].
      intros x Hx ->%list_elem_of_singleton. done.
Qed.

(** What a running process does to its domains: it adds to them. *)
Lemma domains_serve cfg r w w' :
  keeps_process r → serve cfg r w = Some w' →
  ∀ d, d ∈ domains (mgr w) → d ∈ domains (mgr w').
Proof.
  intros Hr Hserve d Hd.
  destruct r as [rcpt|e a data|g q|now a id|now a id|now a|now now_saved| |ok];
    cbn [serve] in Hserve; [| | | | | | |done|].
  - unfold onRcptTo in Hserve.
    destruct (split_on "@" rcpt !! 1%nat) as [domain|]; [|done].
    injection Hserve as <-. cbn [mgr set_mgr domains].
    destruct (Set_add_spec domain (domains (mgr w))) as (_ & Hmono & _). by apply Hmono.
  - injection Hserve as <-. unfold receiveEmail, ensureMailbox.
    destruct (emails (mgr w) !! a); cbn [fst snd]; by rewrite mgr_saveToFile.
  - assert (w' = set_mgr (api_generate cfg g q (mgr w)).2 w) as -> by congruence.
    change (d ∈ domains (api_generate cfg g q (mgr w)).2).
    assert (domains (api_generate cfg g q (mgr w)).2 = domains (mgr w)) as ->
      by apply domains_generateEmailAddress.
    done.
  - injection Hserve as <-. markAsRead_cases w a entry i msg; try done.
    by rewrite mgr_saveToFile.
  - injection Hserve as <-. unfold deleteEmail.
    destruct (emails (mgr w) !! a); [|done]. cbn zeta.
    case_decide; cbn [snd]; by rewrite ?mgr_saveToFile.
  - injection Hserve as <-. unfold deleteAllEmails.
    destruct (emails (mgr w) !! a); [|done]. cbn [snd]. by rewrite mgr_saveToFile.
  - injection Hserve as <-.
    by destruct (fields_cleanupOldEmails cfg now now_saved w) as [-> _].
  - by injection Hserve as <-.
Qed.

Lemma domains_serve_all cfg rs w :
  Forall keeps_process rs →
  ∀ d, d ∈ domains (mgr w) → d ∈ domains (mgr (serve_all cfg rs w)).
Proof.
  revert w. induction rs as [|r rs IH]; intros w Hrs d Hd; [done|].
  apply Forall_cons in Hrs as [Hr Hrs]. cbn [serve_all foldl].
  apply (IH _ Hrs). destruct (serve cfg r w) as [w'|] eqn:Hserve; [|done].
  cbn [default]. by eapply domains_serve.
Qed.

(** The domains of a process that has just started: [localhost] and the
    addresses it has detected, nothing of what an earlier process had
    seen. *)
Lemma domains_after_restart cfg now detectedPublic detectedLocal w d :
  d ∈ domains (mgr (initialize cfg detectedPublic detectedLocal (restart now w))) →
  d = "localhost"%string ∨ detectedPublic = Some d ∨ d ∈ detectedLocal.
Proof.
  assert (Hfold : ∀ ls ds x, x ∈ foldl (fun acc ip => Set_add ip acc) ds ls →
                             x ∈ ds ∨ x ∈ ls).
  { induction ls as [|ip ls IH]; intros ds x; cbn [foldl]; [by left|].
    intros [Hx|Hx]%IH; [|right; by right].
    destruct (Set_add_spec ip ds) as (_ & _ & Hinv & _).
    destruct (Hinv x Hx) as [->|?]; [right; by left | by left]. }
  assert (Hds : domains (mgr (initialize cfg detectedPublic detectedLocal (restart now w)))
                = foldl (fun acc ip => Set_add ip acc)
                    (match detectedPublic with
                     | Some ip => if decide (ip = ""%string) then ["localhost"%string]
                                  else Set_add ip ["localhost"%string]
                     | None => ["localhost"%string]
                     end) ([] ++ detectedLocal)).
  { unfold initialize, restart. cbn [mgr set_mgr new_EmailManager domains localIPs].
    destruct (SAVE_EMAILS cfg && existsSync _); [|done].
    unfold loadFromFile. cbn [file set_mgr]. by destruct (file w). }
  rewrite Hds. intros [Hd|Hd]%Hfold; [|by right; right].
  destruct detectedPublic as [ip|].
  - case_decide.
    + apply list_elem_of_singleton in Hd. by left.
    + destruct (Set_add_spec ip ["localhost"%string]) as (_ & _ & Hinv & _).
      destruct (Hinv d Hd) as [->|Hl%list_elem_of_singleton]; [right; by left | by left].
  - apply list_elem_of_singleton in Hd. by left.
Qed.

(** X13. A recipient [local@domain] (one [@]) that is offered to the SMTP
    server makes its domain a domain of the manager, exactly as written:
    the domains that were known stay, none is listed twice, the mailboxes
    are untouched, and an allocation that asks for that domain gets it,
    whatever its type: at once, and after whatever the running process
    serves next. The domains are not part of the snapshot: in a process
    that starts anew, on whatever state the earlier one has left, the domain
    is known only if it is [localhost] or one of the addresses detected at
    the start. *)
Theorem X13_seen_domain_can_be_allocated local domain m :
  "@"%char ∉ list_ascii_of_string local →
  "@"%char ∉ list_ascii_of_string domain →
  ∃ m', onRcptTo (local +:+ "@" +:+ domain) m = Some m'
        ∧ domains m' = Set_add domain (domains m)
        ∧ domain ∈ domains m'
        ∧ (∀ d, d ∈ domains m → d ∈ domains m')
        ∧ (NoDup (domains m) → NoDup (domains m'))
        ∧ emails m' = emails m
        ∧ (domain ≠ ""%string →
           ∀ cfg g options, opt_domain options = Some domain →
             ai_domain (generateEmailAddress cfg g options m').1 = domain)
        ∧ (domain ≠ ""%string →
           ∀ cfg w rs, Forall keeps_process rs →
             domain ∈ domains (mgr (serve_all cfg rs (set_mgr m' w)))
             ∧ ∀ cfg' g options, opt_domain options = Some domain →
                 ai_domain (generateEmailAddress cfg' g options
                              (mgr (serve_all cfg rs (set_mgr m' w)))).1 = domain)
        ∧ (∀ cfg w now detectedPublic detectedLocal,
             domain ∈ domains (mgr (initialize cfg detectedPublic detectedLocal
                                      (restart now w))) →
             domain = "localhost"%string ∨ detectedPublic = Some domain
             ∨ domain ∈ detectedLocal).
Proof.
  intros Hlocal Hdomain. unfold onRcptTo.
  change (local +:+ "@" +:+ domain) with (local +:+ String "@" domain).
  rewrite split_on_app, split_on_no_sep by done. cbn [lookup list_lookup].
  eexists. split; [done|]. cbn [domains emails].
  destruct (Set_add_spec domain (domains m)) as (Hin & Hmono & _ & Hnodup).
  assert (Hasked : ∀ m0, domain ≠ ""%string → domain ∈ domains m0 →
            ∀ cfg g options, opt_domain options = Some domain →
              ai_domain (generateEmailAddress cfg g options m0).1 = domain).
  { intros m0 Hne Hm0 cfg g options Hopt.
    rewrite domain_generateEmailAddress, Hopt. unfold chooseDomain. cbn [default truthy].
    rewrite (bool_decide_eq_true_2 (domain ≠ ""%string)) by done.
    by rewrite (bool_decide_eq_true_2 (domain ∈ domains m0)) by done. }
  split_and!; try done.
  - intros Hne. by apply Hasked.
  - intros Hne cfg w rs Hrs.
    assert (domain ∈ domains (mgr (serve_all cfg rs (set_mgr
              {| emails := emails m; domains := Set_add domain (domains m);
                 publicIP := publicIP m; localIPs := localIPs m;
                 domainHistory := domainHistory m; mgr_stats := mgr_stats m |} w))))
      as Hlater by (by apply domains_serve_all).
    split; [done|]. by apply Hasked.
  - intros cfg w now detectedPublic detectedLocal. apply domains_after_restart.
Qed.

Lemma X13_seen_domain_can_be_allocated_witness :
  ∃ m', onRcptTo ("Bob" +:+ "@" +:+ "Mail.Example.COM") (new_EmailManager 0) = Some m'
        ∧ "Mail.Example.COM"%string ∈ domains m'
        ∧ emails m' = emails (new_EmailManager 0)
        ∧ ai_domain (generateEmailAddress small_config sample_alloc
                       {| opt_username := Some "carol"%string;
                          opt_domain := Some "Mail.Example.COM"%string;
                          opt_type := Some "local"%string |}
                       (mgr (serve_all small_config
                               [ReqDeliver (sample_env 10) "bob@Mail.Example.COM"
                                  (sample_data "one");
                                ReqSweep 20 21]
                               (set_mgr m' sample_world)))).1
          = "Mail.Example.COM"%string.
Proof.
  destruct (X13_seen_domain_can_be_allocated "Bob" "Mail.Example.COM" (new_EmailManager 0))
    as (m' & Hm' & _ & Hin & _ & _ & Hemails & _ & Hlater & _).
  - vm_compute. intros Hin. repeat (apply elem_of_cons in Hin as [Hin|Hin]; [discriminate|]).
    by apply elem_of_nil in Hin.
  - vm_compute. intros Hin. repeat (apply elem_of_cons in Hin as [Hin|Hin]; [discriminate|]).
    by apply elem_of_nil in Hin.
  - exists m'. split_and!; [done..|].
    apply Hlater; [done | | done].
    repeat constructor.
Defined.

(** After a new start the domain of the recipient is no longer known, and
    the same request is given [localhost]. *)
Example seen_domain_is_forgotten :
  let m' := default (new_EmailManager 0)
              (onRcptTo "Bob@Mail.Example.COM" (new_EmailManager 0)) in
  let w := serve_all small_config [ReqRestart 40 None []] (set_mgr m' sample_world) in
  "Mail.Example.COM"%string ∈ domains m'
  ∧ domains (mgr w) = ["localhost"%string]
  ∧ ai_email (generateEmailAddress small_config sample_alloc
                {| opt_username := Some "carol"%string;
                   opt_domain := Some "Mail.Example.COM"%string;
                   opt_type := Some "local"%string |} (mgr w)).1
    = "carol@localhost"%string.
Proof.
  vm_compute. split_and!; [|done..]. right. left.
Qed.

Example split_on_sample :
  split_on "@" "a@b@c" = ["a"; "b"; "c"]%string
  ∧ split_on "@" "nobody" = ["nobody"%string]
  ∧ split_on "@" "" = [""%string]
  ∧ split_on "@" "x@" = ["x"; ""]%string
  ∧ onRcptTo "nobody" (new_EmailManager 0) = None.
Proof. vm_compute. done. Qed.

(** * An invariant of the server *)

(** ** Counting under sublists *)

Lemma filter_sublist_mono {A} (P : A → Prop) `{!∀ x, Decision (P x)} (l1 l2 : list A) :
  l1 `sublist_of` l2 → filter P l1 `sublist_of` filter P l2.
Proof.
  induction 1 as [|x l1 l2 _ IH|x l1 l2 _ IH].
  - constructor.
  - destruct (decide (P x)).
    + rewrite !filter_cons_True by done. by constructor.
    + by rewrite !filter_cons_False.
  - destruct (decide (P x)).
    + rewrite filter_cons_True by done. by constructor.
    + by rewrite filter_cons_False.
Qed.

Lemma Forall_sublist_of {A} (P : A → Prop) (l1 l2 : list A) :
  l1 `sublist_of` l2 → Forall P l2 → Forall P l1.
Proof.
  induction 1 as [|x l1 l2 _ IH|x l1 l2 _ IH]; [done| |].
  - intros [? ?]%Forall_cons. constructor; auto.
  - intros [? ?]%Forall_cons. auto.
Qed.

Lemma counts_sublist l1 l2 :
  l1 `sublist_of` l2 →
  (unreadCount l1 ≤ unreadCount l2)%nat ∧ (readCount l1 ≤ readCount l2)%nat.
Proof.
  intros Hsub. unfold unreadCount, readCount.
  split; apply sublist_length; by apply filter_sublist_mono.
Qed.

Lemma counts_cons_unread msg l :
  msg_read msg = false →
  unreadCount (msg :: l) = S (unreadCount l) ∧ readCount (msg :: l) = readCount l.
Proof.
  intros Hunread. unfold unreadCount, readCount.
  rewrite filter_cons_True by done.
  rewrite filter_cons_False by (rewrite Hunread; discriminate). done.
Qed.

(** Marking an unread message moves one from the unread to the read. *)
Lemma counts_mark l i msg :
  l !! i = Some msg → msg_read msg = false →
  S (unreadCount (<[i := set_read true msg]> l)) = unreadCount l
  ∧ readCount (<[i := set_read true msg]> l) = S (readCount l).
Proof.
  intros Hi Hunread.
  rewrite insert_take_drop by (by eapply lookup_lt_Some).
  pose proof (take_drop_middle l i msg Hi) as Hl.
  revert Hl. generalize (take i l) (drop (S i) l). intros l1 l2 <-.
  unfold unreadCount, readCount. rewrite !filter_app, !length_app.
  rewrite (filter_cons_False _ (set_read true msg)) by (cbn; discriminate).
  rewrite (filter_cons_True _ msg) by done.
  rewrite (filter_cons_True _ (set_read true msg)) by done.
  rewrite (filter_cons_False _ msg) by (rewrite Hunread; discriminate).
  cbn [length]. lia.
Qed.

(** ** Mailboxes *)

Lemma mailbox_sound_new cfg a now : mailbox_sound cfg a (new_mailbox a now).
Proof.
  unfold mailbox_sound, new_mailbox, unreadCount, readCount. cbn.
  split_and!; try done. intros. lia.
Qed.

Lemma mailbox_sound_sublist cfg a mb l :
  mailbox_sound cfg a mb → l `sublist_of` messages mb →
  mailbox_sound cfg a (set_messages l mb).
Proof.
  intros (Haddr & Hto & Hread & Hunread & Hcap) Hsub.
  destruct (counts_sublist _ _ Hsub) as [Hu Hr].
  pose proof (sublist_length _ _ Hsub) as Hlen.
  unfold mailbox_sound. cbn [address messages stats set_messages].
  split_and!; [done | by eapply Forall_sublist_of | lia | lia |].
  intros Hmax. specialize (Hcap Hmax). lia.
Qed.

Lemma slice0_take {A} (l : list A) (n : Z) : ∃ k, slice0 l n = take k l.
Proof. unfold slice0. case_decide; eauto. Qed.

Lemma mailbox_sound_deposit cfg a mb msg :
  mailbox_sound cfg a mb → msg_to msg = a → msg_read msg = false →
  mailbox_sound cfg a (deposit cfg msg mb).
Proof.
  intros (Haddr & Hto & Hread & Hunread & Hcap) Hmsg Hflag.
  destruct (counts_cons_unread msg (messages mb) Hflag) as [Hu Hr].
  assert (Hprefix : ∃ k, messages (deposit cfg msg mb) = take k (msg :: messages mb)
                         ∧ (0 < MAX_EMAILS_PER_ADDRESS cfg →
                            (length (take k (msg :: messages mb))
                             ≤ Z.to_nat (MAX_EMAILS_PER_ADDRESS cfg))%nat)).
  { unfold deposit. cbn [messages]. case_decide as Hlen.
    - unfold slice0. case_decide.
      + eexists. split; [done|]. intros. lia.
      + eexists. split; [done|]. intros _. rewrite length_take. lia.
    - exists (length (msg :: messages mb)). split; [by rewrite firstn_all|].
      intros _. rewrite firstn_all. lia. }
  destruct Hprefix as (k & Hk & Hlen).
  destruct (counts_sublist _ _ (sublist_take (msg :: messages mb) k)) as [Hu' Hr'].
  unfold mailbox_sound. rewrite Hk.
  unfold deposit at 1 2 3 4. cbn [address stats received read].
  split_and!; [done | | lia | lia | done].
  apply Forall_take. by constructor.
Qed.

Lemma mailbox_sound_mark cfg a mb i msg :
  mailbox_sound cfg a mb → messages mb !! i = Some msg → msg_read msg = false →
  mailbox_sound cfg a
    {| address := address mb; created := created mb;
       messages := <[i := set_read true msg]> (messages mb);
       stats := {| received := received (stats mb); read := read (stats mb) + 1 |} |}.
Proof.
  intros (Haddr & Hto & Hread & Hunread & Hcap) Hi Hflag.
  destruct (counts_mark _ _ _ Hi Hflag) as [Hu Hr].
  unfold mailbox_sound. cbn [address messages stats received read].
  split_and!; [done | | lia | lia | by rewrite length_insert].
  apply Forall_insert; [done|]. cbn.
  rewrite Forall_forall in Hto. apply Hto. by eapply list_elem_of_lookup_2.
Qed.

Lemma counts_toJSON l :
  unreadCount (map message_toJSON l) = unreadCount l
  ∧ readCount (map message_toJSON l) = readCount l.
Proof.
  unfold unreadCount, readCount.
  induction l as [|m l [IHu IHr]]; [done|]. cbn [map].
  destruct (msg_read m) eqn:Hm.
  - rewrite (filter_cons_False _ (message_toJSON m)) by (cbn; rewrite Hm; discriminate).
    rewrite (filter_cons_False _ m) by (rewrite Hm; discriminate).
    rewrite (filter_cons_True _ (message_toJSON m)) by done.
    rewrite (filter_cons_True _ m) by done. cbn [length]. by rewrite IHu, IHr.
  - rewrite (filter_cons_True _ (message_toJSON m)) by done.
    rewrite (filter_cons_True _ m) by done.
    rewrite (filter_cons_False _ (message_toJSON m)) by (cbn; rewrite Hm; discriminate).
    rewrite (filter_cons_False _ m) by (rewrite Hm; discriminate).
    cbn [length]. by rewrite IHu, IHr.
Qed.

Lemma mailbox_sound_toJSON cfg a mb :
  mailbox_sound cfg a mb → mailbox_sound cfg a (mailbox_toJSON mb).
Proof.
  intros (Haddr & Hto & Hread & Hunread & Hcap).
  destruct (counts_toJSON (messages mb)) as [Hu Hr].
  unfold mailbox_sound, mailbox_toJSON. cbn [address messages stats].
  rewrite Hu, Hr, length_map. split_and!; try done.
  change (map message_toJSON (messages mb)) with (message_toJSON <$> messages mb).
  apply Forall_fmap. by eapply Forall_impl.
Qed.

(** ** Stores *)

Lemma store_sound_update cfg em st st' a mb :
  store_sound cfg em st → is_Some (em !! a) → mailbox_sound cfg a mb →
  totalAddresses st ≤ totalAddresses st' →
  store_sound cfg (<[a := mb]> em) st'.
Proof.
  intros [Hall Hsize] [old Hold] Hmb Hle. split.
  - intros a' mb'. destruct (decide (a = a')) as [<-|Hne].
    + rewrite lookup_insert_eq. by intros [= <-].
    + rewrite lookup_insert_ne by done. apply Hall.
  - erewrite map_size_insert_Some by done. lia.
Qed.

Lemma store_sound_new cfg em st st' a mb :
  store_sound cfg em st → em !! a = None → mailbox_sound cfg a mb →
  totalAddresses st + 1 ≤ totalAddresses st' →
  store_sound cfg (<[a := mb]> em) st'.
Proof.
  intros [Hall Hsize] Hnone Hmb Hle. split.
  - intros a' mb'. destruct (decide (a = a')) as [<-|Hne].
    + rewrite lookup_insert_eq. by intros [= <-].
    + rewrite lookup_insert_ne by done. apply Hall.
  - rewrite map_size_insert_None by done. lia.
Qed.

Lemma store_sound_omap cfg em st (f : mailbox → option mailbox) :
  store_sound cfg em st →
  (∀ a mb mb', mailbox_sound cfg a mb → f mb = Some mb' → mailbox_sound cfg a mb') →
  store_sound cfg (omap f em) st.
Proof.
  intros [Hall Hsize] Hf. split.
  - intros a mb'. rewrite lookup_omap.
    destruct (em !! a) as [mb|] eqn:Hmb; [|done]. cbn. intros Hsome.
    eapply Hf; [|done]. by apply Hall.
  - pose proof (subseteq_size _ _ (dom_omap_subseteq f em)) as Hdom.
    rewrite !size_dom in Hdom. lia.
Qed.

Lemma store_sound_toJSON cfg em st :
  store_sound cfg em st → store_sound cfg (mailbox_toJSON <$> em) (stats_toJSON st).
Proof.
  intros [Hall Hsize]. split.
  - intros a mb'. rewrite lookup_fmap.
    destruct (em !! a) as [mb|] eqn:Hmb; [|done]. cbn. intros [= <-].
    apply mailbox_sound_toJSON. by apply Hall.
  - by rewrite map_size_fmap.
Qed.

Lemma store_sound_empty cfg now :
  store_sound cfg ∅ {| totalEmails := 0; totalAddresses := 0; startTime := DateObj now |}.
Proof. split; [by intros a mb | done]. Qed.

(** ** Server states *)

Lemma file_saveToFile_cases cfg now w :
  file (saveToFile cfg now w) = file w
  ∨ file (saveToFile cfg now w) = Snapshot (file_data_of now (mgr w)).
Proof. unfold saveToFile. repeat case_match; auto. Qed.

(** A step that leaves the domains alone, keeps the store sound and
    leaves in the file what was there or a snapshot of the new manager. *)
Lemma world_sound_step cfg w w' :
  world_sound cfg w →
  store_sound cfg (emails (mgr w')) (mgr_stats (mgr w')) →
  domains (mgr w') = domains (mgr w) → publicIP (mgr w') = publicIP (mgr w) →
  (file w' = file w ∨ ∃ now, file w' = Snapshot (file_data_of now (mgr w'))) →
  world_sound cfg w'.
Proof.
  intros (Hstore & [Hknows Hnodup] & Hfile) Hstore' Hd Hp Hfile'.
  split_and!; [done | | |].
  - unfold knows_its_domains. by rewrite Hd, Hp.
  - by rewrite Hd.
  - intros data Hdata. destruct Hfile' as [Hsame|[now Hnew]].
    + apply Hfile. by rewrite <- Hsame.
    + rewrite Hnew in Hdata. injection Hdata as <-. by exists now, (mgr w').
Qed.

(** The same for a step that ends with [saveToFile]. *)
Lemma world_sound_saved cfg now w w1 :
  world_sound cfg w →
  store_sound cfg (emails (mgr w1)) (mgr_stats (mgr w1)) →
  domains (mgr w1) = domains (mgr w) → publicIP (mgr w1) = publicIP (mgr w) →
  file w1 = file w →
  world_sound cfg (saveToFile cfg now w1).
Proof.
  intros Hw Hstore Hd Hp Hfile.
  apply (world_sound_step cfg w); rewrite ?mgr_saveToFile; try done.
  destruct (file_saveToFile_cases cfg now w1) as [->| ->]; [by left|]. right. by exists now.
Qed.

Lemma world_sound_receiveEmail cfg e a d w :
  world_sound cfg w → world_sound cfg (receiveEmail cfg e a d w).2.
Proof.
  intros Hw. pose proof Hw as (Hstore & _ & _).
  unfold receiveEmail, ensureMailbox.
  destruct (emails (mgr w) !! a) as [entry|] eqn:Hentry; cbn [fst snd].
  - apply (world_sound_saved cfg _ w); try done.
    cbn [mgr set_mgr emails set_emails set_mgr_stats mgr_stats].
    eapply store_sound_update; [exact Hstore | by eexists | | done].
    apply mailbox_sound_deposit; [|done..]. by apply Hstore.
  - apply (world_sound_saved cfg _ w); try done.
    cbn [mgr set_mgr emails set_emails set_mgr_stats mgr_stats].
    rewrite insert_insert_eq.
    eapply store_sound_new; [exact Hstore | done | | cbn; lia].
    apply mailbox_sound_deposit; [|done..]. apply mailbox_sound_new.
Qed.

Lemma world_sound_generateEmailAddress cfg g options w :
  world_sound cfg w →
  world_sound cfg (set_mgr (generateEmailAddress cfg g options (mgr w)).2 w).
Proof.
  intros Hw. pose proof Hw as (Hstore & _ & _).
  destruct (domains_generateEmailAddress cfg g options (mgr w)) as (Hd & Hp & _).
  apply (world_sound_step cfg w); cbn [mgr set_mgr file]; try done; [|by left].
  unfold generateEmailAddress. cbn [snd emails mgr_stats].
  set (email := chooseUsername g (opt_username options) +:+ "@" +:+ _).
  destruct (emails (mgr w) !! email) as [entry|] eqn:Hentry; [done|].
  cbn [emails set_emails set_mgr_stats mgr_stats].
  eapply store_sound_new; [exact Hstore | done | apply mailbox_sound_new | cbn; lia].
Qed.

Lemma world_sound_markAsRead cfg now a id w :
  world_sound cfg w → world_sound cfg (markAsRead cfg now a id w).2.
Proof.
  intros Hw. pose proof Hw as (Hstore & _ & _).
  markAsRead_cases w a entry i msg; try done.
  apply (world_sound_saved cfg _ w); try done.
  cbn [mgr set_mgr emails set_emails mgr_stats].
  eapply store_sound_update; [exact Hstore | by eexists | | done].
  match goal with H : list_find _ _ = Some _ |- _ =>
    apply list_find_Some in H as (Hi & _ & _) end.
  apply mailbox_sound_mark; [by apply Hstore | done | done].
Qed.

Lemma world_sound_deleteEmail cfg now a id w :
  world_sound cfg w → world_sound cfg (deleteEmail cfg now a id w).2.
Proof.
  intros Hw. pose proof Hw as (Hstore & _ & _).
  destruct (emails (mgr w) !! a) as [entry|] eqn:Hentry.
  - rewrite (deleteEmail_known _ _ _ _ _ _ Hentry). cbn zeta.
    case_decide; [|done]. cbn [snd].
    apply (world_sound_saved cfg _ w); try done.
    cbn [mgr set_mgr emails set_emails mgr_stats].
    eapply store_sound_update; [exact Hstore | by eexists | | done].
    apply mailbox_sound_sublist; [by apply Hstore | apply sublist_filter].
  - unfold deleteEmail. by rewrite Hentry.
Qed.

Lemma world_sound_deleteAllEmails cfg now a w :
  world_sound cfg w → world_sound cfg (deleteAllEmails cfg now a w).2.
Proof.
  intros Hw. pose proof Hw as (Hstore & _ & _).
  unfold deleteAllEmails.
  destruct (emails (mgr w) !! a) as [entry|] eqn:Hentry; [|done]. cbn [snd].
  apply (world_sound_saved cfg _ w); try done.
  cbn [mgr set_mgr emails set_emails mgr_stats].
  eapply store_sound_update; [exact Hstore | by eexists | | done].
  apply mailbox_sound_sublist; [by apply Hstore | apply sublist_nil_l].
Qed.

Lemma world_sound_cleanupOldEmails cfg now now_saved w :
  world_sound cfg w → world_sound cfg (cleanupOldEmails cfg now now_saved w).
Proof.
  intros Hw. pose proof Hw as (Hstore & _ & _).
  destruct (fields_cleanupOldEmails cfg now now_saved w) as (Hd & Hp & _ & _ & Hs).
  apply (world_sound_step cfg w); try done.
  - rewrite emails_cleanupOldEmails, Hs.
    apply store_sound_omap; [done|].
    intros a mb mb' Hmb Hsweep.
    assert (mb' = set_messages (liveMessages (expiryTime cfg) now mb) mb) as ->.
    { unfold sweepMailbox in Hsweep. cbn zeta in Hsweep.
      repeat case_decide; congruence. }
    apply mailbox_sound_sublist; [done | apply sublist_filter].
  - rewrite cleanupOldEmails_save. cbn zeta. case_decide; [|by left].
    destruct (file_saveToFile_cases cfg now_saved
                (set_mgr (mgr (cleanupOldEmails cfg now now_saved w)) w)) as [->| Hsnap];
      [by left|].
    right. exists now_saved. by rewrite mgr_saveToFile, Hsnap.
Qed.

Lemma foldl_Set_add (ls ds : list string) :
  (∀ x, x ∈ ds → x ∈ foldl (fun acc ip => Set_add ip acc) ds ls)
  ∧ (NoDup ds → NoDup (foldl (fun acc ip => Set_add ip acc) ds ls)).
Proof.
  revert ds. induction ls as [|ip ls IH]; intros ds; [done|]. cbn [foldl].
  destruct (IH (Set_add ip ds)) as [Hin Hnodup].
  destruct (Set_add_spec ip ds) as (_ & Hmono & _ & Hnd).
  split; auto.
Qed.

(** [initialize] on a new manager: [localhost] and the public address, if
    there is one, are among the domains, and none is listed twice. *)
Lemma domains_initialize cfg now detectedPublic detectedLocal w :
  let m := mgr (initialize cfg detectedPublic detectedLocal (restart now w)) in
  knows_its_domains m ∧ NoDup (domains m) ∧ publicIP m = detectedPublic.
Proof.
  intros m.
  assert (Hm : ∃ w0, m = mgr w0
                     ∧ domains (mgr w0)
                       = foldl (fun acc ip => Set_add ip acc)
                           (match detectedPublic with
                            | Some ip => if decide (ip = ""%string)
                                         then ["localhost"%string]
                                         else Set_add ip ["localhost"%string]
                            | None => ["localhost"%string]
                            end) ([] ++ detectedLocal)
                     ∧ publicIP (mgr w0) = detectedPublic).
  { subst m. unfold initialize, restart. cbn [mgr set_mgr new_EmailManager domains localIPs].
    destruct (SAVE_EMAILS cfg && existsSync _).
    - unfold loadFromFile. cbn [file set_mgr]. destruct (file w); eexists; split; try done.
    - eexists; split; done. }
  destruct Hm as (w0 & -> & Hd & Hp). rewrite Hd, Hp.
  set (ds0 := match detectedPublic with
              | Some ip => if decide (ip = ""%string) then ["localhost"%string]
                           else Set_add ip ["localhost"%string]
              | None => ["localhost"%string] end).
  destruct (foldl_Set_add ([] ++ detectedLocal) ds0) as [Hin Hnodup].
  assert (Hlocalhost : "localhost"%string ∈ ds0).
  { subst ds0. destruct detectedPublic as [ip|]; [|left].
    case_decide; [left|].
    destruct (Set_add_spec ip ["localhost"%string]) as (_ & Hmono & _). apply Hmono. left. }
  assert (Hnd0 : NoDup ds0).
  { subst ds0. destruct detectedPublic as [ip|]; [|apply NoDup_singleton].
    case_decide; [apply NoDup_singleton|].
    destruct (Set_add_spec ip ["localhost"%string]) as (_ & _ & _ & Hnd).
    apply Hnd, NoDup_singleton. }
  split_and!; [split | by apply Hnodup | done].
  - rewrite Hd. by apply Hin.
  - rewrite Hd, Hp. intros ip -> Hne. apply Hin. subst ds0.
    rewrite decide_False by done.
    by destruct (Set_add_spec ip ["localhost"%string]) as [? _].
Qed.

Lemma file_loadFromFile w : file (loadFromFile w) = file w.
Proof. unfold loadFromFile. by destruct (file w) eqn:Hfile. Qed.

Lemma file_initialize cfg detectedPublic detectedLocal w :
  file (initialize cfg detectedPublic detectedLocal w) = file w.
Proof.
  unfold initialize. cbn zeta.
  destruct (SAVE_EMAILS cfg && existsSync _); [|done].
  by rewrite file_loadFromFile.
Qed.

Lemma world_sound_restart cfg now detectedPublic detectedLocal w :
  world_sound cfg w →
  world_sound cfg (initialize cfg detectedPublic detectedLocal (restart now w)).
Proof.
  intros (_ & _ & Hfile).
  destruct (domains_initialize cfg now detectedPublic detectedLocal w) as (Hknows & Hnodup & _).
  split_and!; [ | done | done | ].
  - unfold initialize, restart. cbn [mgr set_mgr file new_EmailManager].
    destruct (SAVE_EMAILS cfg && existsSync (file w)); [|apply store_sound_empty].
    unfold loadFromFile. cbn [file set_mgr].
    destruct (file w) as [| |data] eqn:Hdata; [apply store_sound_empty..|].
    destruct (Hfile data eq_refl) as (t & m & -> & Hm).
    cbn [fd_emails fd_stats file_data_of default mgr set_mgr set_emails
         set_mgr_stats emails mgr_stats].
    unfold id. rewrite Map_of_entries_fromEntries. by apply store_sound_toJSON.
  - rewrite file_initialize. exact Hfile.
Qed.

Lemma world_sound_onRcptTo cfg address m w :
  world_sound cfg w → onRcptTo address (mgr w) = Some m → world_sound cfg (set_mgr m w).
Proof.
  intros (Hstore & [[Hlocalhost Hpublic] Hnodup] & Hfile). unfold onRcptTo.
  destruct (split_on "@" address !! 1%nat) as [domain|]; [|done]. intros [= <-].
  destruct (Set_add_spec domain (domains (mgr w))) as (_ & Hmono & _ & Hnd).
  split_and!; cbn [mgr set_mgr emails mgr_stats domains publicIP file]; auto.
  split; cbn [domains publicIP]; auto.
Qed.

Lemma world_sound_boot cfg now ok : world_sound cfg (boot now ok).
Proof.
  unfold world_sound, knows_its_domains, boot.
  cbn [mgr emails mgr_stats domains publicIP file new_EmailManager].
  split_and!.
  - apply store_sound_empty.
  - apply list_elem_of_here.
  - by intros ip.
  - apply NoDup_singleton.
  - by intros data.
Qed.

Lemma world_sound_serve cfg r w w' :
  world_sound cfg w → serve cfg r w = Some w' → world_sound cfg w'.
Proof.
  intros Hw. destruct r as [rcpt| | | | | | | |]; cbn [serve].
  - destruct (onRcptTo rcpt (mgr w)) as [m|] eqn:Hm; [|done]. intros [= <-].
    by eapply world_sound_onRcptTo.
  - intros [= <-]. by apply world_sound_receiveEmail.
  - intros Hserve.
    assert (w' = set_mgr (api_generate cfg g q (mgr w)).2 w) as -> by congruence.
    exact (world_sound_generateEmailAddress cfg g _ w Hw).
  - intros [= <-]. by apply world_sound_markAsRead.
  - intros [= <-]. by apply world_sound_deleteEmail.
  - intros [= <-]. by apply world_sound_deleteAllEmails.
  - intros [= <-]. by apply world_sound_cleanupOldEmails.
  - intros [= <-]. by apply world_sound_restart.
  - intros [= <-]. destruct Hw as (Hs & Hd & Hf).
    split_and!; [exact Hs | apply Hd | apply Hd | exact Hf].
Qed.

(** Every state of the server is sound. *)
Lemma reachable_sound cfg w : reachable cfg w → world_sound cfg w.
Proof.
  induction 1 as [now ok|w r w' _ IH Hserve].
  - apply world_sound_boot.
  - by eapply world_sound_serve.
Qed.

Lemma reachable_serve_all cfg rs w : reachable cfg w → reachable cfg (serve_all cfg rs w).
Proof.
  revert w. induction rs as [|r rs IH]; intros w Hw; [done|].
  cbn [serve_all foldl]. apply IH.
  destruct (serve cfg r w) as [w'|] eqn:Hserve; [|done].
  by eapply reach_serve.
Qed.

Lemma reachable_sample_state : reachable small_config sample_state.
Proof. apply reachable_serve_all, reach_boot. Qed.

Lemma length_counts l : length l = (unreadCount l + readCount l)%nat.
Proof.
  unfold unreadCount, readCount. induction l as [|m l IH]; [done|].
  destruct (msg_read m) eqn:Hm.
  - rewrite (filter_cons_False _ m) by (rewrite Hm; discriminate).
    rewrite (filter_cons_True _ m) by done. cbn [length]. lia.
  - rewrite (filter_cons_True _ m) by done.
    rewrite (filter_cons_False _ m) by (rewrite Hm; discriminate). cbn [length]. lia.
Qed.

(** ** What holds in every state of the server *)

(** X14. In every state the server can reach from a first start, by
    deliveries, allocations, read marks, deletions, sweeps, restarts from
    its own storage file and failures of the file system, each mailbox is
    kept under its own [address], and every message in it has that address
    as its [to]. *)
Theorem X14_mailbox_key_is_its_address cfg w :
  reachable cfg w →
  ∀ a mb, emails (mgr w) !! a = Some mb →
    address mb = a ∧ ∀ msg, msg ∈ messages mb → msg_to msg = a.
Proof.
  intros Hreach a mb Hmb.
  destruct (reachable_sound cfg w Hreach) as ([Hall _] & _ & _).
  destruct (Hall a mb Hmb) as (Haddr & Hto & _). split; [done|].
  by apply Forall_forall.
Qed.

Lemma X14_mailbox_key_is_its_address_witness :
  ∃ mb, emails (mgr sample_state) !! "bob@Mail.Example.COM"%string = Some mb
        ∧ address mb = "bob@Mail.Example.COM"%string
        ∧ Forall (fun msg => msg_to msg = "bob@Mail.Example.COM"%string) (messages mb).
Proof.
  destruct (emails (mgr sample_state) !! "bob@Mail.Example.COM"%string) as [mb|] eqn:Hmb;
    [|by vm_compute in Hmb].
  exists mb. split; [done|].
  destruct (X14_mailbox_key_is_its_address small_config sample_state
              (reachable_serve_all _ _ _ (reach_boot _ _ _))
              "bob@Mail.Example.COM"%string mb Hmb) as [Haddr Hto].
  split; [done|]. by apply Forall_forall.
Defined.

(** ** The limit when the configuration changes between starts *)

Lemma capped_insert L em a mb :
  capped L em → (length (messages mb) ≤ Z.to_nat L)%nat → capped L (<[a := mb]> em).
Proof.
  intros Hem Hmb a' mb'. destruct (decide (a = a')) as [<-|Hne].
  - rewrite lookup_insert_eq. by intros [= <-].
  - rewrite lookup_insert_ne by done. apply Hem.
Qed.

Lemma world_capped_step L w w' :
  world_capped L w → capped L (emails (mgr w')) →
  (file w' = file w ∨ ∃ now, file w' = Snapshot (file_data_of now (mgr w'))) →
  world_capped L w'.
Proof.
  intros [_ Hfile] Hem Hfile'. split; [done|].
  intros data Hdata. destruct Hfile' as [Hsame|[now Hnew]].
  - apply Hfile. by rewrite <- Hsame.
  - rewrite Hnew in Hdata. injection Hdata as <-. by exists now, (mgr w').
Qed.

Lemma world_capped_saved L cfg now w w1 :
  world_capped L w → capped L (emails (mgr w1)) → file w1 = file w →
  world_capped L (saveToFile cfg now w1).
Proof.
  intros Hw Hem Hfile.
  apply (world_capped_step L w); rewrite ?mgr_saveToFile; [done..|].
  destruct (file_saveToFile_cases cfg now w1) as [->| ->]; [by left|]. right. by exists now.
Qed.

Lemma length_deposit L cfg msg mb :
  0 < MAX_EMAILS_PER_ADDRESS cfg ≤ L →
  (length (messages (deposit cfg msg mb)) ≤ Z.to_nat L)%nat.
Proof.
  intros [Hpos Hle]. rewrite (messages_deposit cfg Hpos), length_take. lia.
Qed.

Lemma world_capped_receiveEmail L cfg e a d w :
  0 < MAX_EMAILS_PER_ADDRESS cfg ≤ L →
  world_capped L w → world_capped L (receiveEmail cfg e a d w).2.
Proof.
  intros Hcfg Hw. pose proof Hw as [Hem _].
  unfold receiveEmail, ensureMailbox.
  destruct (emails (mgr w) !! a) as [entry|] eqn:Hentry; cbn [fst snd];
    apply (world_capped_saved L cfg _ w); try done;
    cbn [mgr set_mgr emails set_emails set_mgr_stats];
    rewrite ?insert_insert_eq; apply capped_insert; try done;
    by apply length_deposit.
Qed.

Lemma world_capped_generateEmailAddress L cfg g options w :
  world_capped L w →
  world_capped L (set_mgr (generateEmailAddress cfg g options (mgr w)).2 w).
Proof.
  intros Hw. pose proof Hw as [Hem _].
  apply (world_capped_step L w); cbn [mgr set_mgr file]; [done| |by left].
  unfold generateEmailAddress. cbn [snd emails].
  set (email := chooseUsername g (opt_username options) +:+ "@" +:+ _).
  destruct (emails (mgr w) !! email) as [entry|] eqn:Hentry; [done|].
  cbn [emails set_emails set_mgr_stats].
  apply capped_insert; [done|]. cbn. lia.
Qed.

Lemma world_capped_markAsRead L cfg now a id w :
  world_capped L w → world_capped L (markAsRead cfg now a id w).2.
Proof.
  intros Hw. pose proof Hw as [Hem _].
  markAsRead_cases w a entry i msg; try done.
  apply (world_capped_saved L cfg _ w); try done.
  cbn [mgr set_mgr emails set_emails].
  apply capped_insert; [done|]. cbn [messages]. rewrite length_insert. by eapply Hem.
Qed.

Lemma world_capped_deleteEmail L cfg now a id w :
  world_capped L w → world_capped L (deleteEmail cfg now a id w).2.
Proof.
  intros Hw. pose proof Hw as [Hem Hfile].
  unfold deleteEmail.
  destruct (emails (mgr w) !! a) as [entry|] eqn:Hentry; [|done]. cbn zeta.
  assert (capped L (<[a := set_messages (filter (fun msg => msg_id msg ≠ id)
                                           (messages entry)) entry]> (emails (mgr w))))
    as Hem'.
  { apply capped_insert; [done|]. cbn [messages set_messages].
    pose proof (length_filter (fun msg => msg_id msg ≠ id) (messages entry)).
    specialize (Hem a entry Hentry). lia. }
  case_decide; cbn [snd].
  - by apply (world_capped_saved L cfg _ w).
  - by apply (world_capped_step L w); [| |left].
Qed.

Lemma world_capped_deleteAllEmails L cfg now a w :
  world_capped L w → world_capped L (deleteAllEmails cfg now a w).2.
Proof.
  intros Hw. pose proof Hw as [Hem _].
  unfold deleteAllEmails.
  destruct (emails (mgr w) !! a) as [entry|] eqn:Hentry; [|done]. cbn [snd].
  apply (world_capped_saved L cfg _ w); try done.
  cbn [mgr set_mgr emails set_emails].
  apply capped_insert; [done|]. cbn. lia.
Qed.

Lemma world_capped_cleanupOldEmails L cfg now now_saved w :
  world_capped L w → world_capped L (cleanupOldEmails cfg now now_saved w).
Proof.
  intros Hw. pose proof Hw as [Hem _].
  apply (world_capped_step L w); try done.
  - rewrite emails_cleanupOldEmails. intros a mb'. rewrite lookup_omap.
    destruct (emails (mgr w) !! a) as [mb|] eqn:Hmb; [|done]. cbn. intros Hsweep.
    assert (mb' = set_messages (liveMessages (expiryTime cfg) now mb) mb) as ->.
    { unfold sweepMailbox in Hsweep. cbn zeta in Hsweep.
      repeat case_decide; congruence. }
    cbn [messages set_messages]. unfold liveMessages.
    pose proof (length_filter (fun msg => now - getTime (msg_date msg) < expiryTime cfg)
                  (messages mb)).
    specialize (Hem a mb Hmb). lia.
  - rewrite cleanupOldEmails_save. cbn zeta. case_decide; [|by left].
    destruct (file_saveToFile_cases cfg now_saved
                (set_mgr (mgr (cleanupOldEmails cfg now now_saved w)) w)) as [->| Hsnap];
      [by left|].
    right. exists now_saved. by rewrite mgr_saveToFile, Hsnap.
Qed.

(** [loadFromFile] takes the arrays as the file has them: it does not cut
    them to the limit of the process that loads. *)
Lemma world_capped_restart L cfg now detectedPublic detectedLocal w :
  world_capped L w →
  world_capped L (initialize cfg detectedPublic detectedLocal (restart now w)).
Proof.
  intros [_ Hfile]. split.
  - unfold initialize, restart. cbn [mgr set_mgr file new_EmailManager].
    destruct (SAVE_EMAILS cfg && existsSync (file w)); [|by intros a mb].
    unfold loadFromFile. cbn [file set_mgr].
    destruct (file w) as [| |data] eqn:Hdata; [by intros a mb..|].
    destruct (Hfile data eq_refl) as (t & m & -> & Hm).
    cbn [fd_emails fd_stats file_data_of default mgr set_mgr set_emails
         set_mgr_stats emails mgr_stats].
    unfold id. rewrite Map_of_entries_fromEntries.
    intros a mb'. rewrite lookup_fmap.
    destruct (emails m !! a) as [mb|] eqn:Hmb; [|done]. cbn. intros [= <-].
    unfold mailbox_toJSON. cbn [messages]. rewrite length_map. by eapply Hm.
  - rewrite file_initialize. exact Hfile.
Qed.

Lemma world_capped_serve L cfg r w w' :
  0 < MAX_EMAILS_PER_ADDRESS cfg ≤ L →
  world_capped L w → serve cfg r w = Some w' → world_capped L w'.
Proof.
  intros Hcfg Hw. destruct r as [rcpt| | | | | | | |]; cbn [serve].
  - unfold onRcptTo. destruct (split_on "@" rcpt !! 1%nat) as [domain|]; [|done].
    intros [= <-]. exact Hw.
  - intros [= <-]. by apply world_capped_receiveEmail.
  - intros Hserve.
    assert (w' = set_mgr (api_generate cfg g q (mgr w)).2 w) as -> by congruence.
    exact (world_capped_generateEmailAddress L cfg g _ w Hw).
  - intros [= <-]. by apply world_capped_markAsRead.
  - intros [= <-]. by apply world_capped_deleteEmail.
  - intros [= <-]. by apply world_capped_deleteAllEmails.
  - intros [= <-]. by apply world_capped_cleanupOldEmails.
  - intros [= <-]. by apply world_capped_restart.
  - intros [= <-]. exact Hw.
Qed.

Lemma reachable_within_capped L w : reachable_within L w → world_capped L w.
Proof.
  induction 1 as [now ok|cfg w r w' _ IH Hcfg Hserve].
  - split; [by intros a mb | by intros data].
  - by eapply world_capped_serve.
Qed.

(** A server that runs under one configuration is the case in which the
    limit never changes. *)
Lemma reachable_reachable_within cfg w :
  0 < MAX_EMAILS_PER_ADDRESS cfg → reachable cfg w →
  reachable_within (MAX_EMAILS_PER_ADDRESS cfg) w.
Proof.
  intros Hpos. induction 1 as [now ok|w r w' _ IH Hserve].
  - constructor.
  - eapply within_serve; [done | | done]. lia.
Qed.

Lemma reachable_within_serve_all L cfg rs w :
  0 < MAX_EMAILS_PER_ADDRESS cfg ≤ L →
  reachable_within L w → reachable_within L (serve_all cfg rs w).
Proof.
  intros Hcfg. revert w. induction rs as [|r rs IH]; intros w Hw; [done|].
  cbn [serve_all foldl]. apply IH.
  destruct (serve cfg r w) as [w'|] eqn:Hserve; [|done]. by eapply within_serve.
Qed.

(** Under one configuration with a positive limit, the bound is that
    limit. *)
Corollary limit_under_one_configuration cfg w :
  0 < MAX_EMAILS_PER_ADDRESS cfg → reachable cfg w →
  ∀ a, (length (getEmailsForAddress a w) ≤ Z.to_nat (MAX_EMAILS_PER_ADDRESS cfg))%nat.
Proof.
  intros Hpos [Hem _]%reachable_reachable_within%reachable_within_capped a; [|done].
  unfold getEmailsForAddress.
  destruct (emails (mgr w) !! a) as [mb|] eqn:Hmb; [by eapply Hem | cbn; lia].
Qed.

(** X15. The limit on the messages of an address is read from the
    environment when the process starts, and a start loads the arrays of
    the storage file as they are, without cutting them. If every
    configuration the server has run under had a positive limit of at most
    [L], then no address lists more than [L] messages, in any state the
    server can reach: across deliveries, allocations, read marks,
    deletions, sweeps, and new starts under a changed configuration. (For a
    server that has only ever run under one configuration, [L] is its
    limit.) *)
Theorem X15_limit_holds_in_every_state L w :
  reachable_within L w →
  ∀ a, (length (getEmailsForAddress a w) ≤ Z.to_nat L)%nat.
Proof.
  intros [Hem _]%reachable_within_capped a. unfold getEmailsForAddress.
  destruct (emails (mgr w) !! a) as [mb|] eqn:Hmb.
  - by eapply Hem.
  - cbn. lia.
Qed.

Lemma X15_limit_holds_in_every_state_witness :
  (length (getEmailsForAddress "bob@localhost" relimited_world) ≤ Z.to_nat 100)%nat.
Proof.
  apply (X15_limit_holds_in_every_state 100 relimited_world).
  unfold relimited_world.
  apply reachable_within_serve_all; [by vm_compute|].
  apply reachable_within_serve_all; [by vm_compute|].
  constructor.
Defined.

(** The bound is the largest limit, not the one in force: after three
    deliveries under the limit of 100 and a new start under the limit of
    2, the address lists three messages, and goes on doing so until its
    next delivery. *)
Example limit_is_not_applied_on_load :
  MAX_EMAILS_PER_ADDRESS small_config = 2
  ∧ map msg_subject (getEmailsForAddress "bob@localhost" relimited_world)
    = ["three"; "two"; "one"]%string
  ∧ map msg_subject
      (getEmailsForAddress "bob@localhost"
         (serve_all small_config
            [ReqDeliver (sample_env 50) "bob@localhost" (sample_data "four")]
            relimited_world))
    = ["four"; "three"]%string.
Proof. vm_compute. done. Qed.

(** X16. In every state the server can reach, the counters of a mailbox
    bound what it holds: the messages flagged as read are at most
    [stats.read], and [stats.read] plus the unread messages is at most
    [stats.received]. So [read] never exceeds [received], and an address
    never lists more messages than it has received. *)
Theorem X16_counters_bound_the_mailbox cfg w :
  reachable cfg w →
  ∀ a,
    Z.of_nat (readCount (getEmailsForAddress a w)) ≤ read (statsOf a w)
    ∧ read (statsOf a w) + Z.of_nat (unreadCount (getEmailsForAddress a w))
      ≤ received (statsOf a w)
    ∧ 0 ≤ read (statsOf a w) ≤ received (statsOf a w)
    ∧ Z.of_nat (length (getEmailsForAddress a w)) ≤ received (statsOf a w).
Proof.
  intros Hreach a. unfold getEmailsForAddress, statsOf.
  destruct (reachable_sound cfg w Hreach) as ([Hall _] & _ & _).
  destruct (emails (mgr w) !! a) as [mb|] eqn:Hmb; [|done].
  destruct (Hall a mb Hmb) as (_ & _ & Hread & Hunread & _).
  pose proof (length_counts (messages mb)). lia.
Qed.

Lemma X16_counters_bound_the_mailbox_witness :
  Z.of_nat (readCount (getEmailsForAddress "bob@Mail.Example.COM" sample_state))
  ≤ read (statsOf "bob@Mail.Example.COM" sample_state)
  ∧ read (statsOf "bob@Mail.Example.COM" sample_state)
    + Z.of_nat (unreadCount (getEmailsForAddress "bob@Mail.Example.COM" sample_state))
    ≤ received (statsOf "bob@Mail.Example.COM" sample_state)
  ∧ 0 ≤ read (statsOf "bob@Mail.Example.COM" sample_state)
      ≤ received (statsOf "bob@Mail.Example.COM" sample_state)
  ∧ Z.of_nat (length (getEmailsForAddress "bob@Mail.Example.COM" sample_state))
    ≤ received (statsOf "bob@Mail.Example.COM" sample_state).
Proof.
  apply (X16_counters_bound_the_mailbox small_config sample_state).
  apply reachable_serve_all, reach_boot.
Defined.

(** X17. In every state the server can reach, [getStats] reports at most
    as many [activeAddresses] as [totalAddresses]: the number of mailboxes
    never exceeds the count of addresses ever created. *)
Theorem X17_active_at_most_total cfg now w :
  reachable cfg w →
  Z.of_nat (st_activeAddresses (getStats now w)) ≤ st_totalAddresses (getStats now w).
Proof.
  intros Hreach. by destruct (reachable_sound cfg w Hreach) as ([_ Hsize] & _ & _).
Qed.

Lemma X17_active_at_most_total_witness :
  Z.of_nat (st_activeAddresses (getStats 0 sample_state))
  ≤ st_totalAddresses (getStats 0 sample_state).
Proof.
  apply (X17_active_at_most_total small_config 0 sample_state).
  apply reachable_serve_all, reach_boot.
Defined.

(** X18. In every state the server can reach, [localhost] is a domain,
    no domain is listed twice, the public address is a domain if there is
    one, and so whatever is asked of [GET /api/email/generate], the domain
    of the address it answers with is a domain of the manager. *)
Theorem X18_domains_in_every_state cfg w :
  reachable cfg w →
  "localhost"%string ∈ domains (mgr w)
  ∧ NoDup (domains (mgr w))
  ∧ (∀ ip, publicIP (mgr w) = Some ip → ip ≠ ""%string → ip ∈ domains (mgr w))
  ∧ (∀ g q, ai_domain (api_generate cfg g q (mgr w)).1 ∈ domains (mgr w)).
Proof.
  intros Hreach.
  destruct (reachable_sound cfg w Hreach) as (_ & [Hknows Hnodup] & _).
  pose proof Hknows as [Hlocalhost Hpublic].
  split_and!; [done | done | done |].
  intros g q. unfold api_generate. rewrite domain_generateEmailAddress.
  by apply chooseDomain_known.
Qed.

Lemma X18_domains_in_every_state_witness :
  "localhost"%string ∈ domains (mgr sample_state)
  ∧ NoDup (domains (mgr sample_state))
  ∧ (∀ ip, publicIP (mgr sample_state) = Some ip → ip ≠ ""%string →
           ip ∈ domains (mgr sample_state))
  ∧ (∀ g q, ai_domain (api_generate small_config g q (mgr sample_state)).1
            ∈ domains (mgr sample_state)).
Proof.
  apply (X18_domains_in_every_state small_config sample_state).
  apply reachable_serve_all, reach_boot.
Defined.

Example sample_state_sample :
  map msg_subject (getEmailsForAddress "bob@Mail.Example.COM" sample_state)
  = ["three"%string]
  ∧ statsOf "bob@Mail.Example.COM" sample_state = {| received := 3; read := 1 |}
  ∧ size (emails (mgr sample_state)) = 1%nat
  ∧ totalAddresses (mgr_stats (mgr sample_state)) = 2
  ∧ domains (mgr sample_state) = ["localhost"%string].
Proof. vm_compute. done. Qed.

(** * Validating IP addresses *)

Example isValidIP_sample :
  isValidIP trim_ascii (Some " 203.0.113.7 "%string) = true
  ∧ isValidIP trim_ascii (Some "8.8.8.8"%string) = true
  ∧ isValidIP trim_ascii (Some "127.0.0.2"%string) = true
  ∧ isValidIP trim_ascii (Some "127.0.0.1"%string) = false
  ∧ isValidIP trim_ascii (Some "192.168.1.20"%string) = false
  ∧ isValidIP trim_ascii (Some "172.32.0.1"%string) = true
  ∧ isValidIP trim_ascii (Some "172.31.0.1"%string) = false
  ∧ isValidIP trim_ascii (Some "256.1.1.1"%string) = false
  ∧ isValidIP trim_ascii (Some "1.02.3.4"%string) = false
  ∧ isValidIP trim_ascii (Some "1.2.3"%string) = false
  ∧ isValidIP trim_ascii (Some "1.2.3.4.5"%string) = false
  ∧ isValidIP trim_ascii (Some ""%string) = false
  ∧ isValidIP trim_ascii None = false
  ∧ isValidIP_script (Some "192.168.1.20"%string) = true
  ∧ isValidIP_script (Some "1.02.3.4"%string) = true
  ∧ isValidIP_script (Some "256.1.1.1"%string) = false.
Proof. vm_compute. done. Qed.

(** ** The pattern *)

Lemma matches_Rep_O lo r s k :
  matches (Rep lo 0 r) s k = bool_decide (lo = 0%nat) && k s.
Proof. reflexivity. Qed.

Lemma matches_Rep_S lo hi r s k :
  matches (Rep lo (S hi) r) s k
  = matches r s (fun s' => matches (Rep (Nat.pred lo) hi r) s' k)
    || (bool_decide (lo = 0%nat) && k s).
Proof. reflexivity. Qed.

(** A bounded run of digits, and what follows it. *)
Lemma matches_digits lo hi s k :
  matches (Rep lo hi digit) s k = true
  ↔ ∃ p rest, s = p +:+ rest
              ∧ Forall (fun c => is_digit c = true) (list_ascii_of_string p)
              ∧ (lo ≤ String.length p ≤ hi)%nat
              ∧ k rest = true.
Proof.
  revert lo s. induction hi as [|hi IH]; intros lo s.
  - rewrite matches_Rep_O, andb_true_iff, bool_decide_eq_true. split.
    + intros [-> Hk]. exists ""%string, s. split_and!; try done; cbn; lia.
    + intros (p & rest & -> & _ & Hlen & Hk).
      destruct p; cbn in Hlen; [|lia]. split; [lia | done].
  - rewrite matches_Rep_S, orb_true_iff, andb_true_iff, bool_decide_eq_true. split.
    + intros [Hstep|[-> Hk]].
      * destruct s as [|c s']; [done|]. cbn [matches digit] in Hstep.
        apply andb_true_iff in Hstep as [Hc Hrest].
        apply IH in Hrest as (p & rest & -> & Hp & Hlen & Hk).
        exists (String c p), rest. split_and!; try done.
        -- by constructor.
        -- cbn [String.length]. lia.
        -- cbn [String.length]. lia.
      * exists ""%string, s. split_and!; try done; cbn; lia.
    + intros (p & rest & -> & Hp & Hlen & Hk). destruct p as [|c p].
      * right. cbn in Hlen. split; [lia | done].
      * left. rewrite append_String. cbn [matches digit].
        cbn [list_ascii_of_string] in Hp. apply Forall_cons in Hp as [Hc Hp].
        apply andb_true_iff. split; [done|].
        apply IH. exists p, rest. cbn [String.length] in Hlen.
        split_and!; try done; lia.
Qed.

(** One group [\d{1,3}\.]. *)
Lemma matches_group s k :
  matches (Seq (Rep 1 3 digit) (Chr ".")) s k = true
  ↔ ∃ p rest, s = p +:+ "." +:+ rest ∧ octet_text p ∧ k rest = true.
Proof.
  cbn [matches]. change (matches (Rep 1 3 digit) s ?k) with (matches (Rep 1 3 digit) s k).
  split.
  - intros (p & rest & -> & Hp & Hlen & Hk)%(matches_digits 1 3).
    destruct rest as [|c rest]; [done|].
    apply andb_true_iff in Hk as [->%bool_decide_eq_true Hk].
    by exists p, rest.
  - intros (p & rest & -> & [Hlen Hp] & Hk).
    apply (matches_digits 1 3). exists p, ("." +:+ rest)%string.
    split_and!; try done; lia.
Qed.

(** The pattern accepts exactly the texts of four such parts with dots
    between them. *)
Lemma ipPattern_spec s :
  regex_test ipPattern s = true
  ↔ ∃ p1 p2 p3 p4,
      s = p1 +:+ "." +:+ p2 +:+ "." +:+ p3 +:+ "." +:+ p4
      ∧ octet_text p1 ∧ octet_text p2 ∧ octet_text p3 ∧ octet_text p4.
Proof.
  unfold regex_test, ipPattern.
  change (matches (Seq ?r1 ?r2) s ?k) with (matches r1 s (fun s' => matches r2 s' k)).
  rewrite matches_Rep_S. cbn [Nat.pred].
  rewrite (bool_decide_eq_false_2 (3 = 0)%nat) by done. rewrite andb_false_l, orb_false_r.
  split.
  - intros (p1 & s1 & -> & H1 & Hk)%matches_group.
    rewrite matches_Rep_S in Hk. cbn [Nat.pred] in Hk.
    rewrite (bool_decide_eq_false_2 (2 = 0)%nat) in Hk by done.
    rewrite andb_false_l, orb_false_r in Hk.
    apply matches_group in Hk as (p2 & s2 & -> & H2 & Hk).
    rewrite matches_Rep_S in Hk. cbn [Nat.pred] in Hk.
    rewrite (bool_decide_eq_false_2 (1 = 0)%nat) in Hk by done.
    rewrite andb_false_l, orb_false_r in Hk.
    apply matches_group in Hk as (p3 & s3 & -> & H3 & Hk).
    rewrite matches_Rep_O in Hk. apply andb_true_iff in Hk as [_ Hk].
    apply (matches_digits 1 3) in Hk as (p4 & rest & -> & Hp4 & Hlen4 & ->%bool_decide_eq_true).
    exists p1, p2, p3, p4. split_and!; try done.
    assert (p4 +:+ "" = p4) as -> by (clear; induction p4 as [|c p IH]; [done|];
                                      by rewrite append_String, IH).
    done.
  - intros (p1 & p2 & p3 & p4 & -> & H1 & H2 & H3 & [Hlen4 Hp4]).
    apply matches_group. exists p1, (p2 +:+ "." +:+ p3 +:+ "." +:+ p4)%string.
    split_and!; try done.
    rewrite matches_Rep_S. cbn [Nat.pred]. apply orb_true_iff. left.
    apply matches_group. exists p2, (p3 +:+ "." +:+ p4)%string. split_and!; try done.
    rewrite matches_Rep_S. cbn [Nat.pred]. apply orb_true_iff. left.
    apply matches_group. exists p3, p4. split_and!; try done.
    rewrite matches_Rep_O. cbn [andb bool_decide decide_rel].
    rewrite bool_decide_eq_true_2 by done. cbn [andb].
    apply (matches_digits 1 3). exists p4, ""%string.
    split_and!; try done; try lia.
    clear. induction p4 as [|c p IH]; [done|]. by rewrite append_String, <- IH.
Qed.

(** ** The parts *)

Lemma is_digit_chars c : is_digit c = true ↔ c ∈ digit_chars.
Proof.
  split.
  - destruct c as [[] [] [] [] [] [] [] []]; vm_compute; try done; intros _;
      repeat (first [by left | right]).
  - intros H. repeat (apply elem_of_cons in H as [->|H]; [done|]).
    by apply elem_of_nil in H.
Qed.

Lemma digit_strings_spec n p :
  String.length p = n →
  Forall (fun c => is_digit c = true) (list_ascii_of_string p) →
  p ∈ digit_strings n.
Proof.
  revert p. induction n as [|n IH]; intros [|c p]; try done.
  - intros _ _. by left.
  - cbn [String.length list_ascii_of_string digit_strings].
    intros [= Hlen] [Hc Hp]%Forall_cons.
    apply list_elem_of_bind. exists c. split; [|by apply is_digit_chars].
    apply list_elem_of_bind. exists p. split; [by left | by apply IH].
Qed.

Lemma octet_texts_spec p : octet_text p → p ∈ octet_texts.
Proof.
  intros [Hlen Hp]. unfold octet_texts. rewrite !elem_of_app.
  destruct (decide (String.length p = 1%nat)); [left; by apply digit_strings_spec|].
  destruct (decide (String.length p = 2%nat)); [right; left; by apply digit_strings_spec|].
  right. right. apply digit_strings_spec; [lia | done].
Qed.

Lemma digits_no_dot p :
  Forall (fun c => is_digit c = true) (list_ascii_of_string p) →
  "."%char ∉ list_ascii_of_string p.
Proof.
  intros Hp Hin. rewrite Forall_forall in Hp. by apply Hp in Hin.
Qed.

(** A part passes the loop of [isValidIP] exactly if it is the decimal
    text of a number up to 255. *)
Lemma octet_ok_spec p :
  octet_text p →
  octet_ok p = true ↔ ∃ n, (n ≤ 255)%nat ∧ p = pretty n.
Proof.
  intros Hp%octet_texts_spec.
  assert (forallb (fun p => bool_decide
            (octet_ok p = true
             ↔ ((octet_value p ≤ 255)%nat ∧ p = pretty (octet_value p))))
            octet_texts = true) as Hall by (vm_compute; reflexivity).
  rewrite forallb_forall in Hall.
  apply list_elem_of_In, Hall, bool_decide_eq_true in Hp. rewrite Hp. split.
  - intros [Hle Heq]. by exists (octet_value p).
  - intros (n & Hn & ->).
    assert (forallb (fun n : nat => bool_decide
              (octet_value (pretty n) = n)) (seq 0 256) = true) as Hval
      by (vm_compute; reflexivity).
    rewrite forallb_forall in Hval.
    assert (octet_value (pretty n) = n) as ->; [|done].
    eapply bool_decide_eq_true_1, Hval, list_elem_of_In, elem_of_seq. lia.
Qed.

Lemma octet_text_pretty (n : nat) : (n ≤ 255)%nat → octet_text (pretty n).
Proof.
  intros Hn.
  assert (forallb (fun n : nat => bool_decide
            ((1 ≤ String.length (pretty n) ≤ 3)%nat
             ∧ Forall (fun c => is_digit c = true)
                 (list_ascii_of_string (pretty n)))) (seq 0 256) = true) as Hall
    by (vm_compute; reflexivity).
  rewrite forallb_forall in Hall.
  eapply bool_decide_eq_true_1, Hall, list_elem_of_In, elem_of_seq. lia.
Qed.

(** ** Texts with dots *)

Local Abbreviation digits p :=
  (Forall (fun c => is_digit c = true) (list_ascii_of_string p)).

Lemma append_empty_l s : (""%string +:+ s)%string = s.
Proof. reflexivity. Qed.

Lemma append_dot s : ("."%string +:+ s)%string = String "." s.
Proof. reflexivity. Qed.

Lemma startsWith_part q q' p r :
  digits p → digits q →
  startsWith (q +:+ "." +:+ q') (p +:+ "." +:+ r)
  = bool_decide (p = q) && startsWith q' r.
Proof.
  unfold startsWith. rewrite !append_dot.
  revert p. induction q as [|c q IH]; intros [|c' p] Hp Hq;
    rewrite ?append_String, ?append_empty_l; cbn [String.prefix].
  - by destruct (ascii_dec "." ".").
  - apply Forall_cons in Hp as [Hc' _].
    destruct (ascii_dec "." c') as [<-|]; [done|].
    by rewrite bool_decide_eq_false_2.
  - apply Forall_cons in Hq as [Hc _].
    destruct (ascii_dec c ".") as [->|]; [done|].
    by rewrite bool_decide_eq_false_2.
  - apply Forall_cons in Hp as [_ Hp]. apply Forall_cons in Hq as [_ Hq].
    destruct (ascii_dec c c') as [->|Hne].
    + rewrite IH by done. f_equal. apply bool_decide_ext.
      split; [by intros ->|by intros [= ->]].
    + rewrite bool_decide_eq_false_2; [done|]. intros [= ? ?]. by apply Hne.
Qed.

Lemma startsWith_empty s : startsWith "" s = true.
Proof. by destruct s. Qed.

Lemma dotted_eq_part p q r r' :
  digits p → digits q →
  (p +:+ "." +:+ r)%string = (q +:+ "." +:+ r')%string ↔ p = q ∧ r = r'.
Proof.
  intros Hp Hq. split; [|by intros [-> ->]]. rewrite !append_dot.
  revert q Hq. induction p as [|c p IH]; intros [|c' q] Hq;
    rewrite ?append_String, ?append_empty_l.
  - by intros [= ->].
  - apply Forall_cons in Hq as [Hc' _]. intros [= <- _]. done.
  - apply Forall_cons in Hp as [Hc _]. intros [= -> _]. done.
  - apply Forall_cons in Hp as [_ Hp]. apply Forall_cons in Hq as [_ Hq].
    intros [= -> Heq]. by destruct (IH Hp q Hq Heq) as [-> ->].
Qed.

Lemma split_on_dotted p1 p2 p3 p4 :
  digits p1 → digits p2 → digits p3 → digits p4 →
  split_on "." (p1 +:+ "." +:+ p2 +:+ "." +:+ p3 +:+ "." +:+ p4) = [p1; p2; p3; p4].
Proof.
  intros H1%digits_no_dot H2%digits_no_dot H3%digits_no_dot H4%digits_no_dot.
  rewrite !append_dot.
  by rewrite !split_on_app, split_on_no_sep.
Qed.

(** ** The reserved addresses *)

Lemma pretty_eq_iff (n m : nat) : pretty n = pretty m ↔ n = m.
Proof. split; [apply (inj pretty) | by intros ->]. Qed.

Lemma startsWith_one (m a : nat) r :
  (a ≤ 255)%nat → (m ≤ 255)%nat →
  startsWith (pretty m +:+ ".") (pretty a +:+ "." +:+ r) = bool_decide (a = m).
Proof.
  intros [_ Ha]%octet_text_pretty [_ Hm]%octet_text_pretty.
  pose proof (startsWith_part (pretty m) "" (pretty a) r Ha Hm) as Hpart.
  change ("."%string +:+ ""%string)%string with "."%string in Hpart.
  rewrite Hpart, startsWith_empty, andb_true_r.
  apply bool_decide_ext, pretty_eq_iff.
Qed.

Lemma startsWith_two (m1 m2 a b : nat) r :
  (a ≤ 255)%nat → (b ≤ 255)%nat → (m1 ≤ 255)%nat → (m2 ≤ 255)%nat →
  startsWith (pretty m1 +:+ "." +:+ pretty m2 +:+ ".")
    (pretty a +:+ "." +:+ pretty b +:+ "." +:+ r)
  = bool_decide (a = m1 ∧ b = m2).
Proof.
  intros Ha Hb Hm1 Hm2.
  rewrite (startsWith_part (pretty m1) _ (pretty a))
    by (by apply octet_text_pretty).
  rewrite startsWith_one by done.
  rewrite (bool_decide_ext _ (a = m1) (pretty_eq_iff a m1)).
  apply eq_true_iff_eq. rewrite andb_true_iff, !bool_decide_eq_true. done.
Qed.

Lemma dotted_eq (m1 m2 m3 m4 a b c d : nat) :
  (a ≤ 255)%nat → (b ≤ 255)%nat → (c ≤ 255)%nat →
  (m1 ≤ 255)%nat → (m2 ≤ 255)%nat → (m3 ≤ 255)%nat →
  dotted a b c d = dotted m1 m2 m3 m4 ↔ a = m1 ∧ b = m2 ∧ c = m3 ∧ d = m4.
Proof.
  intros Ha Hb Hc Hm1 Hm2 Hm3. unfold dotted.
  rewrite !dotted_eq_part by (by apply octet_text_pretty).
  by rewrite !pretty_eq_iff.
Qed.

Lemma reserved_text_spec (a b c d : nat) :
  (a ≤ 255)%nat → (b ≤ 255)%nat → (c ≤ 255)%nat → (d ≤ 255)%nat →
  reserved_text (dotted a b c d) = true ↔ reserved_quad a b c d.
Proof.
  intros Ha Hb Hc Hd. unfold reserved_text, reserved_quad. cbn [existsb].
  change "127.0.0.1"%string with (dotted 127 0 0 1).
  change "0.0.0.0"%string with (dotted 0 0 0 0).
  rewrite !orb_true_iff, !bool_decide_eq_true, !dotted_eq by lia.
  unfold dotted.
  change "10."%string with (pretty 10%nat +:+ ".")%string.
  rewrite startsWith_one by lia.
  change "169.254."%string with (pretty 169%nat +:+ "." +:+ pretty 254%nat +:+ ".")%string.
  change "192.168."%string with (pretty 192%nat +:+ "." +:+ pretty 168%nat +:+ ".")%string.
  change "172.16."%string with (pretty 172%nat +:+ "." +:+ pretty 16%nat +:+ ".")%string.
  change "172.17."%string with (pretty 172%nat +:+ "." +:+ pretty 17%nat +:+ ".")%string.
  change "172.18."%string with (pretty 172%nat +:+ "." +:+ pretty 18%nat +:+ ".")%string.
  change "172.19."%string with (pretty 172%nat +:+ "." +:+ pretty 19%nat +:+ ".")%string.
  change "172.20."%string with (pretty 172%nat +:+ "." +:+ pretty 20%nat +:+ ".")%string.
  change "172.21."%string with (pretty 172%nat +:+ "." +:+ pretty 21%nat +:+ ".")%string.
  change "172.22."%string with (pretty 172%nat +:+ "." +:+ pretty 22%nat +:+ ".")%string.
  change "172.23."%string with (pretty 172%nat +:+ "." +:+ pretty 23%nat +:+ ".")%string.
  change "172.24."%string with (pretty 172%nat +:+ "." +:+ pretty 24%nat +:+ ".")%string.
  change "172.25."%string with (pretty 172%nat +:+ "." +:+ pretty 25%nat +:+ ".")%string.
  change "172.26."%string with (pretty 172%nat +:+ "." +:+ pretty 26%nat +:+ ".")%string.
  change "172.27."%string with (pretty 172%nat +:+ "." +:+ pretty 27%nat +:+ ".")%string.
  change "172.28."%string with (pretty 172%nat +:+ "." +:+ pretty 28%nat +:+ ".")%string.
  change "172.29."%string with (pretty 172%nat +:+ "." +:+ pretty 29%nat +:+ ".")%string.
  change "172.30."%string with (pretty 172%nat +:+ "." +:+ pretty 30%nat +:+ ".")%string.
  change "172.31."%string with (pretty 172%nat +:+ "." +:+ pretty 31%nat +:+ ".")%string.
  rewrite !startsWith_two by lia.
  rewrite !bool_decide_eq_true. split.
  - intros [[[[[H|H]|H]|H]|H]|H]; [tauto..|].
    do 5 right.
    repeat destruct H as [H|H]; try done; destruct H as [-> ->]; (split; [done|lia]).
  - intros [H|[H|[H|[H|[H|[-> [Hlo Hhi]]]]]]]; [tauto..|].
    right. do 16 (destruct b as [|b]; [lia|]).
    do 16 (destruct b as [|b]; [repeat first [by left | right]|]). lia.
Qed.

(** ** What [isValidIP] accepts *)

Lemma forallb_four {A} (f : A → bool) x1 x2 x3 x4 :
  forallb f [x1; x2; x3; x4] = true
  ↔ f x1 = true ∧ f x2 = true ∧ f x3 = true ∧ f x4 = true.
Proof. cbn [forallb]. rewrite !andb_true_iff. tauto. Qed.

(** The checks of [isValidIP] in terms of the four parts of the text. *)
Lemma isValidIP_parts trim ip :
  isValidIP trim (Some ip) = true
  ↔ ip ≠ ""%string
    ∧ ∃ p1 p2 p3 p4,
        trim ip = (p1 +:+ "." +:+ p2 +:+ "." +:+ p3 +:+ "." +:+ p4)%string
        ∧ (octet_text p1 ∧ octet_text p2 ∧ octet_text p3 ∧ octet_text p4)
        ∧ (octet_ok p1 = true ∧ octet_ok p2 = true
           ∧ octet_ok p3 = true ∧ octet_ok p4 = true)
        ∧ reserved_text (trim ip) = false.
Proof.
  unfold isValidIP. case_decide as Hempty; [by split; [|intros [? _]]|].
  split.
  - destruct (regex_test ipPattern (trim ip)) eqn:Hpat; [|done]. cbn [negb].
    apply ipPattern_spec in Hpat as (p1 & p2 & p3 & p4 & Htrim & H1 & H2 & H3 & H4).
    rewrite Htrim.
    rewrite (split_on_dotted p1 p2 p3 p4)
      by (first [apply H1 | apply H2 | apply H3 | apply H4]).
    cbn [length]. rewrite bool_decide_eq_true_2 by done. cbn [negb].
    destruct (forallb octet_ok [p1; p2; p3; p4]) eqn:Hparts; [|done]. cbn [negb].
    apply forallb_four in Hparts. intros Hres%negb_true_iff.
    split; [done|]. by exists p1, p2, p3, p4.
  - intros (_ & p1 & p2 & p3 & p4 & -> & (H1 & H2 & H3 & H4) & Hok & ->).
    assert (regex_test ipPattern (p1 +:+ "." +:+ p2 +:+ "." +:+ p3 +:+ "." +:+ p4)
            = true) as -> by (apply ipPattern_spec; by exists p1, p2, p3, p4).
    cbn [negb].
    rewrite (split_on_dotted p1 p2 p3 p4)
      by (first [apply H1 | apply H2 | apply H3 | apply H4]).
    cbn [length]. rewrite bool_decide_eq_true_2 by done. cbn [negb].
    by rewrite (proj2 (forallb_four octet_ok p1 p2 p3 p4) Hok).
Qed.

(** What is not a string, and the empty string, are turned down. *)
Lemma isValidIP_not_a_string trim :
  isValidIP trim None = false ∧ isValidIP trim (Some ""%string) = false.
Proof. done. Qed.

(** What [isValidIP] accepts is, trimmed, the text of an address that is
    not reserved. *)
Lemma isValidIP_public_quad trim ip :
  isValidIP trim (Some ip) = true →
  ∃ a b c d : nat,
    (a ≤ 255 ∧ b ≤ 255 ∧ c ≤ 255 ∧ d ≤ 255)%nat
    ∧ trim ip = dotted a b c d
    ∧ ¬ reserved_quad a b c d.
Proof.
  intros (Hempty & p1 & p2 & p3 & p4 & Htrim & (H1 & H2 & H3 & H4)
          & (Hp1 & Hp2 & Hp3 & Hp4) & Hres)%isValidIP_parts.
  apply octet_ok_spec in Hp1 as (a & Ha & ->); [|done].
  apply octet_ok_spec in Hp2 as (b & Hb & ->); [|done].
  apply octet_ok_spec in Hp3 as (c & Hc & ->); [|done].
  apply octet_ok_spec in Hp4 as (d & Hd & ->); [|done].
  exists a, b, c, d. split_and!; try done.
  intros Hquad%reserved_text_spec; [|done..].
  unfold dotted in Hquad. congruence.
Qed.

(** X19. [isValidIP] accepts a string exactly if it is not empty and,
    once trimmed, is the text [a.b.c.d] of four numbers up to 255 in
    decimal without leading zeros, and the address is none of the reserved
    ones: 127.0.0.1, 0.0.0.0, 169.254/16, 192.168/16, 10/8, 172.16/12. *)
Theorem X19_isValidIP_accepts_public_quads trim ip :
  isValidIP trim (Some ip) = true
  ↔ ip ≠ ""%string
    ∧ ∃ a b c d : nat,
        (a ≤ 255 ∧ b ≤ 255 ∧ c ≤ 255 ∧ d ≤ 255)%nat
        ∧ trim ip = dotted a b c d
        ∧ ¬ reserved_quad a b c d.
Proof.
  split.
  - intros Hvalid. split; [|by apply isValidIP_public_quad].
    intros ->. by destruct (isValidIP_not_a_string trim) as [_ Hfalse].
  - intros (Hempty & a & b & c & d & (Ha & Hb & Hc & Hd) & Htrim & Hquad).
    apply isValidIP_parts.
    split; [done|]. exists (pretty a), (pretty b), (pretty c), (pretty d).
    split_and!; try done; try (by apply octet_text_pretty).
    1-4: apply octet_ok_spec; [by apply octet_text_pretty|];
         eexists; (split; [|reflexivity]); assumption.
    rewrite Htrim. apply not_true_is_false. by rewrite reserved_text_spec.
Qed.

(** ** The check of the script *)

Lemma digits_value_nonneg acc p : 0 ≤ acc → 0 ≤ digits_value acc p.
Proof.
  revert acc. induction p as [|c p IH]; intros acc Hacc; [done|].
  cbn [digits_value]. destruct (is_digit c) eqn:Hc; [|done]. apply IH.
  assert (48 ≤ Z.of_nat (nat_of_ascii c)); [|lia].
  apply is_digit_chars in Hc.
  repeat (apply elem_of_cons in Hc as [->|Hc]; [by vm_compute|]).
  by apply elem_of_nil in Hc.
Qed.

Lemma parseInt10_octet p :
  octet_text p → parseInt10 p = Some (digits_value 0 p).
Proof.
  intros [Hlen Hp]. destruct p as [|c p]; [cbn in Hlen; lia|].
  apply Forall_cons in Hp as [Hc _].
  assert (c ≠ "-"%char ∧ c ≠ "+"%char) as [Hminus Hplus]
    by (split; by intros ->).
  unfold parseInt10.
  destruct c as [[] [] [] [] [] [] [] []]; try done; by rewrite ?Hc.
Qed.

(** The body of the loop of the script for one part. *)
Lemma script_part_spec p :
  octet_text p →
  match parseInt10 p with
  | Some num => negb (bool_decide (num < 0) || bool_decide (num > 255))
  | None => true
  end = true ↔ (octet_value p ≤ 255)%nat.
Proof.
  intros Hp. rewrite (parseInt10_octet p Hp). unfold octet_value.
  pose proof (digits_value_nonneg 0 p).
  rewrite negb_true_iff, orb_false_iff, !bool_decide_eq_false. lia.
Qed.

(** A part that passes the loop of the server passes that of the script. *)
Lemma octet_ok_value p :
  octet_text p → octet_ok p = true → (octet_value p ≤ 255)%nat.
Proof.
  intros Hp. unfold octet_ok, octet_value. rewrite (parseInt10_octet p Hp).
  pose proof (digits_value_nonneg 0 p).
  destruct (bool_decide (digits_value 0 p < 0) || bool_decide (digits_value 0 p > 255))
    eqn:Hrange; [done|].
  apply orb_false_iff in Hrange as [_ Hhi%bool_decide_eq_false]. lia.
Qed.

(** X20. The script's [isValidIP] accepts exactly the texts of four parts
    of one to three digits with dots between them whose numbers are at
    most 255: it takes parts with leading zeros and the reserved
    addresses, which the server's check turns down. *)
Theorem X20_script_accepts_any_quad_in_range ip :
  isValidIP_script (Some ip) = true
  ↔ ∃ p1 p2 p3 p4,
      ip = (p1 +:+ "." +:+ p2 +:+ "." +:+ p3 +:+ "." +:+ p4)%string
      ∧ (octet_text p1 ∧ octet_text p2 ∧ octet_text p3 ∧ octet_text p4)
      ∧ (octet_value p1 ≤ 255 ∧ octet_value p2 ≤ 255
         ∧ octet_value p3 ≤ 255 ∧ octet_value p4 ≤ 255)%nat.
Proof.
  unfold isValidIP_script. split.
  - case_decide as Hempty; [done|].
    destruct (regex_test ipPattern ip) eqn:Hpat; [|done]. cbn [negb].
    apply ipPattern_spec in Hpat as (p1 & p2 & p3 & p4 & -> & H1 & H2 & H3 & H4).
    rewrite (split_on_dotted p1 p2 p3 p4)
      by (first [apply H1 | apply H2 | apply H3 | apply H4]).
    rewrite forallb_four, !script_part_spec by done. intros Hvals.
    by exists p1, p2, p3, p4.
  - intros (p1 & p2 & p3 & p4 & -> & (H1 & H2 & H3 & H4) & Hvals).
    rewrite decide_False.
    2:{ destruct H1 as [Hlen _]. destruct p1; [cbn in Hlen; lia|done]. }
    assert (regex_test ipPattern (p1 +:+ "." +:+ p2 +:+ "." +:+ p3 +:+ "." +:+ p4)
            = true) as -> by (apply ipPattern_spec; by exists p1, p2, p3, p4).
    cbn [negb].
    rewrite (split_on_dotted p1 p2 p3 p4)
      by (first [apply H1 | apply H2 | apply H3 | apply H4]).
    by rewrite forallb_four, !script_part_spec by done.
Qed.

(** X21. What the server's [isValidIP] accepts, the script's accepts once
    it is trimmed, as the script does before it calls its own. *)
Theorem X21_server_check_is_stricter trim ip :
  isValidIP trim (Some ip) = true → isValidIP_script (Some (trim ip)) = true.
Proof.
  intros (_ & p1 & p2 & p3 & p4 & -> & (H1 & H2 & H3 & H4)
          & (Hp1 & Hp2 & Hp3 & Hp4) & _)%isValidIP_parts.
  unfold isValidIP_script. rewrite decide_False.
  2:{ destruct H1 as [Hlen _]. destruct p1; [cbn in Hlen; lia|done]. }
  assert (regex_test ipPattern (p1 +:+ "." +:+ p2 +:+ "." +:+ p3 +:+ "." +:+ p4)
          = true) as -> by (apply ipPattern_spec; by exists p1, p2, p3, p4).
  cbn [negb].
  rewrite (split_on_dotted p1 p2 p3 p4)
    by (first [apply H1 | apply H2 | apply H3 | apply H4]).
  rewrite forallb_four, !script_part_spec by done.
  split_and!; by apply octet_ok_value.
Qed.

Lemma X21_server_check_is_stricter_witness :
  isValidIP trim_ascii (Some " 8.8.8.8 "%string) = true
  ∧ isValidIP_script (Some "8.8.8.8"%string) = true.
Proof.
  split; [reflexivity|].
  exact (X21_server_check_is_stricter trim_ascii " 8.8.8.8 " eq_refl).
Defined.

(** Two addresses that the script takes and the server turns down. *)
Example isValidIP_script_sample :
  isValidIP_script (Some "010.1.1.1"%string) = true
  ∧ isValidIP trim_ascii (Some "010.1.1.1"%string) = false
  ∧ isValidIP_script (Some "192.168.1.1"%string) = true
  ∧ isValidIP trim_ascii (Some "192.168.1.1"%string) = false
  ∧ isValidIP_script (Some "256.1.1.1"%string) = false.
Proof. by vm_compute. Qed.

(** * Delivery to the recipients of an envelope *)

Lemma onData_end_snoc cfg d rs r w :
  onData_end cfg d (rs ++ [r]) w
  = ((onData_end cfg d rs w).1
       ++ [{| ev_recipient := r.2;
              ev_email := r_email (receiveEmail cfg r.1 r.2 d (onData_end cfg d rs w).2).1;
              ev_total :=
                r_totalMessages (receiveEmail cfg r.1 r.2 d (onData_end cfg d rs w).2).1 |}],
     (receiveEmail cfg r.1 r.2 d (onData_end cfg d rs w).2).2).
Proof. unfold onData_end. by rewrite foldl_app. Qed.

(** A deposit leaves what the other addresses list alone. *)
Lemma getEmailsForAddress_receiveEmail_other cfg e a a' d w :
  a' ≠ a →
  getEmailsForAddress a' (receiveEmail cfg e a d w).2 = getEmailsForAddress a' w.
Proof.
  intros Hne. unfold getEmailsForAddress.
  by rewrite (proj2 (emails_receiveEmail cfg e a d w) a' Hne).
Qed.

(** X22. When the SMTP server has parsed a message, every recipient of the
    envelope is given its own copy, in the order of the envelope: an
    address then lists its copies, one for each time it is named, newest
    first, before what it listed, cut at the limit; an address that is not
    named lists what it did. One event is sent for each recipient, with the
    stored copy and a total between one and the limit, and [totalEmails]
    grows by the number of recipients. The limit is a positive number. *)
Theorem X22_every_recipient_gets_its_copy cfg d rs w a :
  0 < MAX_EMAILS_PER_ADDRESS cfg →
  let cap := Z.to_nat (MAX_EMAILS_PER_ADDRESS cfg) in
  let mine := filter (fun r => r.2 = a) rs in
  let after := onData_end cfg d rs w in
  getEmailsForAddress a after.2
  = (if decide (mine = []) then getEmailsForAddress a w
     else take cap (rev (map (fun r => savedEmail r.1 a d) mine)
                    ++ getEmailsForAddress a w))
  ∧ map ev_recipient after.1 = rs.*2
  ∧ map ev_email after.1 = map (fun r => savedEmail r.1 r.2 d) rs
  ∧ Forall (fun ev => (1 ≤ ev_total ev ≤ cap)%nat) after.1
  ∧ totalEmails (mgr_stats (mgr after.2))
    = totalEmails (mgr_stats (mgr w)) + Z.of_nat (length rs).
Proof.
  intros Hcap cap mine after. subst mine after.
  induction rs as [|r rs IH] using rev_ind.
  - cbn. split_and!; try done. lia.
  - destruct IH as (Hlist & Hrcpt & Hemail & Htotal & Hcount).
    rewrite onData_end_snoc. cbn [fst snd].
    destruct (result_receiveEmail cfg r.1 r.2 d (onData_end cfg d rs w).2)
      as (_ & _ & Hsaved).
    split_and!.
    + rewrite filter_app, filter_cons, filter_nil.
      destruct (decide (r.2 = a)) as [Hr|Hr].
      * rewrite decide_False by (by destruct (filter _ rs)).
        rewrite Hr, getEmailsForAddress_receiveEmail by done. rewrite Hlist.
        rewrite map_app, rev_app_distr. cbn [map rev app].
        case_decide as Hmine.
        -- by rewrite Hmine.
        -- apply take_cons_take. lia.
      * rewrite app_nil_r, getEmailsForAddress_receiveEmail_other by done.
        exact Hlist.
    + by rewrite map_app, fmap_app, Hrcpt.
    + by rewrite !map_app, Hemail, Hsaved.
    + apply Forall_app. split; [done|]. apply Forall_singleton. cbn [ev_total].
      rewrite totalMessages_receiveEmail, getEmailsForAddress_receiveEmail by done.
      rewrite length_take. cbn [length]. lia.
    + destruct (stats_receiveEmail cfg r.1 r.2 d (onData_end cfg d rs w).2)
        as (_ & -> & _).
      rewrite Hcount, length_app. cbn [length]. lia.
Qed.

Lemma X22_every_recipient_gets_its_copy_witness :
  getEmailsForAddress "ann@localhost"
    (onData_end small_config (sample_data "hi") sample_recipients sample_world).2
  = [savedEmail (sample_env 30) "ann@localhost" (sample_data "hi");
     savedEmail (sample_env 10) "ann@localhost" (sample_data "hi")]
  ∧ map ev_total
      (onData_end small_config (sample_data "hi") sample_recipients sample_world).1
    = [1; 1; 2]%nat.
Proof.
  split; [|reflexivity].
  destruct (X22_every_recipient_gets_its_copy small_config (sample_data "hi")
              sample_recipients sample_world "ann@localhost" eq_refl) as [Hlist _].
  exact Hlist.
Defined.

(** * Detecting the addresses of the host *)

Lemma firstValid_Some trim answers ip :
  firstValid trim answers = Some ip →
  isValidIP trim (Some ip) = true ∧ ∃ data, Some data ∈ answers ∧ ip = trim data.
Proof.
  induction answers as [|[data|] rest IH]; [done| |]; cbn [firstValid].
  - destruct (isValidIP trim (Some (trim data))) eqn:Hvalid.
    + intros [= <-]. split; [done|]. exists data. split; [by left | done].
    + intros (Hip & data' & Hin & ->)%IH. split; [done|].
      exists data'. split; [by right | done].
  - intros (Hip & data' & Hin & ->)%IH. split; [done|].
    exists data'. split; [by right | done].
Qed.

Lemma firstValid_None trim answers :
  firstValid trim answers = None
  ↔ ∀ data, Some data ∈ answers → isValidIP trim (Some (trim data)) = false.
Proof.
  induction answers as [|[data|] rest IH]; cbn [firstValid].
  - split; [|done]. intros _ data Hin. by apply elem_of_nil in Hin.
  - destruct (isValidIP trim (Some (trim data))) eqn:Hvalid.
    + split; [done|]. intros Hall.
      specialize (Hall data (list_elem_of_here _ _)). congruence.
    + rewrite IH. split.
      * intros Hall data' [[= ->]|Hin]%elem_of_cons; [done | by apply Hall].
      * intros Hall data' Hin. apply Hall. by right.
  - rewrite IH. split.
    + intros Hall data' [[=]|Hin]%elem_of_cons. by apply Hall.
    + intros Hall data' Hin. apply Hall. by right.
Qed.

Lemma manualIP_Some trim o ip :
  manualIP trim o = Some ip →
  isValidIP trim (Some ip) = true ∧ ∃ m, manual o = Some m ∧ m ≠ ""%string ∧ ip = trim m.
Proof.
  unfold manualIP. destruct (manual o) as [m|]; [|done].
  case_decide as Hm; [done|].
  destruct (isValidIP trim (Some (trim m))) eqn:Hvalid; [|done].
  intros [= <-]. split; [done|]. by exists m.
Qed.

Lemma manualIP_None trim o :
  manualIP trim o = None
  ↔ ∀ m, manual o = Some m → m ≠ ""%string → isValidIP trim (Some (trim m)) = false.
Proof.
  unfold manualIP. destruct (manual o) as [m|]; [|done].
  case_decide as Hm.
  - split; [|done]. by intros _ m' [= <-].
  - destruct (isValidIP trim (Some (trim m))) eqn:Hvalid.
    + split; [done|]. intros Hall. specialize (Hall m eq_refl Hm). congruence.
    + split; [|done]. by intros _ m' [= <-].
Qed.

Lemma packageIP_Some trim o ip :
  packageIP trim o = Some ip → isValidIP trim (Some ip) = true ∧ package o = Some ip.
Proof.
  unfold packageIP. destruct (package o) as [ip'|]; [|done].
  destruct (isValidIP trim (Some ip')) eqn:Hvalid; [|done]. by intros [= <-].
Qed.

Lemma packageIP_None trim o :
  packageIP trim o = None
  ↔ ∀ ip, package o = Some ip → isValidIP trim (Some ip) = false.
Proof.
  unfold packageIP. destruct (package o) as [ip'|]; [|done].
  destruct (isValidIP trim (Some ip')) eqn:Hvalid.
  - split; [done|]. intros Hall. specialize (Hall ip' eq_refl). congruence.
  - split; [|done]. by intros _ ip [= <-].
Qed.

(** X23. The address that [getPublicIP] returns has passed [isValidIP]:
    trimmed, it is the text of four numbers up to 255 that name none of the
    reserved or private addresses. It is the answer of one of the methods
    (trimmed, but for the package), and a variable [MANUAL_PUBLIC_IP] that
    is set and passes the check is taken whatever the network answers. *)
Theorem X23_public_address_is_never_reserved trim o ip :
  getPublicIP trim o = Some ip →
  isValidIP trim (Some ip) = true
  ∧ (∃ a b c d : nat,
       (a ≤ 255 ∧ b ≤ 255 ∧ c ≤ 255 ∧ d ≤ 255)%nat
       ∧ trim ip = dotted a b c d ∧ ¬ reserved_quad a b c d)
  ∧ (∃ data, (manual o = Some data ∧ ip = trim data)
             ∨ (package o = Some data ∧ ip = data)
             ∨ (Some data ∈ services o ++ commands o ∧ ip = trim data))
  ∧ (∀ m, manual o = Some m → m ≠ ""%string →
          isValidIP trim (Some (trim m)) = true → ip = trim m).
Proof.
  intros Hget.
  assert (isValidIP trim (Some ip) = true
          ∧ (∃ data, (manual o = Some data ∧ ip = trim data)
                     ∨ (package o = Some data ∧ ip = data)
                     ∨ (Some data ∈ services o ++ commands o ∧ ip = trim data))
          ∧ (∀ m, manual o = Some m → m ≠ ""%string →
                  isValidIP trim (Some (trim m)) = true → ip = trim m))
    as (Hvalid & Hfrom & Hmanual).
  { unfold getPublicIP in Hget.
    destruct (manualIP trim o) as [ip1|] eqn:H1.
    - injection Hget as ->.
      apply manualIP_Some in H1 as (Hvalid & m & Hm & Hne & ->).
      split_and!; [done | exists m; by left |].
      intros m' Hm' _ _. congruence.
    - assert (∀ m, manual o = Some m → m ≠ ""%string →
                   isValidIP trim (Some (trim m)) = true → ip = trim m) as Hmanual.
      { intros m Hm Hne Hvalid.
        rewrite (proj1 (manualIP_None trim o) H1 m Hm Hne) in Hvalid. done. }
      destruct (packageIP trim o) as [ip2|] eqn:H2.
      + injection Hget as ->. apply packageIP_Some in H2 as [Hvalid Hpkg].
        split_and!; [done | exists ip; right; by left | done].
      + destruct (firstValid trim (services o)) as [ip3|] eqn:H3.
        * injection Hget as ->.
          apply firstValid_Some in H3 as (Hvalid & data & Hin & ->).
          split_and!; [done | | done].
          exists data. right. right. split; [|done]. apply elem_of_app. by left.
        * apply firstValid_Some in Hget as (Hvalid & data & Hin & ->).
          split_and!; [done | | done].
          exists data. right. right. split; [|done]. apply elem_of_app. by right. }
  split_and!; try done. by apply isValidIP_public_quad.
Qed.

Lemma X23_public_address_is_never_reserved_witness :
  getPublicIP trim_ascii sample_answers = Some "203.0.113.7"%string
  ∧ isValidIP trim_ascii (Some "203.0.113.7"%string) = true.
Proof.
  split; [reflexivity|].
  destruct (X23_public_address_is_never_reserved trim_ascii sample_answers
              "203.0.113.7" eq_refl) as [Hvalid _].
  exact Hvalid.
Defined.

(** X24. [getPublicIP] returns [null] only if no method has an answer that
    passes [isValidIP]: not the variable, not the package, none of the
    services and none of the commands; and if that is so it returns
    [null]. *)
Theorem X24_no_public_address_iff_no_valid_answer trim o :
  getPublicIP trim o = None
  ↔ (∀ m, manual o = Some m → m ≠ ""%string → isValidIP trim (Some (trim m)) = false)
    ∧ (∀ ip, package o = Some ip → isValidIP trim (Some ip) = false)
    ∧ (∀ data, Some data ∈ services o ++ commands o →
               isValidIP trim (Some (trim data)) = false).
Proof.
  rewrite <- manualIP_None, <- packageIP_None.
  assert ((∀ data, Some data ∈ services o ++ commands o →
                   isValidIP trim (Some (trim data)) = false)
          ↔ firstValid trim (services o) = None ∧ firstValid trim (commands o) = None)
    as ->.
  { rewrite !firstValid_None. split.
    - intros Hall. split; intros data Hin; apply Hall, elem_of_app; [by left | by right].
    - intros [Hs Hc] data [Hin|Hin]%elem_of_app; [by apply Hs | by apply Hc]. }
  unfold getPublicIP.
  destruct (manualIP trim o); [by split; [|intros [? _]]|].
  destruct (packageIP trim o); [by split; [|intros (_ & ? & _)]|].
  destruct (firstValid trim (services o)); [by split; [|intros (_ & _ & ? & _)]|].
  by split; [|intros (_ & _ & _ & ?)].
Qed.

(** ** The local addresses *)


